(** * Pooler: snapshot construction pipeline

    A shallow embedding of the snapshot worker of the pooler repository
    and of the functions it relies on:

    - [uniswap_functions.py]: the rate-limit gate, the per-block reserve
      fetch, the event decoder and the trade-volume extractor;
    - [callback_modules/pair_total_reserves.py]: the reserves and
      trade-volume snapshot builders, the RabbitMQ message handler and the
      callback of the distributor;
    - [pooler/callback_modules/uniswap/pricing.py]: the whitelist pricing
      cascade and its block-height price cache.

    Conventions of the embedding.

    - Python [int] is [Z]; Python [float] is an exact rational ([Qc], the
      canonical rationals, so that dictionaries of prices have Leibniz
      equality).  Rounding of IEEE doubles is not modelled.
    - A Python [dict] with string or integer keys is a [gmap]; a dict whose
      iteration order is observed is an association list.
    - Coroutines are run to completion: an [await] is a call.  Effects
      (logging, Redis writes, audit-protocol calls, clock readings) are
      threaded through a state-and-exception monad; everything read from the
      chain, from Redis or from the audit protocol is a field of an
      environment record.
    - The pushes of the two builders onto the queue of failed epochs may
      raise, as the environment says.  The other writes (the acknowledgement,
      the publications and the [zadd] of the distributor, the [zadd] calls of
      the handler, those of the price cache) are recorded and taken to go
      through, and so are the constructors of the snapshot models.
    - The exception classes that an [except] clause names are taken to
      exist.  The gate of the reserve fetch names classes of
      [aioredis.exceptions] and the gate of the trades fetch classes of
      [aioredis.errors], and an installed aioredis has one of the two
      modules: where the module of a clause is missing, a check that raises
      makes the evaluation of the clause raise AttributeError, which takes
      the place of the exception of the check. *)

From Stdlib Require Import ZArith QArith Qcanon Qround Lia Ascii String.
From stdpp Require Import gmap strings list list_numbers pretty.

Open Scope Z_scope.
Set Warnings "-register-all,-clear-no-such-hyp".

(** ** Python values, exceptions and the effect monad *)

Module Py.

(** The exception classes that the modelled code raises or catches. *)
Inductive exn : Type :=
| AttributeError
| TypeError
| KeyError
| IndexError
| ValueError
| ZeroDivisionError
| ValidationError
| RedisConnectionError
| RedisTimeoutError
| RedisResponseError
| RedisConnectionClosedError
| RedisConnectionForcedCloseError
| RedisPoolClosedError
| RPCError
| HTTPError
| Exception (msg : string).

Inductive result (A : Type) : Type :=
| Ok (a : A)
| Raise (e : exn).
Arguments Ok {A} a.
Arguments Raise {A} e.

(** A computation over a state [S] that may raise.  The state reached when
    an exception is raised is kept: effects are not rolled back. *)
Definition M (S A : Type) : Type := S → result A * S.

Definition ret {S A} (a : A) : M S A := λ s, (Ok a, s).
Definition raise {S A} (e : exn) : M S A := λ s, (Raise e, s).
Definition bind {S A B} (m : M S A) (k : A → M S B) : M S B :=
  λ s, match m s with
       | (Ok a, s') => k a s'
       | (Raise e, s') => (Raise e, s')
       end.
#[global] Instance M_ret {S} : MRet (M S) := λ A, ret.
#[global] Instance M_bind {S} : MBind (M S) := λ A B k m, bind m k.

(** Pure code that may raise. *)
Definition rbind {A B} (r : result A) (k : A → result B) : result B :=
  match r with Ok a => k a | Raise e => Raise e end.
#[global] Instance result_ret : MRet result := λ A, Ok.
#[global] Instance result_bind : MBind result := λ A B k r, rbind r k.
(** [try: m except Exception as e: h e] *)
Definition try_catch {S A} (m : M S A) (h : exn → M S A) : M S A :=
  λ s, match m s with
       | (Ok a, s') => (Ok a, s')
       | (Raise e, s') => h e s'
       end.
(** Run [m] and hand its outcome, normal or exceptional, to the caller. *)
Definition attempt {S A} (m : M S A) : M S (result A) :=
  λ s, let '(r, s') := m s in (Ok r, s').
Definition lift {S A} (r : result A) : M S A := λ s, (r, s).
(** A call whose arguments are all given by keyword.  When a parameter
    that has no default value is not among the keywords, Python raises
    TypeError as the call is evaluated, before the body of the function
    runs. *)
Definition call_with_keywords {S A} (required keywords : list string)
    (body : M S A) : M S A :=
  if forallb (λ p, existsb (String.eqb p) keywords) required then body
  else raise TypeError.
Definition modify {S} (f : S → S) : M S unit := λ s, (Ok tt, f s).
Definition gets {S A} (f : S → A) : M S A := λ s, (Ok (f s), s).

(** JSON-like Python values: what [.dict()] of a pydantic model, a decoded
    event or a progress-log entry is made of.  [VExc] is an exception
    object held in a dictionary. *)
Inductive pyval : Type :=
| VNone
| VInt (z : Z)
| VFloat (q : Qc)
| VStr (s : string)
| VList (l : list pyval)
| VDict (d : list (string * pyval))
| VExc (e : exn).

(** [json.dumps] accepts None, numbers, strings, lists and dicts with
    string keys, and raises TypeError on any other object. *)
Fixpoint json_serializable (v : pyval) : bool :=
  match v with
  | VNone | VInt _ | VFloat _ | VStr _ => true
  | VList l => forallb json_serializable l
  | VDict d => forallb (λ kv, json_serializable kv.2) d
  | VExc _ => false
  end.

(** The serialised text is represented by the value it was produced from. *)
Definition json_dumps (v : pyval) : result pyval :=
  if json_serializable v then Ok v else Raise TypeError.

(** [d.get(k)] on a dictionary held as an association list. *)
Fixpoint dict_get (k : string) (d : list (string * pyval)) : option pyval :=
  match d with
  | [] => None
  | (k', v) :: d' => if decide (k' = k) then Some v else dict_get k d'
  end.

(** [float(f'{x: .6f}')]: the nearest multiple of 10^-6, ties to even. *)
Definition round_half_even (q : Q) : Z :=
  let f := Qfloor q in
  let r := (q - inject_Z f)%Q in
  match (r ?= 1 # 2)%Q with
  | Lt => f
  | Gt => f + 1
  | Eq => if Z.even f then f else f + 1
  end.

Definition round6 (x : Qc) : Qc :=
  Q2Qc (inject_Z (round_half_even (x * inject_Z 1000000)%Q) / inject_Z 1000000)%Q.

(** [x / y] on floats. *)
Definition truediv (x y : Qc) : result Qc :=
  if decide (y = 0%Qc) then Raise ZeroDivisionError else Ok (x / y)%Qc.

(** [d[k] = v]: replace in place, or append a new key. *)
Fixpoint dict_set (k : string) (v : pyval) (d : list (string * pyval))
    : list (string * pyval) :=
  match d with
  | [] => [(k, v)]
  | (k', v') :: d' =>
      if decide (k' = k) then (k, v) :: d' else (k', v') :: dict_set k v d'
  end.

(** [o == 0] for the result of a [.get] *)
Definition is_zero (o : option pyval) : bool :=
  match o with
  | Some (VInt 0) => true
  | _ => false
  end.

(** The operand of an integer addition or division: anything but an
    [int] raises TypeError. *)
Definition as_int (o : option pyval) : result Z :=
  match o with
  | Some (VInt z) => Ok z
  | _ => Raise TypeError
  end.

Definition float_of_int (z : Z) : Qc := Q2Qc (inject_Z z).

(** [n / 10 ** d] for an integer [n] and a decimals count [d]. *)
Definition scale_by_decimals (n : Z) (d : N) : Qc :=
  (float_of_int n / float_of_int (10 ^ Z.of_N d))%Qc.

(** [range(a, b + 1)] *)
Definition block_range (a b : Z) : list Z := seqZ a (b - a + 1).

End Py.

Import Py.

(** ** [uniswap_functions.py] *)

Module UniswapFunctions.

(** Effects of the worker process that the properties observe. *)
Inductive effect : Type :=
| LogError (msg : string)
| LogDebug (msg : string)
| LogWarning (msg : string)
| Ack
| Rpush (key : string) (member : pyval)
| Zadd (key : string) (score : Z) (member : pyval)
| Zremrangebyscore (key : string) (max : Z)
| SetDiffRule (contract stream : string)
| CommitPayload (contract stream : string) (payload : pyval).

(** The state of the worker: the effects performed so far, oldest first,
    and the number of readings of [time.time()] made so far. *)
Record world : Type := World {
  trace : list effect;
  ticks : nat
}.

Definition emit (e : effect) : M world unit :=
  modify (λ w, World (trace w ++ [e]) (ticks w)).

Record token_metadata : Type := TokenMetadata {
  address : string;
  name : string;
  symbol : string;
  decimals : N
}.

(** The dictionary returned by [get_pair_per_token_metadata]. *)
Record pair_metadata : Type := PairMetadata {
  token0 : token_metadata;
  token1 : token_metadata
}.

(** [block_details] as far as it is used: its [timestamp] attribute. *)
Record block_details : Type := BlockDetails { block_timestamp : Z }.

(** One pass of [custom_limiter.hit] for one parsed limit, together with
    the [get_window_stats] call that follows a denial. *)
Inductive limiter_outcome : Type :=
| HitTrue
| HitFalse (reset : Z)
| HitFalseStatsRaise (e : exn)
| HitRaises (e : exn).

(** A decoded event log: [k.args] and the four attributes read from [k]. *)
Record event_log : Type := EventLog {
  args : list (string * pyval);
  transactionHash : string;
  logIndex : Z;
  blockNumber : Z;
  event : string
}.

(** What the process reads from its surroundings. *)
Record env : Type := Env {
  (** [int(time.time())] at the n-th reading *)
  wall_clock : nat → Z;
  (** [PARSED_LIMITS], by name *)
  PARSED_LIMITS : list string;
  (** [load_rate_limiter_scripts]: [Some e] when the script load raises *)
  script_load : option exn;
  (** limiter, per limit, weight, key bits (call kind) and block *)
  limiter_hit : string → Z → string → Z → limiter_outcome;
  (** [w3.eth.get_block] *)
  get_block : Z → result (option block_details);
  (** [get_pair_per_token_metadata]: [None] is the empty dict it returns
      after an RPC error *)
  pair_per_token_metadata : string → option pair_metadata;
  (** [pair.functions.getReserves().call] after the retries, for a pair
      and the block identifier of the fetch.  The source hands the
      identifier to [call] inside its first argument, the transaction
      dictionary, so that the node is asked for ['latest'] at every block;
      the identifier is kept here to tell the calls of an epoch apart. *)
  getReserves : string → Z → result (Z * Z);
  (** [redis_conn.get] of the cached USDT price of a symbol *)
  cached_token_price : string → option Qc;
  (** [get_events_logs] by event name, pair, from and to block *)
  get_events_logs : string → string → Z → Z → result (list event_log);
  (** [redis_conn.rpush] of a member onto a list: [Some e] when the call
      raises *)
  rpush : string → pyval → option exn
}.

(** [int(time.time())] *)
Definition time_time (E : env) : M world Z :=
  λ w, (Ok (wall_clock E (ticks w)), World (trace w) (S (ticks w))).

(** Truthiness of an optional integer: [None] and [0] are false. *)
Definition truthy_int (o : option Z) : bool :=
  match o with Some z => negb (z =? 0) | None => false end.

(** *** The rate-limit gate

    The loop over [PARSED_LIMITS] that opens both
    [get_liquidity_of_each_token_reserve_async] and
    [get_pair_contract_trades_async].  [bypassed] tells which exceptions
    the first [except] clause names; [log_other] is true when a second
    clause [except Exception] logs before re-raising.  The result is the
    final value of [can_request].  The classes behind [bypassed] are taken
    to exist where the clause is evaluated. *)
Fixpoint rate_limit_gate (E : env) (bypassed : exn → bool) (log_other : bool)
    (key_bits : string) (limit_incr_by block : Z)
    (limits : list string) (can_request : bool) : M world bool :=
  match limits with
  | [] => mret can_request
  | each_lim :: rest =>
      let on_exception (e : exn) : M world bool :=
        if bypassed e then
          emit (LogDebug "Bypassing rate limit check for appID because of Redis exception");;
          rate_limit_gate E bypassed log_other key_bits limit_incr_by block
                          rest can_request
        else if log_other then
          emit (LogError "Caught exception on rate limiter operations");;
          raise e
        else raise e in
      match limiter_hit E each_lim limit_incr_by key_bits block with
      | HitTrue =>
          (* the [else] clause of the [try] *)
          rate_limit_gate E bypassed log_other key_bits limit_incr_by block
                          rest true
      | HitFalse reset =>
          (* retry_after = reset_in - int(time.time()); can_request = False; break *)
          _ ← time_time E;
          mret false
      | HitFalseStatsRaise e => on_exception e
      | HitRaises e => on_exception e
      end
  end.

(** [aioredis.exceptions.ConnectionError], [TimeoutError], [ResponseError] *)
Definition redis_exceptions (e : exn) : bool :=
  match e with
  | RedisConnectionError | RedisTimeoutError | RedisResponseError => true
  | _ => false
  end.

(** [aioredis.errors.ConnectionClosedError], [ConnectionForcedCloseError],
    [PoolClosedError] *)
Definition redis_errors (e : exn) : bool :=
  match e with
  | RedisConnectionClosedError | RedisConnectionForcedCloseError
  | RedisPoolClosedError => true
  | _ => false
  end.

Definition exhausted_api_key_rate_limit : exn :=
  Exception "exhausted_api_key_rate_limit inside uniswap_functions get async liquidity reservers".

(** *** [get_liquidity_of_each_token_reserve_async] *)

Record reserve_total : Type := ReserveTotal {
  rt_token0 : Qc;
  rt_token1 : Qc;
  rt_token0USD : Qc;
  rt_token1USD : Qc;
  rt_timestamp : option Z
}.

Definition usd_of (amount : Qc) (price : option Qc) (missing : string)
    : M world Qc :=
  match price with
  | Some p => mret (amount * p)%Qc
  | None => emit (LogError missing);; mret 0%Qc
  end.

(** The parameters of [get_liquidity_of_each_token_reserve_async] that
    have no default value; [block_identifier] and [fetch_timestamp] have
    one, and no decorator supplies [redis_conn]. *)
Definition get_liquidity_of_each_token_reserve_async_required : list string :=
  ["loop"; "pair_address"; "redis_conn"].

(** The body of [get_liquidity_of_each_token_reserve_async], its
    parameters bound. *)
Definition get_liquidity_of_each_token_reserve_async (E : env)
    (pair_address : string) (block_identifier : Z) (fetch_timestamp : bool)
    : M world reserve_total :=
  try_catch
    (_ ← lift (match script_load E with Some e => Raise e | None => Ok tt end);
     emit (LogDebug "Got sha load results for rate limiter scripts");;
     let limit_incr_by := if fetch_timestamp then 2 else 1 in
     can_request ← rate_limit_gate E redis_exceptions true "eth_call"
                     limit_incr_by block_identifier (PARSED_LIMITS E) false;
     if can_request : bool then
       let block_details :=
         if fetch_timestamp then
           match get_block E block_identifier with
           | Ok d => d
           | Raise _ => None
           end
         else None in
       let pair_per_token_metadata := pair_per_token_metadata E pair_address in
       reserves ← lift (getReserves E pair_address block_identifier);
       md ← lift (match pair_per_token_metadata with
                  | Some md => Ok md
                  | None => Raise KeyError
                  end);
       let token0Amount := scale_by_decimals reserves.1 (decimals (token0 md)) in
       let token1Amount := scale_by_decimals reserves.2 (decimals (token1 md)) in
       emit (LogDebug "Token0: %s, Reserves: %s | Token1: %s, Reserves: %s");;
       token0USD ← usd_of token0Amount
                     (cached_token_price E (symbol (token0 md)))
                     "Liquidity: Could not find token0 price";
       token1USD ← usd_of token1Amount
                     (cached_token_price E (symbol (token1 md)))
                     "Liquidity: Could not find token1 price";
       mret {| rt_token0 := token0Amount;
               rt_token1 := token1Amount;
               rt_token0USD := token0USD;
               rt_token1USD := token1USD;
               rt_timestamp := block_timestamp <$> block_details |}
     else raise exhausted_api_key_rate_limit)
    (λ exc,
       emit (LogError "error at async_get_liquidity_of_each_token_reserve fn");;
       raise exc).

(** *** Event decoding and trade volume *)

(** Modelled from the spec: the file [abis/UniswapTradeEvents.json] read
    into [uniswap_trade_events_abi] is missing; the names of the inputs of
    each event are those of the UniswapV2Pair events
    [Swap(address,uint256,uint256,uint256,uint256,address)],
    [Mint(address,uint256,uint256)] and
    [Burn(address,uint256,uint256,address)]. *)
Definition uniswap_trade_events_abi_inputs (event_name : string)
    : option (list string) :=
  if decide (event_name = "Swap") then
    Some ["sender"; "amount0In"; "amount1In"; "amount0Out"; "amount1Out"; "to"]
  else if decide (event_name = "Mint") then
    Some ["sender"; "amount0"; "amount1"]
  else if decide (event_name = "Burn") then
    Some ["sender"; "amount0"; "amount1"; "to"]
  else None.

(** [get_block_details]: an empty dict, and a logged error, on failure. *)
Definition get_block_details (E : env) (block_number : Z)
    : M world (option block_details) :=
  match get_block E block_number with
  | Ok d => mret d
  | Raise _ =>
      emit (LogError "Error attempting to get block details of recent transaction timestamp");;
      mret None
  end.

Definition is_mint_or_burn (event_name : string) : bool :=
  bool_decide (event_name = "Mint") || bool_decide (event_name = "Burn").

Definition metadata_of (m : option pair_metadata) : result pair_metadata :=
  match m with
  | Some md => Ok md
  | None => Raise KeyError
  end.

(** The body of the loop of [extract_recent_transaction_logs]. *)
Definition recent_transaction_log (E : env) (event_name : string)
    (pair_per_token_metadata : option pair_metadata)
    (token0Price token1Price : option Qc) (log : event_log)
    : M world pyval :=
  let get (k : string) := dict_get k (args log) in
  let '(token0_amount, token1_amount) :=
    if bool_decide (event_name = "Swap") then
      if is_zero (get "amount1In") then (get "amount0In", get "amount1Out")
      else if is_zero (get "amount0In") then (get "amount0Out", get "amount1In")
      else (Some (VInt 0), Some (VInt 0))
    else if is_mint_or_burn event_name then (get "amount0", get "amount1")
    else (Some (VInt 0), Some (VInt 0)) in
  md ← lift (metadata_of pair_per_token_metadata);
  a0 ← lift (as_int token0_amount);
  let token0_amount := scale_by_decimals a0 (decimals (token0 md)) in
  a1 ← lift (as_int token1_amount);
  let token1_amount := scale_by_decimals a1 (decimals (token1 md)) in
  let trade_amount_usd : Qc :=
    if bool_decide (event_name = "Swap") then
      match token0Price, token1Price with
      | Some p0, _ => (token0_amount * p0)%Qc
      | None, Some p1 => (token1_amount * p1)%Qc
      | None, None => 0%Qc
      end
    else if is_mint_or_burn event_name then
      let u0 := match token0Price with
                | Some p0 => (token0_amount * p0)%Qc
                | None => 0%Qc
                end in
      let u1 := match token1Price with
                | Some p1 => (u0 + token1_amount * p1)%Qc
                | None => u0
                end in
      match token0Price, token1Price with
      | Some _, Some _ => u1
      | _, _ => (u1 * 2)%Qc
      end
    else 0%Qc in
  block_details ← get_block_details E (blockNumber log);
  mret (VDict [
    ("sender", default (VStr "") (get "sender"));
    ("to", default (VStr "") (get "to"));
    ("transactionHash", VStr (transactionHash log));
    ("logIndex", VInt (logIndex log));
    ("blockNumber", VInt (blockNumber log));
    ("event", VStr (event log));
    ("token0_amount", VFloat token0_amount);
    ("token1_amount", VFloat token1_amount);
    ("trade_amount_usd", VFloat trade_amount_usd);
    ("timestamp", match block_details with
                  | Some d => VInt (block_timestamp d)
                  | None => VStr ""
                  end)
  ]).

Fixpoint extract_recent_transaction_logs (E : env) (event_name : string)
    (event_logs : list event_log)
    (pair_per_token_metadata : option pair_metadata)
    (token0Price token1Price : option Qc) : M world (list pyval) :=
  match event_logs with
  | [] => mret []
  | log :: rest =>
      r ← recent_transaction_log E event_name pair_per_token_metadata
            token0Price token1Price log;
      rs ← extract_recent_transaction_logs E event_name rest
             pair_per_token_metadata token0Price token1Price;
      mret (r :: rs)
  end.

(** The running totals of the second loop of [extract_trade_volume_data]. *)
Record swapped : Type := Swapped {
  token0_swapped : Z;
  token1_swapped : Z;
  token0_fee : option Z;
  token1_fee : option Z
}.

Definition accumulate_log (event_name : string) (acc : swapped)
    (parsed_log_obj_values : list (string * pyval)) : result swapped :=
  let get (k : string) := dict_get k parsed_log_obj_values in
  if bool_decide (event_name = "Swap") then
    if is_zero (get "amount1In") then
      a0 ← as_int (get "amount0In");
      a1 ← as_int (get "amount1Out");
      Ok {| token0_swapped := token0_swapped acc + a0;
            token1_swapped := token1_swapped acc + a1;
            token0_fee := Some a0;
            token1_fee := token1_fee acc |}
    else if is_zero (get "amount0In") then
      a0 ← as_int (get "amount0Out");
      a1 ← as_int (get "amount1In");
      Ok {| token0_swapped := token0_swapped acc + a0;
            token1_swapped := token1_swapped acc + a1;
            token0_fee := token0_fee acc;
            token1_fee := Some a1 |}
    else Ok acc
  else if is_mint_or_burn event_name then
    a0 ← as_int (get "amount0");
    a1 ← as_int (get "amount1");
    Ok {| token0_swapped := token0_swapped acc + a0;
          token1_swapped := token1_swapped acc + a1;
          token0_fee := token0_fee acc;
          token1_fee := token1_fee acc |}
  else Ok acc.

Fixpoint accumulate_logs (event_name : string) (acc : swapped)
    (log_topic_values : list (list (string * pyval))) : result swapped :=
  match log_topic_values with
  | [] => Ok acc
  | parsed :: rest =>
      acc' ← accumulate_log event_name acc parsed;
      accumulate_logs event_name acc' rest
  end.

(** The dictionary returned by [extract_trade_volume_data]; the key
    [totalFeeUSD] is present for Swap only. *)
Record trades : Type := Trades {
  totalTradesUSD : Qc;
  totalFeeUSD : option Qc;
  token0TradeVolume : Qc;
  token1TradeVolume : Qc;
  token0TradeVolumeUSD : Qc;
  token1TradeVolumeUSD : Qc;
  recent_transaction_logs : list pyval
}.

Definition cached_price_key (sym : string) : string :=
  "uniswap:pairContract:" +:+ sym +:+ "-USDT:cachedPairBlockHeightTokenPrice".

(** [0.3], the constant of the source commented "uniswap LP fee rate" *)
Definition uniswap_LP_fee_rate : Qc := Q2Qc (3 # 10).

(** One arm of [if token0_fee and token0Price: ... elif token1_fee and
    token1Price: ...]: [None] when the condition is false. *)
Definition fee_usd (fee : option Z) (price : option Qc) (d : N) : option Qc :=
  match fee, price with
  | Some f, Some p =>
      if f =? 0 then None
      else Some (scale_by_decimals f d * uniswap_LP_fee_rate * p)%Qc
  | _, _ => None
  end.

Definition topics_of (inputs : list string) (log : event_log)
    : list (string * pyval) :=
  (λ field, (field, default VNone (dict_get field (args log)))) <$> inputs.

(** [extract_trade_volume_data].  The two reads of
    [get_price_at_block_height_in_zset], whose results the source never
    uses, are left out; the two prunings are recorded. *)
Definition extract_trade_volume_data (E : env) (event_name : string)
    (event_logs : list event_log)
    (pair_per_token_metadata : option pair_metadata) (from_block : Z)
    : M world trades :=
  log_topic_values ← lift (
    match event_logs with
    | [] => Ok []
    | _ :: _ =>
        match uniswap_trade_events_abi_inputs event_name with
        | Some inputs => Ok ((topics_of inputs) <$> event_logs)
        | None => Raise KeyError
        end
    end);
  acc ← lift (accumulate_logs event_name (Swapped 0 0 None None) log_topic_values);
  md ← lift (metadata_of pair_per_token_metadata);
  (* normalize token volume according to decimals specification *)
  let token0_swapped := scale_by_decimals (token0_swapped acc) (decimals (token0 md)) in
  let token1_swapped := scale_by_decimals (token1_swapped acc) (decimals (token1 md)) in
  let token0Price := cached_token_price E (symbol (token0 md)) in
  let token1Price := cached_token_price E (symbol (token1 md)) in
  let price_block :=
    match event_logs with
    | log :: _ => blockNumber log
    | [] => from_block
    end in
  let price_pruning_block := price_block - 20 in
  emit (Zremrangebyscore (cached_price_key (symbol (token0 md))) price_pruning_block);;
  emit (Zremrangebyscore (cached_price_key (symbol (token1 md))) price_pruning_block);;
  recent_transaction_logs ←
    extract_recent_transaction_logs E event_name event_logs
      pair_per_token_metadata token0Price token1Price;
  if bool_decide (event_name = "Swap") then
    (* calculate trade volume in USD *)
    let trade_volume_usd : Qc :=
      match token0Price, token1Price with
      | Some p0, _ => (token0_swapped * p0)%Qc
      | None, Some p1 => (token1_swapped * p1)%Qc
      | None, None => 0%Qc
      end in
    (* calculate uniswap LP fee *)
    let trade_fee_usd : Qc :=
      match fee_usd (token0_fee acc) token0Price (decimals (token0 md)) with
      | Some fee => fee
      | None =>
          match fee_usd (token1_fee acc) token1Price (decimals (token1 md)) with
          | Some fee => fee
          | None => 0%Qc
          end
      end in
    mret {| totalTradesUSD := trade_volume_usd;
            totalFeeUSD := Some trade_fee_usd;
            token0TradeVolume := token0_swapped;
            token1TradeVolume := token1_swapped;
            token0TradeVolumeUSD :=
              match token0Price with Some p0 => (token0_swapped * p0)%Qc | None => 0%Qc end;
            token1TradeVolumeUSD :=
              match token1Price with Some p1 => (token1_swapped * p1)%Qc | None => 0%Qc end;
            recent_transaction_logs := recent_transaction_logs |}
  else
    usd0 ← match token0Price with
           | Some p0 => mret (token0_swapped * p0)%Qc
           | None =>
               emit (LogWarning "Trade Volume: can't find token0-USDT Price. Attempting to find token1-USDT price and 2x it");;
               mret 0%Qc
           end;
    usd1 ← match token1Price with
           | Some p1 => mret (token1_swapped * p1)%Qc
           | None =>
               emit (LogWarning "Trade Volume: can't find token1-USDT Price");;
               mret 0%Qc
           end;
    (* by now token0Price and token1Price are floats: zero is falsy too *)
    let falsy (p : option Qc) : bool :=
      match p with
      | Some q => bool_decide (q = 0%Qc)
      | None => true
      end in
    let trade_volume_usd : Qc :=
      if falsy token0Price || falsy token1Price
      then ((usd0 + usd1) * 2)%Qc else (usd0 + usd1)%Qc in
    mret {| totalTradesUSD := trade_volume_usd;
            totalFeeUSD := None;
            token0TradeVolume := token0_swapped;
            token1TradeVolume := token1_swapped;
            token0TradeVolumeUSD := usd0;
            token1TradeVolumeUSD := usd1;
            recent_transaction_logs := recent_transaction_logs |}.

(** *** [get_pair_contract_trades_async] *)

(** A value of the dictionary [rets]: the entry of an event name, or the
    entry of the key [timestamp]. *)
Inductive rets_value : Type :=
| EventEntry (logs : list pyval) (t : trades)
| TimestampEntry (ts : option Z).

(** [{**dict(k.args), "transactionHash": ..., "logIndex": ...,
      "blockNumber": ..., "event": ...}] *)
Definition decoded_log (k : event_log) : pyval :=
  VDict (dict_set "event" (VStr (event k))
          (dict_set "blockNumber" (VInt (blockNumber k))
            (dict_set "logIndex" (VInt (logIndex k))
              (dict_set "transactionHash" (VStr (transactionHash k))
                (args k))))).

(** The loop over [['Swap', 'Mint', 'Burn']] that fills [rets]; the
    dictionary keeps the order in which its keys were inserted. *)
Fixpoint fill_rets (E : env) (logs_ret : list (string * list event_log))
    (pair_per_token_metadata : option pair_metadata) (from_block : Z)
    : M world (list (string * rets_value)) :=
  match logs_ret with
  | [] => mret []
  | (trade_event_name, event_logs) :: rest =>
      t ← extract_trade_volume_data E trade_event_name event_logs
            pair_per_token_metadata from_block;
      rets ← fill_rets E rest pair_per_token_metadata from_block;
      mret ((trade_event_name, EventEntry (decoded_log <$> event_logs) t) :: rets)
  end.

Definition get_pair_contract_trades_async (E : env) (pair_address : string)
    (from_block to_block : Z) (fetch_timestamp : bool)
    : M world (list (string * rets_value)) :=
  try_catch
    (_ ← lift (match script_load E with Some e => Raise e | None => Ok tt end);
     (* be honest, we will make 3 eth_getLogs queries here *)
     let limit_incr_by := 3 in
     can_request ← rate_limit_gate E redis_errors false "eth_logs"
                     limit_incr_by to_block (PARSED_LIMITS E) false;
     if can_request : bool then
       block_details ←
         (if fetch_timestamp then
            match get_block E to_block with
            | Ok d => mret d
            | Raise _ =>
                emit (LogError "Error attempting to get block details of to_block");;
                mret None
            end
          else mret None);
       let pair_per_token_metadata := pair_per_token_metadata E pair_address in
       swap_event_logs ← lift (get_events_logs E "Swap" pair_address from_block to_block);
       mint_event_logs ← lift (get_events_logs E "Mint" pair_address from_block to_block);
       burn_event_logs ← lift (get_events_logs E "Burn" pair_address from_block to_block);
       let logs_ret := [("Swap", swap_event_logs);
                        ("Mint", mint_event_logs);
                        ("Burn", burn_event_logs)] in
       rets ← fill_rets E logs_ret pair_per_token_metadata from_block;
       let max_block_timestamp := block_timestamp <$> block_details in
       mret (rets ++ [("timestamp", TimestampEntry max_block_timestamp)])
     else raise exhausted_api_key_rate_limit)
    (λ exc,
       emit (LogError "error at get_pair_contract_trades_async fn");;
       raise exc).

End UniswapFunctions.

(** ** [callback_modules/pair_total_reserves.py] *)

Module PairTotalReserves.

Import UniswapFunctions.

(** [PowerloomCallbackProcessMessage] *)
Record process_message : Type := ProcessMessage {
  msg_begin : Z;
  msg_end : Z;
  msg_contract : string;
  msg_broadcast_id : string
}.

Definition msg_dict (m : process_message) : pyval :=
  VDict [("begin", VInt (msg_begin m));
         ("end", VInt (msg_end m));
         ("contract", VStr (msg_contract m));
         ("broadcast_id", VStr (msg_broadcast_id m))].

(** [EpochBase] *)
Record epoch_base : Type := EpochBase { eb_begin : Z; eb_end : Z }.

Definition epoch_dict (c : epoch_base) : pyval :=
  VDict [("begin", VInt (eb_begin c)); ("end", VInt (eb_end c))].

(** [UniswapPairTotalReservesSnapshot] *)
Record reserves_snapshot : Type := ReservesSnapshot {
  token0Reserves : gmap string Qc;
  token1Reserves : gmap string Qc;
  chainHeightRange : epoch_base;
  timestamp : Z;
  contract : string;
  broadcast_id : string
}.

(** [UniswapTradesSnapshot] *)
Record trades_snapshot : Type := TradesSnapshot {
  tv_contract : string;
  tv_broadcast_id : string;
  tv_chainHeightRange : epoch_base;
  tv_timestamp : Z;
  totalTrade : Qc;
  totalFee : Qc;
  tv_token0TradeVolume : Qc;
  tv_token1TradeVolume : Qc;
  events : list pyval
}.

Definition reserves_dict (m : gmap string Qc) : pyval :=
  VDict ((λ kv : string * Qc, (kv.1, VFloat kv.2)) <$> map_to_list m).

(** [pair_total_reserves_epoch_snapshot.dict()] *)
Definition reserves_snapshot_dict (s : reserves_snapshot) : pyval :=
  VDict [("token0Reserves", reserves_dict (token0Reserves s));
         ("token1Reserves", reserves_dict (token1Reserves s));
         ("chainHeightRange", epoch_dict (chainHeightRange s));
         ("timestamp", VInt (timestamp s));
         ("contract", VStr (contract s));
         ("broadcast_id", VStr (broadcast_id s))].

(** [trade_vol_epoch_snapshot.dict()] *)
Definition trades_snapshot_dict (s : trades_snapshot) : pyval :=
  VDict [("contract", VStr (tv_contract s));
         ("broadcast_id", VStr (tv_broadcast_id s));
         ("chainHeightRange", epoch_dict (tv_chainHeightRange s));
         ("timestamp", VInt (tv_timestamp s));
         ("totalTrade", VFloat (totalTrade s));
         ("totalFee", VFloat (totalFee s));
         ("token0TradeVolume", VFloat (tv_token0TradeVolume s));
         ("token1TradeVolume", VFloat (tv_token1TradeVolume s));
         ("events", VList (events s))].

(** What the worker reads besides the chain and Redis. *)
Record worker_env : Type := WorkerEnv {
  chain : env;
  (** [self._unique_id] *)
  unique_id : string;
  (** [PowerloomCallbackProcessMessage.parse_raw] *)
  parse_raw : string → result process_message;
  (** [AuditProtocolCommandsHelper.set_diff_rule_for_...]: [Some e] when
      the call raises *)
  set_diff_rule : string → string → option exn;
  (** [AuditProtocolCommandsHelper.commit_payload] *)
  commit_payload : string → string → pyval → result pyval
}.

(** Redis keys, as the store lays them out. *)
Definition uniswap_failed_pair_total_reserves_epochs_redis_q_f
    (pair : string) : string :=
  "uniswap:failed_pair_total_reserves_epochs:" +:+ pair.
Definition uniswap_cb_broadcast_processing_logs_zset (id : string) : string :=
  "uniswap:cb:broadcastProcessingLogs:" +:+ id.

Definition timestamp_error_reserves : string :=
  "Could not fetch timestamp for max block height in broadcast against pair reserves calculation".
Definition timestamp_error_trades : string :=
  "Could not fetch timestamp for max block height in broadcast against trade volume calculation".

(** The local variables of [_construct_pair_reserves_epoch_snapshot_data]
    that its loop updates. *)
Record fetch_state : Type := FetchState {
  epoch_reserves_snapshot_map_token0 : gmap string Qc;
  epoch_reserves_snapshot_map_token1 : gmap string Qc;
  max_block_timestamp : Z;
  enqueue_epoch : bool
}.

(** [f'block{block_num}'] *)
Definition block_key (block_num : Z) : string := "block" +:+ pretty block_num.

(** [await self._redis_conn.rpush(key, member)]: nothing around the call
    catches what it raises. *)
Definition redis_rpush (E : env) (key : string) (member : pyval)
    : M world unit :=
  emit (Rpush key member);;
  match rpush E key member with
  | Some e => raise e
  | None => mret tt
  end.

(** The loop [for block_num in range(min_chain_height, max_chain_height+1)]
    over the blocks that remain.  The call in the source gives [loop],
    [pair_address], [block_identifier] and [fetch_timestamp] by keyword and
    no [redis_conn], which the function requires; the bare [except] that
    surrounds the call catches the TypeError. *)
Fixpoint fetch_loop (E : env) (msg_obj : process_message)
    (blocks : list Z) (st : fetch_state) : M world fetch_state :=
  match blocks with
  | [] => mret st
  | block_num :: rest =>
      let fetch_ts := bool_decide (block_num = msg_end msg_obj) in
      r ← attempt
            (call_with_keywords
               get_liquidity_of_each_token_reserve_async_required
               ["loop"; "pair_address"; "block_identifier"; "fetch_timestamp"]
               (get_liquidity_of_each_token_reserve_async E
                  (msg_contract msg_obj) block_num fetch_ts));
      match r with
      | Raise _ =>
          (* if querying fails, we are going to ensure it is recorded for
             future processing *)
          mret {| epoch_reserves_snapshot_map_token0 := epoch_reserves_snapshot_map_token0 st;
                  epoch_reserves_snapshot_map_token1 := epoch_reserves_snapshot_map_token1 st;
                  max_block_timestamp := max_block_timestamp st;
                  enqueue_epoch := true |}
      | Ok pair_reserve_total =>
          let m0 := <[block_key block_num := rt_token0 pair_reserve_total]>
                      (epoch_reserves_snapshot_map_token0 st) in
          let m1 := <[block_key block_num := rt_token1 pair_reserve_total]>
                      (epoch_reserves_snapshot_map_token1 st) in
          ts ← (if fetch_ts then
                  if truthy_int (rt_timestamp pair_reserve_total) then
                    mret (default 0 (rt_timestamp pair_reserve_total))
                  else
                    emit (LogError timestamp_error_reserves);;
                    mret (max_block_timestamp st)
                else mret (max_block_timestamp st));
          fetch_loop E msg_obj rest
            {| epoch_reserves_snapshot_map_token0 := m0;
               epoch_reserves_snapshot_map_token1 := m1;
               max_block_timestamp := ts;
               enqueue_epoch := enqueue_epoch st |}
      end
  end.

Definition _construct_pair_reserves_epoch_snapshot_data (E : env)
    (msg_obj : process_message) (enqueue_on_failure : bool)
    : M world (option reserves_snapshot) :=
  let max_chain_height := msg_end msg_obj in
  let min_chain_height := msg_begin msg_obj in
  (* fallback value, will be set within fetch loop later *)
  now ← time_time E;
  st ← fetch_loop E msg_obj (block_range min_chain_height max_chain_height)
         {| epoch_reserves_snapshot_map_token0 := ∅;
            epoch_reserves_snapshot_map_token1 := ∅;
            max_block_timestamp := now;
            enqueue_epoch := false |};
  if enqueue_epoch st then
    (if enqueue_on_failure then
       redis_rpush E (uniswap_failed_pair_total_reserves_epochs_redis_q_f
                        (msg_contract msg_obj)) (msg_dict msg_obj);;
       emit (LogDebug "Enqueued epoch broadcast ID because reserve query failed")
     else mret tt);;
    mret None
  else
    mret (Some {| token0Reserves := epoch_reserves_snapshot_map_token0 st;
                  token1Reserves := epoch_reserves_snapshot_map_token1 st;
                  chainHeightRange := EpochBase min_chain_height max_chain_height;
                  timestamp := max_block_timestamp st;
                  contract := msg_contract msg_obj;
                  broadcast_id := msg_broadcast_id msg_obj |}).

(** The running totals of [_construct_trade_volume_epoch_snapshot_data]. *)
Record totals : Type := Totals {
  total_trades_in_usd : Qc;
  total_fee_in_usd : Qc;
  total_token0_vol : Qc;
  total_token1_vol : Qc;
  final_events_list : list pyval
}.

(** [for each_event in trade_vol_processed_snapshot], in the order of the
    keys of the dictionary. *)
Fixpoint sum_events (snapshot : list (string * rets_value)) (acc : totals)
    : result totals :=
  match snapshot with
  | [] => Ok acc
  | (each_event, v) :: rest =>
      if bool_decide (each_event = "timestamp") then sum_events rest acc
      else
        match v with
        | EventEntry logs t =>
            sum_events rest
              {| total_trades_in_usd := (total_trades_in_usd acc + totalTradesUSD t)%Qc;
                 total_fee_in_usd :=
                   (total_fee_in_usd acc + default 0%Qc (totalFeeUSD t))%Qc;
                 total_token0_vol := (total_token0_vol acc + token0TradeVolume t)%Qc;
                 total_token1_vol := (total_token1_vol acc + token1TradeVolume t)%Qc;
                 final_events_list := final_events_list acc ++ logs |}
        | TimestampEntry _ => Raise TypeError
        end
  end.

(** [trade_vol_processed_snapshot['timestamp']] *)
Fixpoint snapshot_timestamp (snapshot : list (string * rets_value))
    : result (option Z) :=
  match snapshot with
  | [] => Raise KeyError
  | (k, v) :: rest =>
      if bool_decide (k = "timestamp") then
        match v with
        | TimestampEntry ts => Ok ts
        | EventEntry _ _ => Raise ValidationError
        end
      else snapshot_timestamp rest
  end.

Definition _construct_trade_volume_epoch_snapshot_data (E : env)
    (msg_obj : process_message) (enqueue_on_failure : bool)
    : M world (option trades_snapshot) :=
  (* fallback value, will be set within fetch loop later *)
  now ← time_time E;
  r ← attempt (get_pair_contract_trades_async E (msg_contract msg_obj)
                 (msg_begin msg_obj) (msg_end msg_obj) true);
  match r with
  | Raise _ =>
      (if enqueue_on_failure then
         redis_rpush E (uniswap_failed_pair_total_reserves_epochs_redis_q_f
                          (msg_contract msg_obj)) (msg_dict msg_obj);;
         emit (LogDebug "Enqueued epoch broadcast ID because trade volume query failed")
       else mret tt);;
      mret None
  | Ok trade_vol_processed_snapshot =>
      emit (LogDebug "Trade volume processed snapshot: %s");;
      t ← lift (sum_events trade_vol_processed_snapshot
                  (Totals 0%Qc 0%Qc 0%Qc 0%Qc []));
      ts ← lift (snapshot_timestamp trade_vol_processed_snapshot);
      max_block_timestamp ←
        (if truthy_int ts then mret (default 0 ts)
         else emit (LogError timestamp_error_trades);; mret now);
      mret (Some {| tv_contract := msg_contract msg_obj;
                    tv_broadcast_id := msg_broadcast_id msg_obj;
                    tv_chainHeightRange :=
                      EpochBase (msg_begin msg_obj) (msg_end msg_obj);
                    tv_timestamp := max_block_timestamp;
                    totalTrade := round6 (total_trades_in_usd t);
                    totalFee := round6 (total_fee_in_usd t);
                    tv_token0TradeVolume := round6 (total_token0_vol t);
                    tv_token1TradeVolume := round6 (total_token1_vol t);
                    events := final_events_list t |})
  end.

(** *** [_on_rabbitmq_message] *)

(** [update_log], and the [zadd] of its JSON text onto the processing log
    of the broadcast.  The arguments of [zadd] are evaluated in order: the
    score reads the clock before [json.dumps] runs. *)
Definition log_update (W : worker_env) (msg_obj : process_message)
    (action : string) (info : list (string * pyval)) : M world unit :=
  let update_log :=
    VDict [("worker", VStr (unique_id W));
           ("update", VDict [("action", VStr action); ("info", VDict info)])] in
  score ← time_time (chain W);
  member ← lift (json_dumps update_log);
  emit (Zadd (uniswap_cb_broadcast_processing_logs_zset (msg_broadcast_id msg_obj))
             score member).

(** [type(r) is dict and 'message' in r.keys()] *)
Definition has_message (r : pyval) : bool :=
  match r with
  | VDict d => bool_decide (is_Some (dict_get "message" d))
  | _ => false
  end.

(** The [try] around [commit_payload] with its [except] and [else]
    clauses; [contract_arg] evaluates the argument
    [pair_contract_address]. *)
Definition commit_and_log (W : worker_env) (msg_obj : process_message)
    (action stream : string) (contract_arg : result string) (payload : pyval)
    : M world unit :=
  r ← attempt (pair_contract_address ← lift contract_arg;
               emit (CommitPayload pair_contract_address stream payload);;
               lift (commit_payload W pair_contract_address stream payload));
  match r with
  | Raise e =>
      emit (LogError "Exception committing snapshot to audit protocol");;
      log_update W msg_obj action
        [("msg", payload); ("status", VStr "Failed"); ("exception", VExc e)]
  | Ok r =>
      if has_message r then
        emit (LogError "Error committing snapshot to audit protocol");;
        log_update W msg_obj action
          [("msg", payload); ("status", VStr "Failed"); ("error", r)]
      else
        emit (LogDebug "Sent snapshot to audit protocol");;
        log_update W msg_obj action
          [("msg", payload); ("status", VStr "Success"); ("response", r)]
  end.

Definition call_set_diff_rule (W : worker_env) (contract stream : string)
    : M world unit :=
  emit (SetDiffRule contract stream);;
  match set_diff_rule W contract stream with
  | Some e => raise e
  | None => mret tt
  end.

(** [x.contract] for [x] that may be [None]. *)
Definition contract_of (s : option reserves_snapshot) : result string :=
  match s with
  | Some s => Ok (contract s)
  | None => Raise AttributeError
  end.

Definition _on_rabbitmq_message (W : worker_env) (body : string)
    : M world unit :=
  emit Ack;;
  match parse_raw W body with
  | Raise ValidationError =>
      emit (LogError "Bad message structure of callback in processor for total pair reserves")
  | Raise _ =>
      emit (LogError "Unexpected message structure of callback in processor for total pair reserves")
  | Ok msg_obj =>
      emit (LogDebug "Got epoch to process for calculating total reserves for pair");;
      emit (LogDebug "Got aiohttp session cache. Attempting to snapshot total reserves data in epoch");;
      pair_total_reserves_epoch_snapshot ←
        _construct_pair_reserves_epoch_snapshot_data (chain W) msg_obj true;
      match pair_total_reserves_epoch_snapshot with
      | None =>
          emit (LogError "No epoch snapshot to commit. Construction of snapshot failed");;
          log_update W msg_obj "PairReserves.SnapshotBuild"
            [("msg", msg_dict msg_obj); ("status", VStr "Failed")]
      | Some snapshot =>
          log_update W msg_obj "PairReserves.SnapshotBuild"
            [("msg", msg_dict msg_obj); ("status", VStr "Success");
             ("snapshot", reserves_snapshot_dict snapshot)];;
          call_set_diff_rule W (contract snapshot) "pair_total_reserves";;
          commit_and_log W msg_obj "PairReserves.SnapshotCommit"
            "pair_total_reserves" (Ok (contract snapshot))
            (reserves_snapshot_dict snapshot)
      end;;
      (* prepare trade volume snapshot *)
      trade_vol_epoch_snapshot ←
        _construct_trade_volume_epoch_snapshot_data (chain W) msg_obj true;
      match trade_vol_epoch_snapshot with
      | None =>
          emit (LogError "No epoch snapshot to commit for trade volume. Construction of snapshot failed");;
          log_update W msg_obj "TradeVolume.SnapshotBuild"
            [("msg", msg_dict msg_obj); ("status", VStr "Failed")]
      | Some snapshot =>
          log_update W msg_obj "TradeVolume.SnapshotBuild"
            [("msg", msg_dict msg_obj); ("status", VStr "Success");
             ("snapshot", trades_snapshot_dict snapshot)];;
          call_set_diff_rule W (msg_contract msg_obj) "trade_volume";;
          commit_and_log W msg_obj "TradeVolume.SnapshotCommit" "trade_volume"
            (contract_of pair_total_reserves_epoch_snapshot)
            (trades_snapshot_dict snapshot)
      end
  end.

End PairTotalReserves.

(** ** [pooler/callback_modules/uniswap/pricing.py] *)

Module Pricing.

Import UniswapFunctions.

(** Effects of the pricing engine: the division of one scaled reserve by
    the other at a block, and logging. *)
Inductive price_effect : Type :=
| Divide (block_num : Z) (numerator denominator : Qc)
| Trace (msg : string)
| Debug (msg : string).

(** A member of the price cache stands for the JSON text
    [{"blockHeight": height, "price": price}]. *)
Definition member : Type := Z * Qc.

(** The state of the pricing engine: the sorted sets of Redis, each a list
    of (score, member) without repeated members and in the order of the
    scores, and the effects performed so far. *)
Record price_world : Type := PriceWorld {
  zsets : gmap string (list (Z * member));
  price_trace : list price_effect
}.

Definition price_emit (e : price_effect) : M price_world unit :=
  modify (λ w, PriceWorld (zsets w) (price_trace w ++ [e])).

(** What the pricing engine reads from the settings and from the chain. *)
Record price_env : Type := PriceEnv {
  (** [Web3.toChecksumAddress] *)
  toChecksumAddress : string → string;
  (** [worker_settings.contract_addresses.WETH] *)
  WETH : string;
  (** [worker_settings.contract_addresses.iuniswap_v2_router] *)
  iuniswap_v2_router : string;
  (** [worker_settings.uniswap_v2_whitelist] *)
  uniswap_v2_whitelist : list string;
  (** [helpers.get_pair] *)
  get_pair : string → string → result string;
  (** [helpers.get_pair_metadata] *)
  get_pair_metadata : string → result pair_metadata;
  (** [rpc_helper.batch_eth_call_on_block_range] for [getReserves]: one
      triple (reserve0, reserve1, blockTimestampLast) per block *)
  batch_getReserves : string → Z → Z → result (list (Z * Z * Z));
  (** the same for [getAmountsOut]: per block, the decoded outputs, the
      first of which is the array of amounts *)
  batch_getAmountsOut : Z → list string → Z → Z → result (list (list (list Z)));
  (** [snapshot_utils.get_eth_price_usd] *)
  get_eth_price_usd : Z → Z → result (gmap Z Qc)
}.

(** [tokens_decimals['WETH']] *)
Definition tokens_decimals_WETH : N := 18.

Definition zero_address : string := "0x0000000000000000000000000000000000000000".

(** [uniswap_pair_cached_block_height_token_price.format(address)] *)
Definition uniswap_pair_cached_block_height_token_price (addr : string) : string :=
  "uniswap:pairContract:" +:+ addr +:+ ":cachedPairBlockHeightTokenPrice".

(** *** The sorted set *)

Definition member_eqb (a b : member) : bool :=
  bool_decide (a.1 = b.1) && bool_decide (a.2 = b.2).

(** Insert after the entries whose score is not larger. *)
Fixpoint zinsert (score : Z) (m : member) (zs : list (Z * member))
    : list (Z * member) :=
  match zs with
  | [] => [(score, m)]
  | (s, m') :: rest =>
      if s <=? score then (s, m') :: zinsert score m rest
      else (score, m) :: (s, m') :: rest
  end.

(** [zadd] of one member: a member that is there already only has its
    score set. *)
Definition zadd_one (score : Z) (m : member) (zs : list (Z * member))
    : list (Z * member) :=
  zinsert score m (filter (λ x, negb (member_eqb x.2 m) = true) zs).

(** [redis_conn.zadd(name, mapping)] *)
Definition zadd (name : string) (mapping : list (member * Z))
    : M price_world unit :=
  modify (λ w,
    PriceWorld
      (<[name := foldl (λ zs x, zadd_one x.2 x.1 zs)
                   (default [] (zsets w !! name)) mapping]> (zsets w))
      (price_trace w)).

(** [redis_conn.zrangebyscore(name, min, max)]: the members whose score is
    in the range, by score.  Redis orders members of one score by their
    bytes; here they come in the order of their insertion. *)
Definition zrangebyscore (name : string) (min max : Z)
    : M price_world (list member) :=
  gets (λ w,
    snd <$> filter (λ x, min ≤ x.1 ∧ x.1 ≤ max) (default [] (zsets w !! name))).

(** *** [get_token_pair_price_and_white_token_reserves] *)

(** [x / y] for two scaled reserves, noted in the trace. *)
Definition divide (block_num : Z) (x y : Qc) : M price_world Qc :=
  price_emit (Divide block_num x y);;
  lift (truediv x y).

(** The loop [for block_num in range(from_block, to_block + 1)], with
    [index] running along [pair_reserves_list]. *)
Fixpoint reserves_loop (E : price_env) (pair_metadata : pair_metadata)
    (white_token : string) (pair_reserves_list : list (Z * Z * Z))
    (blocks : list Z) (index : nat)
    (token_price_dict white_token_reserves_dict : gmap Z Qc)
    : M price_world (gmap Z Qc * gmap Z Qc) :=
  match blocks with
  | [] => mret (token_price_dict, white_token_reserves_dict)
  | block_num :: rest =>
      r ← lift (match pair_reserves_list !! index with
                | Some r => Ok r
                | None => Raise IndexError
                end);
      let pair_reserve_token0 :=
        scale_by_decimals r.1.1 (decimals (token0 pair_metadata)) in
      let pair_reserve_token1 :=
        scale_by_decimals r.1.2 (decimals (token1 pair_metadata)) in
      '(price, reserve) ←
        (if bool_decide (pair_reserve_token0 = 0%Qc)
            || bool_decide (pair_reserve_token1 = 0%Qc) then
           mret (0%Qc, 0%Qc)
         else if bool_decide (toChecksumAddress E (address (token0 pair_metadata))
                              = white_token) then
           p ← divide block_num pair_reserve_token0 pair_reserve_token1;
           mret (p, pair_reserve_token0)
         else
           p ← divide block_num pair_reserve_token1 pair_reserve_token0;
           mret (p, pair_reserve_token1));
      reserves_loop E pair_metadata white_token pair_reserves_list rest (S index)
        (<[block_num := price]> token_price_dict)
        (<[block_num := reserve]> white_token_reserves_dict)
  end.

Definition get_token_pair_price_and_white_token_reserves (E : price_env)
    (pair_address : string) (from_block to_block : Z)
    (pair_metadata : pair_metadata) (white_token : string)
    : M price_world (gmap Z Qc * gmap Z Qc) :=
  pair_reserves_list ← lift (batch_getReserves E pair_address from_block to_block);
  if bool_decide (Z.of_nat (length pair_reserves_list) < to_block - (from_block - 1))
  then
    price_emit (Trace "Unable to get pair price and white token reserves");;
    raise (Exception "Unable to get pair price and white token reserves")
  else
    reserves_loop E pair_metadata white_token pair_reserves_list
      (block_range from_block to_block) 0 ∅ ∅.

(** *** [get_token_derived_eth] *)

(** [_, derivedEth = outputs[0]] *)
Definition unpack_second (outputs : list (list Z)) : result Z :=
  match outputs with
  | [] => Raise IndexError
  | amounts :: _ =>
      match amounts with
      | [_; derivedEth] => Ok derivedEth
      | _ => Raise ValueError
      end
  end.

Fixpoint derived_eth_loop (token_derived_eth_list : list (list (list Z)))
    (blocks : list Z) (index : nat) (token_derived_eth_dict : gmap Z Qc)
    : result (gmap Z Qc) :=
  match blocks with
  | [] => Ok token_derived_eth_dict
  | block_num :: rest =>
      outputs ← match token_derived_eth_list !! index with
                | Some o => Ok o
                | None => Raise IndexError
                end;
      (* _, derivedEth = token_derived_eth_list[index][0] *)
      derivedEth ← unpack_second outputs;
      derived_eth_loop token_derived_eth_list rest (S index)
        (<[block_num :=
             if bool_decide (derivedEth = 0) then 0%Qc
             else scale_by_decimals derivedEth tokens_decimals_WETH]>
           token_derived_eth_dict)
  end.

Definition get_token_derived_eth (E : price_env) (from_block to_block : Z)
    (white_token_metadata : token_metadata) : M price_world (gmap Z Qc) :=
  if bool_decide (toChecksumAddress E (address white_token_metadata)
                  = toChecksumAddress E (WETH E)) then
    (* set derived eth as 1 if token is weth *)
    mret (foldl (λ d block_num, <[block_num := 1%Qc]> d) ∅
            (block_range from_block to_block))
  else
    token_derived_eth_list ← lift (
      batch_getAmountsOut E (10 ^ Z.of_N (decimals white_token_metadata))
        [toChecksumAddress E (address white_token_metadata);
         toChecksumAddress E (WETH E)]
        from_block to_block);
    if bool_decide (Z.of_nat (length token_derived_eth_list)
                    < to_block - (from_block - 1))
    then
      price_emit (Trace "Unable to get token derived eth");;
      raise (Exception "Unable to get token derived eth")
    else
      lift (derived_eth_loop token_derived_eth_list
              (block_range from_block to_block) 0 ∅).

(** *** [get_token_price_in_block_range] *)

(** [d.get(k)] as an operand of a multiplication *)
Definition operand (d : gmap Z Qc) (k : Z) : result Qc :=
  match d !! k with
  | Some x => Ok x
  | None => Raise TypeError
  end.

(** The loop over the blocks that compares the reserve of the whitelist
    token, in ETH, with the threshold.  The result is the flag
    [less_than_minimum_liquidity] and [token_eth_price_dict]. *)
Fixpoint liquidity_scan (blocks : list Z)
    (white_token_price_dict white_token_reserves_dict
       white_token_derived_eth_dict : gmap Z Qc)
    (token_eth_price_dict : gmap Z Qc) : result (bool * gmap Z Qc) :=
  match blocks with
  | [] => Ok (false, token_eth_price_dict)
  | block_num :: rest =>
      r ← operand white_token_reserves_dict block_num;
      d ← operand white_token_derived_eth_dict block_num;
      let white_token_reserves := (r * d)%Qc in
      (* ignore if reservers are less than threshold *)
      if bool_decide (white_token_reserves < 1)%Qc then
        Ok (true, token_eth_price_dict)
      else
        (* else store eth price in dictionary *)
        p ← operand white_token_price_dict block_num;
        d ← operand white_token_derived_eth_dict block_num;
        liquidity_scan rest white_token_price_dict white_token_reserves_dict
          white_token_derived_eth_dict
          (<[block_num := (p * d)%Qc]> token_eth_price_dict)
  end.

(** What is fetched for one whitelist token: nothing when the factory has
    no pair for it, and otherwise the three series of the pair. *)
Definition white_token_series (E : price_env) (token_metadata : token_metadata)
    (from_block to_block : Z) (white_token : string)
    : M price_world (option (gmap Z Qc * gmap Z Qc * gmap Z Qc)) :=
  pairAddress ← lift (get_pair E white_token (address token_metadata));
  if bool_decide (pairAddress ≠ zero_address) then
    new_pair_metadata ← lift (get_pair_metadata E pairAddress);
    let white_token_metadata :=
      if bool_decide (white_token = address (token0 new_pair_metadata))
      then token0 new_pair_metadata else token1 new_pair_metadata in
    pr ← get_token_pair_price_and_white_token_reserves E pairAddress
           from_block to_block new_pair_metadata white_token;
    white_token_derived_eth_dict ←
      get_token_derived_eth E from_block to_block white_token_metadata;
    mret (Some (pr.1, pr.2, white_token_derived_eth_dict))
  else mret None.

(** The loop [for white_token in worker_settings.uniswap_v2_whitelist] over
    the tokens that remain, [token_eth_price_dict] being what has been
    stored so far. *)
Fixpoint whitelist_cascade (E : price_env) (token_metadata : token_metadata)
    (from_block to_block : Z) (whitelist : list string)
    (token_eth_price_dict : gmap Z Qc) : M price_world (gmap Z Qc) :=
  match whitelist with
  | [] => mret token_eth_price_dict
  | white_token :: rest =>
      let white_token := toChecksumAddress E white_token in
      series ← white_token_series E token_metadata from_block to_block white_token;
      match series with
      | None =>
          whitelist_cascade E token_metadata from_block to_block rest
            token_eth_price_dict
      | Some (white_token_price_dict, white_token_reserves_dict,
              white_token_derived_eth_dict) =>
          scan ← lift (liquidity_scan (block_range from_block to_block)
                         white_token_price_dict white_token_reserves_dict
                         white_token_derived_eth_dict token_eth_price_dict);
          if scan.1 : bool then
            (* if reserves are less than threshold then try next whitelist
               token pair *)
            whitelist_cascade E token_metadata from_block to_block rest ∅
          else mret scan.2
      end
  end.

(** [{json.loads(price)['blockHeight']: json.loads(price)['price']
      for price in cached_price_dict}] *)
Definition price_dict_of (cached_price_dict : list member) : gmap Z Qc :=
  foldl (λ d price, <[price.1 := price.2]> d) ∅ cached_price_dict.

(** [get_token_price_in_block_range] for integer block bounds (the value
    ['latest'] is not modelled). *)
Definition get_token_price_in_block_range (E : price_env)
    (token_metadata : token_metadata) (from_block to_block : Z)
    (debug_log : bool) : M price_world (gmap Z Qc) :=
  let key := uniswap_pair_cached_block_height_token_price
               (toChecksumAddress E (address token_metadata)) in
  try_catch
    ((* check if cahce exist for given epoch *)
     cached_price_dict ← zrangebyscore key from_block to_block;
     if negb (bool_decide (cached_price_dict = []))
        && bool_decide (Z.of_nat (length cached_price_dict)
                        = to_block - (from_block - 1))
     then mret (price_dict_of cached_price_dict)
     else
       token_price_dict ←
         (if bool_decide (toChecksumAddress E (address token_metadata)
                          = toChecksumAddress E (WETH E)) then
            lift (get_eth_price_usd E from_block to_block)
          else
            token_eth_price_dict ←
              whitelist_cascade E token_metadata from_block to_block
                (uniswap_v2_whitelist E) ∅;
            token_price_dict ←
              (if bool_decide (0 < size token_eth_price_dict)%nat then
                 eth_usd_price_dict ← lift (get_eth_price_usd E from_block to_block);
                 mret (foldl (λ d block_num,
                          <[block_num :=
                              (default 0%Qc (token_eth_price_dict !! block_num)
                               * default 0%Qc (eth_usd_price_dict !! block_num))%Qc]> d)
                        ∅ (block_range from_block to_block))
               else
                 mret (foldl (λ d block_num, <[block_num := 0%Qc]> d) ∅
                         (block_range from_block to_block)));
            (if debug_log then price_emit (Debug "price is | its eth price is")
             else mret tt);;
            mret token_price_dict);
       (* cache price at height *)
       (if bool_decide (0 < size token_price_dict)%nat then
          zadd key ((λ hp : Z * Qc, ((hp.1, hp.2), hp.1)) <$> map_to_list token_price_dict)
        else mret tt);;
       mret token_price_dict)
    (λ err,
       price_emit (Trace "Error while calculating price of token");;
       raise err).

End Pricing.

(** ** callback_modules/pair_total_reserves.py: the distributor *)

Module Distributor.

Import UniswapFunctions PairTotalReserves.

(** Strings are taken to be ASCII: on such strings the three operations
    below are those of Python's [str]. *)

(** [sub in s] *)
Fixpoint contains (sub s : string) : bool :=
  match s with
  | EmptyString => String.prefix sub s
  | String _ s' => String.prefix sub s || contains sub s'
  end.

(** [s.split(sep)] for a separator of one character. *)
Fixpoint split (sep : ascii) (s : string) : list string :=
  match s with
  | EmptyString => [EmptyString]
  | String c s' =>
      if bool_decide (c = sep) then EmptyString :: split sep s'
      else match split sep s' with
           | piece :: pieces => String c piece :: pieces
           | [] => [String c EmptyString]
           end
  end.

(** [l[i]] *)
Definition item {A} (l : list A) (i : nat) : result A :=
  match l !! i with
  | Some x => Ok x
  | None => Raise IndexError
  end.

Definition lower_char (c : ascii) : ascii :=
  let n := N_of_ascii c in
  if (65 <=? n)%N && (n <=? 90)%N then ascii_of_N (n + 32) else c.

(** [s.lower()] *)
Fixpoint lower (s : string) : string :=
  match s with
  | EmptyString => EmptyString
  | String c s' => String (lower_char c) (lower s')
  end.

(** [PowerloomCallbackEpoch] *)
Record callback_epoch : Type := CallbackEpoch {
  epoch_begin : Z;
  epoch_end : Z;
  contracts : list string;
  epoch_broadcast_id : string
}.

Definition callback_epoch_dict (m : callback_epoch) : pyval :=
  VDict [("begin", VInt (epoch_begin m));
         ("end", VInt (epoch_end m));
         ("contracts", VList (VStr <$> contracts m));
         ("broadcast_id", VStr (epoch_broadcast_id m))].

(** Effects of the distributor process. *)
Inductive action : Type :=
| BasicAck (delivery_tag : Z)
| Debug (msg : string)
| Error (msg : string)
| BasicPublish (exchange routing_key : string) (body : pyval)
| ZaddLog (key : string) (member : pyval) (score : Z).

Record state : Type := State {
  actions : list action;
  clock_readings : nat
}.

Definition act (a : action) : M state unit :=
  modify (λ s, State (actions s ++ [a]) (clock_readings s)).

Record distributor_env : Type := DistributorEnv {
  clock : nat → Z;
  (** [self._unique_id] *)
  distributor_id : string;
  (** [settings.RABBITMQ.SETUP.CALLBACKS.EXCHANGE] *)
  callbacks_exchange : string;
  (** [settings.NAMESPACE] *)
  namespace : string;
  (** [PowerloomCallbackEpoch.parse_raw] *)
  parse_epoch : string → result callback_epoch
}.

Definition now (D : distributor_env) : M state Z :=
  λ s, (Ok (clock D (clock_readings s)),
        State (actions s) (S (clock_readings s))).

(** [f'{settings.RABBITMQ.SETUP.CALLBACKS.EXCHANGE}.subtopics:{settings.NAMESPACE}'] *)
Definition exchange_of (D : distributor_env) : string :=
  callbacks_exchange D +:+ ".subtopics:" +:+ namespace D.

(** [f'powerloom-backend-callback:{settings.NAMESPACE}.pair_total_reserves_worker.processor'] *)
Definition worker_routing_key (D : distributor_env) : string :=
  "powerloom-backend-callback:" +:+ namespace D
  +:+ ".pair_total_reserves_worker.processor".

(** ['pair_total_reserves' not in method.routing_key or
     method.routing_key.split('.')[1] != 'pair_total_reserves'] *)
Definition not_for_distributor (routing_key : string) : result bool :=
  if negb (contains "pair_total_reserves" routing_key) then Ok true
  else
    second ← item (split "." routing_key) 1;
    Ok (negb (bool_decide (second = "pair_total_reserves"))).

(** The loop [for contract in msg_obj.contracts]. *)
Fixpoint publish_units (D : distributor_env) (msg_obj : callback_epoch)
    (cs : list string) : M state unit :=
  match cs with
  | [] => mret tt
  | contract :: rest =>
      let contract := lower contract in
      let pair_total_reserves_process_unit :=
        {| msg_begin := epoch_begin msg_obj;
           msg_end := epoch_end msg_obj;
           msg_contract := contract;
           msg_broadcast_id := epoch_broadcast_id msg_obj |} in
      act (BasicPublish (exchange_of D) (worker_routing_key D)
             (msg_dict pair_total_reserves_process_unit));;
      act (Debug "Sent out epoch to be processed by worker to calculate total reserves for pair contract");;
      publish_units D msg_obj rest
  end.

(** [_distribute_callbacks].  In the dictionary literal handed to [zadd]
    the key, [json.dumps(update_log)], is evaluated before the value,
    [int(time.time())]. *)
Definition _distribute_callbacks (D : distributor_env) (routing_key : string)
    (delivery_tag : Z) (body : string) : M state unit :=
  act (BasicAck delivery_tag);;
  (* following check avoids processing messages meant for routing keys for
     sub workers *)
  skip ← lift (not_for_distributor routing_key);
  if skip : bool then mret tt
  else
    act (Debug "Got processed epoch to distribute among processors for total reserves of a pair");;
    match parse_epoch D body with
    | Raise ValidationError =>
        act (Error "Bad message structure of epoch callback")
    | Raise _ =>
        act (Error "Unexpected message format of epoch callback")
    | Ok msg_obj =>
        publish_units D msg_obj (contracts msg_obj);;
        let update_log :=
          VDict [("worker", VStr (distributor_id D));
                 ("update",
                  VDict [("action", VStr "RabbitMQ.Publish");
                         ("info",
                          VDict [("routing_key", VStr (worker_routing_key D));
                                 ("exchange", VStr (exchange_of D));
                                 ("msg", callback_epoch_dict msg_obj)])])] in
        member ← lift (json_dumps update_log);
        score ← now D;
        act (ZaddLog (uniswap_cb_broadcast_processing_logs_zset
                        (epoch_broadcast_id msg_obj)) member score)
    end.

End Distributor.


(** ** Concrete scenarios

    Environments and messages on which the definitions above are run. *)

Module Scenario.

Import UniswapFunctions PairTotalReserves.

Definition q (n : Z) : Qc := float_of_int n.

Definition metadata : pair_metadata :=
  {| token0 := TokenMetadata "0xT0" "Token Zero" "TK0" 18;
     token1 := TokenMetadata "0xT1" "Token One" "TK1" 6 |}.

(** One Swap at block 105: 10^18 of token0 in, 2000·10^6 of token1 out. *)
Definition swap_105 : event_log :=
  {| args := [("sender", VStr "0xS"); ("amount0In", VInt (10 ^ 18));
              ("amount1In", VInt 0); ("amount0Out", VInt 0);
              ("amount1Out", VInt (2000 * 10 ^ 6)); ("to", VStr "0xR")];
     transactionHash := "0xaa"; logIndex := 3; blockNumber := 105;
     event := "Swap" |}.

(** A Mint at block 101, before the Swap. *)
Definition mint_101 : event_log :=
  {| args := [("sender", VStr "0xS"); ("amount0", VInt (10 ^ 18));
              ("amount1", VInt (10 ^ 6))];
     transactionHash := "0xbb"; logIndex := 0; blockNumber := 101;
     event := "Mint" |}.

(** Every limit admits; reserves are (1000·10^18, 2000·10^6) at every
    block; token0 is priced at 2 USD and token1 at 1 USD. *)
Definition happy (swaps mints burns : list event_log) : env :=
  {| wall_clock := λ n, 1700000000 + Z.of_nat n;
     PARSED_LIMITS := ["30/second"];
     script_load := None;
     limiter_hit := λ _ _ _ _, HitTrue;
     get_block := λ n, Ok (Some (BlockDetails (1600000000 + n)));
     pair_per_token_metadata := λ _, Some metadata;
     getReserves := λ _ _, Ok (1000 * 10 ^ 18, 2000 * 10 ^ 6);
     cached_token_price := λ sym,
       if decide (sym = "TK0") then Some (q 2)
       else if decide (sym = "TK1") then Some (q 1) else None;
     get_events_logs := λ name _ _ _,
       if decide (name = "Swap") then Ok swaps
       else if decide (name = "Mint") then Ok mints
       else Ok burns;
     rpush := λ _ _, None |}.

(** As [happy], but every check of the limiter hits a Redis that is down. *)
Definition redis_down : env :=
  {| wall_clock := wall_clock (happy [] [] []);
     PARSED_LIMITS := ["30/second"; "1000/hour"];
     script_load := None;
     limiter_hit := λ _ _ _ _, HitRaises RedisConnectionError;
     get_block := get_block (happy [] [] []);
     pair_per_token_metadata := pair_per_token_metadata (happy [] [] []);
     getReserves := getReserves (happy [] [] []);
     cached_token_price := cached_token_price (happy [] [] []);
     get_events_logs := get_events_logs (happy [] [] []);
     rpush := rpush (happy [] [] []) |}.

(** As [happy], but the block header cannot be fetched. *)
Definition no_block_header : env :=
  {| wall_clock := wall_clock (happy [] [] []);
     PARSED_LIMITS := PARSED_LIMITS (happy [] [] []);
     script_load := None;
     limiter_hit := limiter_hit (happy [] [] []);
     get_block := λ _, Raise RPCError;
     pair_per_token_metadata := pair_per_token_metadata (happy [] [] []);
     getReserves := getReserves (happy [] [] []);
     cached_token_price := cached_token_price (happy [] [] []);
     get_events_logs := get_events_logs (happy [] [] []);
     rpush := rpush (happy [] [] []) |}.

(** As [happy], but [getReserves] fails at every block. *)
Definition no_reserves (swaps mints burns : list event_log) : env :=
  {| wall_clock := wall_clock (happy swaps mints burns);
     PARSED_LIMITS := PARSED_LIMITS (happy swaps mints burns);
     script_load := None;
     limiter_hit := limiter_hit (happy swaps mints burns);
     get_block := get_block (happy swaps mints burns);
     pair_per_token_metadata := pair_per_token_metadata (happy swaps mints burns);
     getReserves := λ _ _, Raise RPCError;
     cached_token_price := cached_token_price (happy swaps mints burns);
     get_events_logs := get_events_logs (happy swaps mints burns);
     rpush := rpush (happy swaps mints burns) |}.

Definition work_unit : process_message :=
  {| msg_begin := 100; msg_end := 109; msg_contract := "0xP";
     msg_broadcast_id := "B1" |}.

Definition start : world := World [] 0.

(** The reserves build of [work_unit] in the happy scenario. *)
Definition happy_reserves_run : result (option reserves_snapshot) * world :=
  _construct_pair_reserves_epoch_snapshot_data (happy [] [] []) work_unit true start.

(** The audit protocol accepts every commit. *)
Definition worker (E : env) : worker_env :=
  {| chain := E;
     unique_id := "PairTotalReservesProcessor-1-0011aabb";
     parse_raw := λ body,
       if decide (body = "work_unit") then Ok work_unit
       else Raise ValidationError;
     set_diff_rule := λ _ _, None;
     commit_payload := λ _ _ _, Ok (VDict [("commitID", VStr "c1")]) |}.

(** The trade-volume snapshot of [work_unit] for one Swap and one Mint. *)
Definition swap_mint_run : result (option trades_snapshot) * world :=
  _construct_trade_volume_epoch_snapshot_data
    (happy [swap_105] [mint_101] []) work_unit true start.

Definition empty_trades_snapshot : trades_snapshot :=
  TradesSnapshot "" "" (EpochBase 0 0) 0 0%Qc 0%Qc 0%Qc 0%Qc [].

Definition swap_mint_snapshot : trades_snapshot :=
  match swap_mint_run.1 with
  | Ok (Some s) => s
  | _ => empty_trades_snapshot
  end.

(** The trade-volume snapshot of [work_unit] for the Swap alone. *)
Definition swap_run : result (option trades_snapshot) * world :=
  _construct_trade_volume_epoch_snapshot_data
    (happy [swap_105] [] []) work_unit true start.

Definition swap_snapshot : trades_snapshot :=
  match swap_run.1 with
  | Ok (Some s) => s
  | _ => empty_trades_snapshot
  end.

(** The handler on [work_unit] when every [getReserves] call fails while
    the logs, with one Swap, are fetched. *)
Definition reserves_fail_run : result unit * world :=
  _on_rabbitmq_message (worker (no_reserves [swap_105] [] [])) "work_unit" start.

(** The handler on [work_unit] in the happy scenario with one Swap. *)
Definition happy_run : result unit * world :=
  _on_rabbitmq_message (worker (happy [swap_105] [] [])) "work_unit" start.

(** A token priced through WETH, the only whitelist token.  The pair holds
    2 WETH at block 5, nothing at block 7 and 0.4 WETH at the other blocks,
    against 1 token; ETH is worth 1000 USD. *)
Definition priced_token : token_metadata := TokenMetadata "0xT" "Token" "TKN" 18.

Definition weth_pair : pair_metadata :=
  {| token0 := TokenMetadata "0xWETH" "Wrapped Ether" "WETH" 18;
     token1 := priced_token |}.

Definition reserves_at (block_num : Z) : Z * Z * Z :=
  if decide (block_num = 5) then (2 * 10 ^ 18, 10 ^ 18, 0)
  else if decide (block_num = 7) then (0, 10 ^ 18, 0)
  else (4 * 10 ^ 17, 10 ^ 18, 0).

Definition weth_chain : Pricing.price_env :=
  {| Pricing.toChecksumAddress := λ a, a;
     Pricing.WETH := "0xWETH";
     Pricing.iuniswap_v2_router := "0xROUTER";
     Pricing.uniswap_v2_whitelist := ["0xWETH"];
     Pricing.get_pair := λ _ _, Ok "0xPAIR";
     Pricing.get_pair_metadata := λ _, Ok weth_pair;
     Pricing.batch_getReserves := λ _ from_block to_block,
       Ok (reserves_at <$> block_range from_block to_block);
     Pricing.batch_getAmountsOut := λ _ _ _ _, Ok [];
     Pricing.get_eth_price_usd := λ from_block to_block,
       Ok (list_to_map ((λ b, (b, q 1000)) <$> block_range from_block to_block)) |}.

Definition cold : Pricing.price_world := Pricing.PriceWorld ∅ [].

(** Three successive calls for [priced_token] on a cold cache: over
    [5, 5], over [5, 6] and over [4, 6]. *)
Definition first_call : result (gmap Z Qc) * Pricing.price_world :=
  Pricing.get_token_price_in_block_range weth_chain priced_token 5 5 true cold.

Definition second_call : result (gmap Z Qc) * Pricing.price_world :=
  Pricing.get_token_price_in_block_range weth_chain priced_token 5 6 true
    first_call.2.

Definition third_call : result (gmap Z Qc) * Pricing.price_world :=
  Pricing.get_token_price_in_block_range weth_chain priced_token 4 6 true
    second_call.2.

(** The heights of the cached members with a score in a range. *)
Definition cached_heights (w : Pricing.price_world) (from_block to_block : Z)
    : list Z :=
  match Pricing.zrangebyscore
          (Pricing.uniswap_pair_cached_block_height_token_price "0xT")
          from_block to_block w with
  | (Ok members, _) => fst <$> members
  | (Raise _, _) => []
  end.

Definition keys (r : result (gmap Z Qc)) : option (list Z) :=
  match r with
  | Ok m => Some (fst <$> map_to_list m)
  | Raise _ => None
  end.

(** The reserve fetch at the end block of [work_unit]. *)
Definition happy_fetch : result reserve_total * world :=
  get_liquidity_of_each_token_reserve_async (happy [] [] []) "0xP" 109 true start.

Definition happy_reserve : reserve_total :=
  match happy_fetch.1 with
  | Ok r => r
  | Raise _ => ReserveTotal 0%Qc 0%Qc 0%Qc 0%Qc None
  end.


(** As [happy], but every check of the limiter finds the pool closed. *)
Definition pool_closed : env :=
  {| wall_clock := wall_clock (happy [] [] []);
     PARSED_LIMITS := ["30/second"; "1000/hour"];
     script_load := None;
     limiter_hit := λ _ _ _ _, HitRaises RedisPoolClosedError;
     get_block := get_block (happy [] [] []);
     pair_per_token_metadata := pair_per_token_metadata (happy [] [] []);
     getReserves := getReserves (happy [] [] []);
     cached_token_price := cached_token_price (happy [] [] []);
     get_events_logs := get_events_logs (happy [] [] []);
     rpush := rpush (happy [] [] []) |}.

(** The trades fetch of [work_unit] for one Swap and one Mint. *)
Definition swap_mint_fetch : result (list (string * rets_value)) * world :=
  get_pair_contract_trades_async (happy [swap_105] [mint_101] []) "0xP" 100 109
    true start.

Definition swap_mint_rets : list (string * rets_value) :=
  match swap_mint_fetch.1 with
  | Ok rets => rets
  | Raise _ => []
  end.


(** The Mint stream and the Swap stream of the scenario, extracted. *)
Definition mint_extract : result trades * world :=
  extract_trade_volume_data (happy [] [] []) "Mint" [mint_101] (Some metadata)
    100 start.

Definition no_trades : trades := Trades 0%Qc None 0%Qc 0%Qc 0%Qc 0%Qc [].

Definition mint_trades : trades :=
  match mint_extract.1 with Ok t => t | Raise _ => no_trades end.

(** A second Swap, at block 107: 3·10^18 of token0 in. *)
Definition swap_107 : event_log :=
  {| args := [("sender", VStr "0xS"); ("amount0In", VInt (3 * 10 ^ 18));
              ("amount1In", VInt 0); ("amount0Out", VInt 0);
              ("amount1Out", VInt (6000 * 10 ^ 6)); ("to", VStr "0xR")];
     transactionHash := "0xcc"; logIndex := 1; blockNumber := 107;
     event := "Swap" |}.

Definition swaps_extract : result trades * world :=
  extract_trade_volume_data (happy [] [] []) "Swap" [swap_105; swap_107]
    (Some metadata) 100 start.

Definition swaps_trades : trades :=
  match swaps_extract.1 with Ok t => t | Raise _ => no_trades end.


(** The audit protocol is down: every commit raises. *)
Definition audit_down (E : env) : worker_env :=
  {| chain := E;
     unique_id := unique_id (worker E);
     parse_raw := parse_raw (worker E);
     set_diff_rule := λ _ _, None;
     commit_payload := λ _ _ _, Raise HTTPError |}.

(** The handler on [work_unit], one Swap in the logs, audit protocol down. *)
Definition audit_down_run : result unit * world :=
  _on_rabbitmq_message (audit_down (happy [swap_105] [] [])) "work_unit" start.


(** The audit protocol refuses the diff rule. *)
Definition no_diff_rule (E : env) : worker_env :=
  {| chain := E;
     unique_id := unique_id (worker E);
     parse_raw := parse_raw (worker E);
     set_diff_rule := λ _ _, Some HTTPError;
     commit_payload := commit_payload (worker E) |}.


(** A distributor, and an epoch of two pairs, the first with a checksummed
    address. *)
Definition two_pairs : Distributor.callback_epoch :=
  {| Distributor.epoch_begin := 100; Distributor.epoch_end := 109;
     Distributor.contracts := ["0xAbCd"; "0xef01"];
     Distributor.epoch_broadcast_id := "B1" |}.

Definition distributor : Distributor.distributor_env :=
  {| Distributor.clock := λ n, 1700000000 + Z.of_nat n;
     Distributor.distributor_id := "PairTotalReservesProcessorDistributor-0011aabb";
     Distributor.callbacks_exchange := "powerloom-backend-callbacks";
     Distributor.namespace := "UNISWAPV2";
     Distributor.parse_epoch := λ body,
       if decide (body = "epoch") then Ok two_pairs
       else Raise ValidationError |}.

Definition idle : Distributor.state := Distributor.State [] 0.


(** The three series of the WETH pair over [5, 5], fetched on a cold
    cache. *)
Definition weth_series
    : result (option (gmap Z Qc * gmap Z Qc * gmap Z Qc)) * Pricing.price_world :=
  Pricing.white_token_series weth_chain priced_token 5 5 "0xWETH" cold.

Definition weth_series_maps : gmap Z Qc * gmap Z Qc * gmap Z Qc :=
  match weth_series.1 with
  | Ok (Some s) => s
  | _ => (∅, ∅, ∅)
  end.


(** The prices that [first_call] returned. *)
Definition first_prices : gmap Z Qc :=
  match first_call.1 with
  | Ok d => d
  | Raise _ => ∅
  end.

(** As [weth_chain], but the factory cannot be reached. *)
Definition no_factory : Pricing.price_env :=
  {| Pricing.toChecksumAddress := Pricing.toChecksumAddress weth_chain;
     Pricing.WETH := Pricing.WETH weth_chain;
     Pricing.iuniswap_v2_router := Pricing.iuniswap_v2_router weth_chain;
     Pricing.uniswap_v2_whitelist := Pricing.uniswap_v2_whitelist weth_chain;
     Pricing.get_pair := λ _ _, Raise RPCError;
     Pricing.get_pair_metadata := Pricing.get_pair_metadata weth_chain;
     Pricing.batch_getReserves := Pricing.batch_getReserves weth_chain;
     Pricing.batch_getAmountsOut := Pricing.batch_getAmountsOut weth_chain;
     Pricing.get_eth_price_usd := Pricing.get_eth_price_usd weth_chain |}.

(** A call over [5, 6] after [first_call], the factory out of reach. *)
Definition failed_call : result (gmap Z Qc) * Pricing.price_world :=
  Pricing.get_token_price_in_block_range no_factory priced_token 5 6 true
    first_call.2.


(** As [weth_chain], but the whitelist token is not WETH and the router
    answers with an empty result at every block. *)
Definition empty_quotes : Pricing.price_env :=
  {| Pricing.toChecksumAddress := Pricing.toChecksumAddress weth_chain;
     Pricing.WETH := "0xOTHER";
     Pricing.iuniswap_v2_router := Pricing.iuniswap_v2_router weth_chain;
     Pricing.uniswap_v2_whitelist := Pricing.uniswap_v2_whitelist weth_chain;
     Pricing.get_pair := Pricing.get_pair weth_chain;
     Pricing.get_pair_metadata := Pricing.get_pair_metadata weth_chain;
     Pricing.batch_getReserves := Pricing.batch_getReserves weth_chain;
     Pricing.batch_getAmountsOut := λ _ _ from_block to_block,
       Ok ((λ _, []) <$> block_range from_block to_block);
     Pricing.get_eth_price_usd := Pricing.get_eth_price_usd weth_chain |}.

(** The prices and reserves of the WETH pair over [5, 5]. *)
Definition weth_pair_prices
    : result (gmap Z Qc * gmap Z Qc) * Pricing.price_world :=
  Pricing.get_token_pair_price_and_white_token_reserves weth_chain "0xPAIR" 5 5
    weth_pair "0xWETH" cold.

Definition weth_pair_maps : gmap Z Qc * gmap Z Qc :=
  match weth_pair_prices.1 with
  | Ok m => m
  | Raise _ => (∅, ∅)
  end.

(** The price of ETH in USD over [5, 5]. *)
Definition eth_usd_5 : gmap Z Qc :=
  list_to_map ((λ b, (b, q 1000)) <$> block_range 5 5).


(** A work unit whose bounds are inverted. *)
Definition inverted_unit : process_message :=
  {| msg_begin := 110; msg_end := 109; msg_contract := "0xP";
     msg_broadcast_id := "B2" |}.

(** The trade-volume build of [work_unit] when the header of the end
    block cannot be fetched. *)
Definition no_header_trades_run : result (option trades_snapshot) * world :=
  _construct_trade_volume_epoch_snapshot_data no_block_header work_unit true
    start.

Definition no_header_trades_snapshot : trades_snapshot :=
  match no_header_trades_run.1 with
  | Ok (Some s) => s
  | _ => empty_trades_snapshot
  end.


(** A worker that is also sent the work unit with inverted bounds. *)
Definition inverted_worker (W : worker_env) : worker_env :=
  {| chain := chain W;
     unique_id := unique_id W;
     parse_raw := λ body,
       if decide (body = "inverted_unit") then Ok inverted_unit
       else parse_raw W body;
     set_diff_rule := set_diff_rule W;
     commit_payload := commit_payload W |}.

(** The handler on [inverted_unit] in the happy scenario, no events in the
    logs. *)
Definition inverted_run : result unit * world :=
  _on_rabbitmq_message (inverted_worker (worker (happy [] [] [])))
    "inverted_unit" start.




(** As [happy], but the push onto a Redis list raises. *)
Definition queue_down : env :=
  {| wall_clock := wall_clock (happy [] [] []);
     PARSED_LIMITS := PARSED_LIMITS (happy [] [] []);
     script_load := None;
     limiter_hit := limiter_hit (happy [] [] []);
     get_block := get_block (happy [] [] []);
     pair_per_token_metadata := pair_per_token_metadata (happy [] [] []);
     getReserves := getReserves (happy [] [] []);
     cached_token_price := cached_token_price (happy [] [] []);
     get_events_logs := get_events_logs (happy [] [] []);
     rpush := λ _ _, Some RedisConnectionError |}.

(** As [happy], but the node answers no [eth_getLogs] query. *)
Definition no_logs : env :=
  {| wall_clock := wall_clock (happy [] [] []);
     PARSED_LIMITS := PARSED_LIMITS (happy [] [] []);
     script_load := None;
     limiter_hit := limiter_hit (happy [] [] []);
     get_block := get_block (happy [] [] []);
     pair_per_token_metadata := pair_per_token_metadata (happy [] [] []);
     getReserves := getReserves (happy [] [] []);
     cached_token_price := cached_token_price (happy [] [] []);
     get_events_logs := λ _ _ _ _, Raise RPCError;
     rpush := rpush (happy [] [] []) |}.

(** The trades fetch of [work_unit] against that node, after the reading
    of the clock that opens the build. *)
Definition no_logs_fetch : result (list (string * rets_value)) * world :=
  get_pair_contract_trades_async no_logs "0xP" 100 109 true (World [] 1).


(** The handler on [inverted_unit] with the audit protocol down. *)
Definition inverted_audit_down_run : result unit * world :=
  _on_rabbitmq_message (inverted_worker (audit_down (happy [] [] [])))
    "inverted_unit" start.

(** The handler on [inverted_unit] when no diff rule can be set. *)
Definition inverted_no_diff_rule_run : result unit * world :=
  _on_rabbitmq_message (inverted_worker (no_diff_rule (happy [] [] [])))
    "inverted_unit" start.


End Scenario.

(** * The vocabulary of the properties

    Predicates and readings of traces in which the properties below are
    stated. *)

Import UniswapFunctions PairTotalReserves Pricing.

(** An outcome of a limit check that a Redis error interrupted. *)
Definition check_raises (bypassed : exn → bool) (o : limiter_outcome) : bool :=
  match o with
  | HitRaises e | HitFalseStatsRaise e => bypassed e
  | _ => false
  end.

(** [w3.eth.get_block] raised, or returned nothing. *)
Definition no_block_details (E : env) (block : Z) : Prop :=
  match get_block E block with
  | Ok (Some _) => False
  | _ => True
  end.


(** [m] only appends effects that satisfy [P]. *)
Definition appends {A} (P : effect → Prop) (m : M world A) : Prop :=
  ∀ w r w', m w = (r, w') → ∃ t, trace w' = trace w ++ t ∧ Forall P t.

(** The effects of the two snapshot builders: logging, the dead-letter
    push and the pruning of the price cache. *)
Definition builder_effect (e : effect) : Prop :=
  match e with
  | LogError _ | LogDebug _ | LogWarning _ | Rpush _ _
  | Zremrangebyscore _ _ => True
  | _ => False
  end.


(** The contracts of the commits made on a stream, in order. *)
Definition commits_on (stream : string) (t : list effect) : list string :=
  omap (λ e, match e with
             | CommitPayload c s _ => if decide (s = stream) then Some c else None
             | _ => None
             end) t.

(** The actions of the entries written to the processing log, in order,
    each with its status. *)
Definition entry_of (e : effect) : option (string * string) :=
  match e with
  | Zadd _ _ (VDict d) =>
      match dict_get "update" d with
      | Some (VDict u) =>
          match dict_get "action" u, dict_get "info" u with
          | Some (VStr a), Some (VDict i) =>
              match dict_get "status" i with
              | Some (VStr st) => Some (a, st)
              | _ => None
              end
          | _, _ => None
          end
      | _ => None
      end
  | _ => None
  end.

Definition processing_log (t : list effect) : list (string * string) :=
  omap entry_of t.

(** The (block number, log index) of a decoded record. *)
Definition record_position (v : pyval) : option (Z * Z) :=
  match v with
  | VDict d =>
      match dict_get "blockNumber" d, dict_get "logIndex" d with
      | Some (VInt b), Some (VInt i) => Some (b, i)
      | _, _ => None
      end
  | _ => None
  end.

(** Lexicographic order on (block number, log index). *)
Definition position_le (p q : Z * Z) : Prop :=
  p.1 < q.1 ∨ (p.1 = q.1 ∧ p.2 ≤ q.2).

(** Every two adjacent records are in (block number, log index) order. *)
Definition events_ordered (l : list pyval) : Prop :=
  ∀ i e1 e2, l !! i = Some e1 → l !! S i = Some e2 →
    ∃ p q, record_position e1 = Some p ∧ record_position e2 = Some q ∧
           position_le p q.

(** The same, for the logs as the node returned them. *)
Definition logs_ordered (l : list event_log) : Prop :=
  ∀ i k1 k2, l !! i = Some k1 → l !! S i = Some k2 →
    position_le (blockNumber k1, logIndex k1) (blockNumber k2, logIndex k2).

(** Either scaled reserve of a [getReserves] result is zero. *)
Definition zero_reserve (md : pair_metadata) (rs : Z * Z * Z) : Prop :=
  scale_by_decimals rs.1.1 (decimals (token0 md)) = 0%Qc ∨
  scale_by_decimals rs.1.2 (decimals (token1 md)) = 0%Qc.

(** The blocks at which one reserve was divided by the other, in order. *)
Definition divided_blocks (t : list price_effect) : list Z :=
  omap (λ e, match e with Divide b _ _ => Some b | _ => None end) t.

(** At some block of the range the reserve of the whitelist token, in
    ETH, is below 1. *)
Definition below_threshold (r d : gmap Z Qc) (from_block to_block : Z) : Prop :=
  ∃ b rb db, from_block ≤ b ≤ to_block ∧
    r !! b = Some rb ∧ d !! b = Some db ∧ (rb * db < 1)%Qc.

(** A whitelist token that does not meet the threshold at every block:
    the factory has no pair for it, or its series is below the threshold at
    some block. *)
Definition never_deep_enough (E : price_env) (tm : token_metadata)
    (from_block to_block : Z) (white_token : string) : Prop :=
  ∀ w, ∃ w1,
    white_token_series E tm from_block to_block
      (toChecksumAddress E white_token) w = (Ok None, w1) ∨
    ∃ p r d,
      white_token_series E tm from_block to_block
        (toChecksumAddress E white_token) w = (Ok (Some (p, r, d)), w1) ∧
      below_threshold r d from_block to_block.

(** The cache does not hold exactly one member per block of the range. *)
Definition cache_miss (E : price_env) (tm : token_metadata)
    (from_block to_block : Z) (w : price_world) : Prop :=
  ∃ cached w1,
    zrangebyscore
      (uniswap_pair_cached_block_height_token_price
         (toChecksumAddress E (address tm))) from_block to_block w
    = (Ok cached, w1) ∧
    (cached = [] ∨ Z.of_nat (length cached) ≠ to_block - (from_block - 1)).

(** An outcome of a limit check after which the loop goes on to the next
    limit: the hit was admitted, or it raised an exception that the
    [except] clause names. *)
Definition passes (bypassed : exn → bool) (o : limiter_outcome) : bool :=
  match o with
  | HitTrue => true
  | HitFalse _ => false
  | HitRaises e | HitFalseStatsRaise e => bypassed e
  end.


(** [v.get(key)] for a decoded record. *)
Definition record_get (key : string) (v : pyval) : option pyval :=
  match v with
  | VDict d => dict_get key d
  | _ => None
  end.

(** The integer under a key of the arguments of a log, 0 when there is
    none. *)
Definition int_arg (key : string) (log : event_log) : Z :=
  match dict_get key (args log) with
  | Some (VInt z) => z
  | _ => 0
  end.

(** The amounts of token0 and of token1 that a Swap log adds to the
    volumes: the input of one side and the output of the other. *)
Definition swap_amounts (log : event_log) : Z * Z :=
  if is_zero (dict_get "amount1In" (args log)) then
    (int_arg "amount0In" log, int_arg "amount1Out" log)
  else if is_zero (dict_get "amount0In" (args log)) then
    (int_arg "amount0Out" log, int_arg "amount1In" log)
  else (0, 0).

(** The sum of an integer reading over a list of logs. *)
Definition sum_over (f : event_log → Z) (logs : list event_log) : Z :=
  foldr (λ log s, f log + s) 0 logs.

(** What [extract_trade_volume_data] hands to its second loop. *)
Definition log_topic_values (event_name : string) (event_logs : list event_log)
    : result (list (list (string * pyval))) :=
  match event_logs with
  | [] => Ok []
  | _ :: _ =>
      match uniswap_trade_events_abi_inputs event_name with
      | Some inputs => Ok ((topics_of inputs) <$> event_logs)
      | None => Raise KeyError
      end
  end.

(** A price that Python takes for false once it is a float: none, or 0. *)
Definition falsy_price (p : option Qc) : bool :=
  match p with
  | Some q => bool_decide (q = 0%Qc)
  | None => true
  end.


(** A line of the log. *)
Definition log_effect (e : effect) : Prop :=
  match e with
  | LogError _ | LogDebug _ | LogWarning _ => True
  | _ => False
  end.

(** What a builder appends when it gives up on an epoch: the push of the
    message onto the queue of failed epochs of the pair and a line of the
    log, when it was asked to enqueue, and nothing otherwise. *)
Definition dead_letter (msg_obj : process_message) (enqueue_on_failure : bool)
    (why : string) : list effect :=
  if enqueue_on_failure then
    [Rpush (uniswap_failed_pair_total_reserves_epochs_redis_q_f
              (msg_contract msg_obj)) (msg_dict msg_obj);
     LogDebug why]
  else [].

(** The world after one reading of the clock. *)
Definition after_clock (w : world) : world := World (trace w) (S (ticks w)).


(** Any effect but the acknowledgement of the message. *)
Definition not_ack (e : effect) : Prop := e ≠ Ack.


(** The bodies of the messages published, in order. *)
Definition published (l : list Distributor.action) : list pyval :=
  omap (λ a, match a with
             | Distributor.BasicPublish _ _ body => Some body
             | _ => None
             end) l.

(** The work unit that the distributor makes of an epoch for one of its
    contracts. *)
Definition process_unit (msg_obj : Distributor.callback_epoch)
    (contract : string) : process_message :=
  {| msg_begin := Distributor.epoch_begin msg_obj;
     msg_end := Distributor.epoch_end msg_obj;
     msg_contract := Distributor.lower contract;
     msg_broadcast_id := Distributor.epoch_broadcast_id msg_obj |}.

(** What the loop over the contracts does, contract by contract. *)
Definition publish_actions (D : Distributor.distributor_env)
    (msg_obj : Distributor.callback_epoch) (cs : list string)
    : list Distributor.action :=
  cs ≫= λ c,
    [Distributor.BasicPublish (Distributor.exchange_of D)
       (Distributor.worker_routing_key D) (msg_dict (process_unit msg_obj c));
     Distributor.Debug "Sent out epoch to be processed by worker to calculate total reserves for pair contract"].


(** At every block of the range the reserve of the whitelist token, in
    ETH, is at least 1. *)
Definition deep_enough (r d : gmap Z Qc) (from_block to_block : Z) : Prop :=
  ∀ b, from_block ≤ b ≤ to_block →
    ∃ rb db, r !! b = Some rb ∧ d !! b = Some db ∧ ¬ (rb * db < 1)%Qc.


(** [m] leaves the sorted sets of Redis as they are. *)
Definition keeps_cache {A} (m : M price_world A) : Prop :=
  ∀ w r w', m w = (r, w') → zsets w' = zsets w.

(** The key of the price cache of a token. *)
Definition price_cache_key (E : price_env) (tm : token_metadata) : string :=
  uniswap_pair_cached_block_height_token_price
    (toChecksumAddress E (address tm)).

(** The mapping handed to [zadd] for a price map: the member of a height
    and its price, scored by the height. *)
Definition redis_cache_mapping (token_price_dict : gmap Z Qc)
    : list (member * Z) :=
  (λ hp : Z * Qc, ((hp.1, hp.2), hp.1)) <$> map_to_list token_price_dict.


(** The two scaled reserves of a [getReserves] result, that of the
    whitelist token first: token0 when its checksummed address is the
    whitelist token, token1 otherwise. *)
Definition white_and_other (E : price_env) (md : pair_metadata)
    (white_token : string) (rs : Z * Z * Z) : Qc * Qc :=
  let r0 := scale_by_decimals rs.1.1 (decimals (token0 md)) in
  let r1 := scale_by_decimals rs.1.2 (decimals (token1 md)) in
  if bool_decide (toChecksumAddress E (address (token0 md)) = white_token)
  then (r0, r1) else (r1, r0).

(** The price and the whitelist reserve that go with a [getReserves]
    result: both 0 when a reserve is 0, and else the reserve of the whitelist
    token over the other one, and the reserve of the whitelist token. *)
Definition price_and_reserve (E : price_env) (md : pair_metadata)
    (white_token : string) (rs : Z * Z * Z) : Qc * Qc :=
  let wo := white_and_other E md white_token rs in
  if bool_decide (wo.1 = 0%Qc) || bool_decide (wo.2 = 0%Qc) then (0%Qc, 0%Qc)
  else ((wo.1 / wo.2)%Qc, wo.1).


(** The timestamp of the header of a block, when there is one. *)
Definition header_timestamp (E : env) (block : Z) : option Z :=
  match get_block E block with
  | Ok (Some d) => Some (block_timestamp d)
  | _ => None
  end.






(** * Properties *)

(** Unfolding of the monad operations. *)
Ltac unmonad :=
  unfold redis_rpush, emit, time_time in *;
  unfold mbind, mret, M_bind, M_ret, result_bind, result_ret,
    bind, ret, raise, rbind, try_catch, attempt, lift, modify, gets in *.

(** ** The rate-limit gate *)

Lemma rate_limit_gate_all_raise E bypassed log_other key_bits incr block :
  ∀ limits can_request w,
    (∀ lim, lim ∈ limits →
       check_raises bypassed (limiter_hit E lim incr key_bits block) = true) →
    ∃ w', rate_limit_gate E bypassed log_other key_bits incr block
            limits can_request w = (Ok can_request, w').
Proof.
  induction limits as [|lim limits IH]; intros can_request w Hall; simpl.
  - eexists; reflexivity.
  - pose proof (Hall lim ltac:(left)) as Hlim.
    destruct (limiter_hit E lim incr key_bits block) as [|?|e|e];
      simpl in Hlim; try discriminate; rewrite Hlim; unmonad; simpl;
      apply IH; intros; apply Hall; by right.
Qed.

(** C3.  When every per-limit check of the reserve fetch raises one of the
    Redis errors that the gate bypasses, [can_request] keeps its initial
    value [False]: the fetch performs no [eth_call] and raises, and when the
    script load went through the exception is the rate-limit-exhausted one.
    The gate logs that it bypasses the check, but does not admit. *)
Theorem reserve_fetch_redis_errors_denied
    (E : env) (pair_address : string) (block : Z) (fetch_timestamp : bool)
    (w : world) :
  (∀ lim, lim ∈ PARSED_LIMITS E →
     check_raises redis_exceptions
       (limiter_hit E lim (if fetch_timestamp then 2 else 1) "eth_call" block)
     = true) →
  ∃ e w',
    get_liquidity_of_each_token_reserve_async E pair_address block
      fetch_timestamp w = (Raise e, w') ∧
    (script_load E = None → e = exhausted_api_key_rate_limit).
Proof.
  intros Hall. unfold get_liquidity_of_each_token_reserve_async.
  destruct (script_load E) as [e0|] eqn:Hload.
  - unmonad; simpl. eexists _, _; split; [reflexivity | discriminate].
  - destruct (rate_limit_gate_all_raise E redis_exceptions true "eth_call"
                (if fetch_timestamp then 2 else 1) block (PARSED_LIMITS E) false
                (World (trace w ++ [LogDebug "Got sha load results for rate limiter scripts"]) (ticks w))
                Hall) as [w1 Hgate].
    unmonad; simpl. unmonad. rewrite Hgate. simpl.
    eexists _, _; split; [reflexivity | done].
Qed.

(** ** The reserves snapshot builder *)

(** The call of the reserve fetch that the loop makes binds no
    [redis_conn]: it raises TypeError and the function is not entered. *)
Lemma reserve_fetch_call_unbound {A} (body : M world A) (w : world) :
  call_with_keywords get_liquidity_of_each_token_reserve_async_required
    ["loop"; "pair_address"; "block_identifier"; "fetch_timestamp"] body w
  = (Raise TypeError, w).
Proof. reflexivity. Qed.

(** The loop is left at its first block, with [enqueue_epoch] set and
    nothing entered into the maps. *)
Lemma fetch_loop_cons E msg_obj block_num rest st w :
  fetch_loop E msg_obj (block_num :: rest) st w =
  (Ok (FetchState (epoch_reserves_snapshot_map_token0 st)
         (epoch_reserves_snapshot_map_token1 st)
         (max_block_timestamp st) true), w).
Proof. reflexivity. Qed.

Lemma block_range_cons (b e : Z) :
  b ≤ e → block_range b e = b :: block_range (b + 1) e.
Proof.
  intros Hle. unfold block_range.
  rewrite seqZ_cons by lia. f_equal. f_equal; lia.
Qed.

(** The reserves build of an epoch that holds a block: no snapshot.  With
    [enqueue_on_failure] the message is pushed onto the queue of failed
    epochs, and what that push raises leaves the build. *)
Lemma construct_pair_reserves_nonempty E msg_obj enqueue_on_failure w :
  msg_begin msg_obj ≤ msg_end msg_obj →
  _construct_pair_reserves_epoch_snapshot_data E msg_obj enqueue_on_failure w =
  let key := uniswap_failed_pair_total_reserves_epochs_redis_q_f
               (msg_contract msg_obj) in
  if enqueue_on_failure then
    match rpush E key (msg_dict msg_obj) with
    | Some e =>
        (Raise e, World (trace w ++ [Rpush key (msg_dict msg_obj)]) (S (ticks w)))
    | None =>
        (Ok None,
         World (trace w ++
                [Rpush key (msg_dict msg_obj);
                 LogDebug "Enqueued epoch broadcast ID because reserve query failed"])
               (S (ticks w)))
    end
  else (Ok None, World (trace w) (S (ticks w))).
Proof.
  intros Hle. unfold _construct_pair_reserves_epoch_snapshot_data.
  rewrite (block_range_cons _ _ Hle). unfold redis_rpush. unmonad.
  rewrite fetch_loop_cons. cbn [enqueue_epoch].
  destruct enqueue_on_failure; [|reflexivity]. simpl.
  destruct (rpush E _ _); simpl; by rewrite <- ?app_assoc.
Qed.

(** C6.  For an epoch [b, e] with [b ≤ e] the build constructs no reserves
    snapshot: the call of the reserve fetch at block [b] gives no
    [redis_conn] and raises TypeError, the loop is left with no entry in
    either map, and the build returns [None], or raises what the push onto
    the queue of failed epochs raises.  No snapshot has the [e - b + 1]
    entries. *)
Theorem reserves_snapshot_never_built
    (E : env) (msg_obj : process_message) (enqueue_on_failure : bool)
    (w : world) :
  msg_begin msg_obj ≤ msg_end msg_obj →
  ∃ r w',
    _construct_pair_reserves_epoch_snapshot_data E msg_obj enqueue_on_failure w
      = (r, w') ∧
    (r = Ok None ∨
     ∃ e, r = Raise e ∧ enqueue_on_failure = true ∧
          rpush E (uniswap_failed_pair_total_reserves_epochs_redis_q_f
                     (msg_contract msg_obj)) (msg_dict msg_obj) = Some e).
Proof.
  intros Hle. rewrite (construct_pair_reserves_nonempty _ _ _ _ Hle).
  cbv zeta. destruct enqueue_on_failure; [|eauto].
  destruct (rpush E _ _) as [e|] eqn:Hpush; eauto 10.
Qed.

Lemma reserves_snapshot_never_built_witness :
  ∃ r w',
    _construct_pair_reserves_epoch_snapshot_data (Scenario.happy [] [] [])
      Scenario.work_unit true Scenario.start = (r, w') ∧
    (r = Ok None ∨
     ∃ e, r = Raise e ∧ true = true ∧
          rpush (Scenario.happy [] [] [])
            (uniswap_failed_pair_total_reserves_epochs_redis_q_f
               (msg_contract Scenario.work_unit))
            (msg_dict Scenario.work_unit) = Some e).
Proof.
  apply (reserves_snapshot_never_built (Scenario.happy [] [] [])
           Scenario.work_unit true Scenario.start).
  simpl. lia.
Defined.

(** The build of the work unit [100, 109], every block of which the node
    would answer: the message goes to the queue of failed epochs. *)
Example work_unit_reserves_build :
  Scenario.happy_reserves_run
  = (Ok None,
     World [Rpush "uniswap:failed_pair_total_reserves_epochs:0xP"
              (msg_dict Scenario.work_unit);
            LogDebug "Enqueued epoch broadcast ID because reserve query failed"]
           1).
Proof. vm_compute. reflexivity. Qed.

Lemma reserve_fetch_redis_errors_denied_witness :
  ∃ e w',
    get_liquidity_of_each_token_reserve_async Scenario.redis_down "0xP" 100
      true Scenario.start = (Raise e, w') ∧
    (script_load Scenario.redis_down = None → e = exhausted_api_key_rate_limit).
Proof.
  apply (reserve_fetch_redis_errors_denied Scenario.redis_down "0xP" 100
           true Scenario.start).
  intros lim _. reflexivity.
Defined.

(** The same run, evaluated: both checks are bypassed, no reserves are
    fetched, and the exception says that the rate limit is exhausted. *)
Example reserve_fetch_redis_down :
  get_liquidity_of_each_token_reserve_async Scenario.redis_down "0xP" 100 true
    Scenario.start
  = (Raise exhausted_api_key_rate_limit,
     World [LogDebug "Got sha load results for rate limiter scripts";
            LogDebug "Bypassing rate limit check for appID because of Redis exception";
            LogDebug "Bypassing rate limit check for appID because of Redis exception";
            LogError "error at async_get_liquidity_of_each_token_reserve fn"] 0).
Proof. vm_compute. reflexivity. Qed.

(** ** Timestamp fallback *)

(** The [timestamp] of a fetched reserve is the one of the block header
    when it was asked for and obtained, and [None] otherwise. *)
Lemma get_liquidity_timestamp E pair block fetch_timestamp w r w' :
  get_liquidity_of_each_token_reserve_async E pair block fetch_timestamp w
    = (Ok r, w') →
  rt_timestamp r =
    if fetch_timestamp then
      match get_block E block with
      | Ok (Some d) => Some (block_timestamp d)
      | _ => None
      end
    else None.
Proof.
  unfold get_liquidity_of_each_token_reserve_async, usd_of. unmonad.
  intros H.
  repeat (case_match; simplify_eq/=; try done).
Qed.



(** C9.  When the header of the end block cannot be fetched, the build of
    an epoch [b, e] with [b ≤ e] still gives no snapshot, and the error
    about the timestamp is not logged: the loop is left at block [b], before
    any header is asked for, and the reading of the wall clock goes
    unused. *)
Theorem reserves_snapshot_no_timestamp_fallback
    (E : env) (msg_obj : process_message) (enqueue_on_failure : bool)
    (w : world) :
  msg_begin msg_obj ≤ msg_end msg_obj →
  no_block_details E (msg_end msg_obj) →
  ∃ r w' t,
    _construct_pair_reserves_epoch_snapshot_data E msg_obj enqueue_on_failure w
      = (r, w') ∧
    (∀ snapshot, r ≠ Ok (Some snapshot)) ∧
    trace w' = trace w ++ t ∧
    LogError timestamp_error_reserves ∉ t.
Proof.
  intros Hle _. rewrite (construct_pair_reserves_nonempty _ _ _ _ Hle).
  cbv zeta. destruct enqueue_on_failure.
  - destruct (rpush E _ _) as [e|]; eexists _, _, _;
      (split; [reflexivity|]); (split; [done|]); (split; [reflexivity|]);
      rewrite ?elem_of_cons, elem_of_nil; naive_solver.
  - eexists _, _, []. split; [reflexivity|]. split; [done|].
    split; [by rewrite app_nil_r|]. apply not_elem_of_nil.
Qed.

Lemma reserves_snapshot_no_timestamp_fallback_witness :
  ∃ r w' t,
    _construct_pair_reserves_epoch_snapshot_data Scenario.no_block_header
      Scenario.work_unit true Scenario.start = (r, w') ∧
    (∀ snapshot, r ≠ Ok (Some snapshot)) ∧
    trace w' = trace Scenario.start ++ t ∧
    LogError timestamp_error_reserves ∉ t.
Proof.
  apply (reserves_snapshot_no_timestamp_fallback Scenario.no_block_header
           Scenario.work_unit true Scenario.start).
  - simpl. lia.
  - exact I.
Defined.

(** ** The fee of a Swap *)

Example swap_snapshot_totals :
  Scenario.swap_run.1 = Ok (Some Scenario.swap_snapshot) ∧
  tv_token0TradeVolume Scenario.swap_snapshot = Scenario.q 1 ∧
  tv_token1TradeVolume Scenario.swap_snapshot = Scenario.q 2000 ∧
  totalTrade Scenario.swap_snapshot = Scenario.q 2 ∧
  totalFee Scenario.swap_snapshot = Q2Qc (6 # 10).
Proof. vm_compute. repeat split; apply Qc_is_canon; reflexivity. Qed.

(** C1.  On the Swap of the specification's scenario (10^18 of an
    18-decimal token0 in, token0 priced at 2 USD) the trade-volume snapshot
    is built and its fee is 0.6 USD, thirty per cent of the input: the
    constant that the source multiplies by is 0.3, not 0.003, so the fee is
    not the 0.006 USD that a rate of 30 basis points gives. *)
Theorem swap_fee_is_three_tenths_of_input :
  Scenario.swap_run.1 = Ok (Some Scenario.swap_snapshot) ∧
  totalFee Scenario.swap_snapshot
    = (Scenario.q 1 * Q2Qc (3 # 10) * Scenario.q 2)%Qc ∧
  totalFee Scenario.swap_snapshot = Q2Qc (6 # 10) ∧
  totalFee Scenario.swap_snapshot ≠ Q2Qc (6 # 1000).
Proof.
  assert (Hfee : totalFee Scenario.swap_snapshot = Q2Qc (6 # 10))
    by (vm_compute; apply Qc_is_canon; reflexivity).
  split; [vm_compute; reflexivity|].
  rewrite Hfee. split; [|split; [reflexivity|]].
  - apply Qc_is_canon. reflexivity.
  - intros H. apply (f_equal this) in H. vm_compute in H. discriminate.
Qed.

(** The fee of one arm: the normalised input times 0.3 times the price. *)
Lemma fee_usd_rate (f : Z) (p : Qc) (d : N) :
  f ≠ 0 →
  fee_usd (Some f) (Some p) d
  = Some (scale_by_decimals f d * Q2Qc (3 # 10) * p)%Qc.
Proof.
  intros Hf. unfold fee_usd. by rewrite (proj2 (Z.eqb_neq f 0) Hf).
Qed.

(** ** Traces of the worker *)

Section appends.
Context (P : effect → Prop).

Lemma appends_ret {A} (a : A) : appends P (mret a).
Proof.
  intros w r w' H. unmonad. simplify_eq. exists []. by rewrite app_nil_r.
Qed.

Lemma appends_raise {A} (e : exn) : appends P (raise (A := A) e).
Proof.
  intros w r w' H. unmonad. simplify_eq. exists []. by rewrite app_nil_r.
Qed.

Lemma appends_lift {A} (x : result A) : appends P (lift x).
Proof.
  intros w r w' H. unmonad. simplify_eq. exists []. by rewrite app_nil_r.
Qed.

Lemma appends_emit (e : effect) : P e → appends P (emit e).
Proof.
  intros He w r w' H. unmonad. simplify_eq. exists [e]. simpl.
  split; [reflexivity|]. by constructor.
Qed.

Lemma appends_time_time E : appends P (time_time E).
Proof.
  intros w r w' H. unmonad. simplify_eq. exists []. simpl.
  by rewrite app_nil_r.
Qed.

Lemma appends_bind {A B} (m : M world A) (k : A → M world B) :
  appends P m →
  (∀ a, (∃ w w1, m w = (Ok a, w1)) → appends P (k a)) →
  appends P (m ≫= k).
Proof.
  intros Hm Hk w r w' H. unmonad.
  destruct (m w) as [[a|e] w1] eqn:Hmw.
  - destruct (Hm _ _ _ Hmw) as (t1 & E1 & F1).
    destruct (Hk a (ex_intro _ w (ex_intro _ w1 Hmw)) _ _ _ H)
      as (t2 & E2 & F2).
    exists (t1 ++ t2). rewrite E2, E1, app_assoc. split; [done|].
    by apply Forall_app.
  - simplify_eq. eauto.
Qed.

Lemma appends_try_catch {A} (m : M world A) (h : exn → M world A) :
  appends P m → (∀ e, appends P (h e)) → appends P (try_catch m h).
Proof.
  intros Hm Hh w r w' H. unmonad.
  destruct (m w) as [[a|e] w1] eqn:Hmw.
  - simplify_eq. eauto.
  - destruct (Hm _ _ _ Hmw) as (t1 & E1 & F1).
    destruct (Hh e _ _ _ H) as (t2 & E2 & F2).
    exists (t1 ++ t2). rewrite E2, E1, app_assoc. split; [done|].
    by apply Forall_app.
Qed.

Lemma appends_mono {A} (Q : effect → Prop) (m : M world A) :
  (∀ e, Q e → P e) → appends Q m → appends P m.
Proof.
  intros HQP Hm w r w' H. destruct (Hm _ _ _ H) as (t & Ht & HF).
  exists t. split; [done|]. eapply Forall_impl; eauto.
Qed.

Lemma appends_attempt {A} (m : M world A) :
  appends P m → appends P (attempt m).
Proof.
  intros Hm w r w' H. unmonad.
  destruct (m w) as [x w1] eqn:Hmw. simplify_eq. eauto.
Qed.

Lemma appends_call_with_keywords {A} required keywords (body : M world A) :
  appends P body → appends P (call_with_keywords required keywords body).
Proof.
  intros Hm. unfold call_with_keywords.
  destruct (forallb _ required); [done | apply appends_raise].
Qed.
End appends.

(** Goals [appends P m] are solved along the structure of [m]. *)
Ltac appends_step :=
  match goal with
  | |- appends _ (mret _) => apply appends_ret
  | |- appends _ (raise _) => apply appends_raise
  | |- appends _ (lift _) => apply appends_lift
  | |- appends _ (time_time _) => apply appends_time_time
  | |- appends _ (emit _) => apply appends_emit; try done
  | |- appends _ (_ ≫= _) => apply appends_bind; [|intros ? _]
  | |- appends _ (try_catch _ _) => apply appends_try_catch; [|intros]
  | |- appends _ (attempt _) => apply appends_attempt
  | |- appends _ (call_with_keywords _ _ _) => apply appends_call_with_keywords
  | |- appends _ (match ?x with _ => _ end) => destruct x
  | |- appends _ (if ?x then _ else _) => destruct x
  | |- appends _ (let '(_, _) := ?x in _) => destruct x
  end.
Ltac appends_auto := repeat appends_step; eauto.

Lemma rate_limit_gate_appends E bypassed log_other key_bits incr block :
  ∀ limits can_request,
    appends builder_effect
      (rate_limit_gate E bypassed log_other key_bits incr block limits can_request).
Proof.
  induction limits as [|lim limits IH]; intros can_request; simpl;
    appends_auto.
Qed.

Lemma get_liquidity_appends E pair block fetch_timestamp :
  appends builder_effect
    (get_liquidity_of_each_token_reserve_async E pair block fetch_timestamp).
Proof.
  unfold get_liquidity_of_each_token_reserve_async, usd_of.
  pose proof (rate_limit_gate_appends E redis_exceptions true "eth_call").
  appends_auto.
Qed.

Lemma fetch_loop_appends E msg_obj : ∀ blocks st,
  appends builder_effect (fetch_loop E msg_obj blocks st).
Proof.
  pose proof (get_liquidity_appends E).
  induction blocks as [|b blocks IH]; intros st;
    cbn [fetch_loop]; appends_auto.
Qed.

Lemma construct_pair_reserves_appends E msg_obj enqueue_on_failure :
  appends builder_effect
    (_construct_pair_reserves_epoch_snapshot_data E msg_obj enqueue_on_failure).
Proof.
  unfold _construct_pair_reserves_epoch_snapshot_data, redis_rpush.
  pose proof (fetch_loop_appends E msg_obj).
  appends_auto.
Qed.

Lemma extract_recent_transaction_logs_appends E event_name md p0 p1 :
  ∀ event_logs,
    appends builder_effect
      (extract_recent_transaction_logs E event_name event_logs md p0 p1).
Proof.
  induction event_logs as [|log logs IH]; simpl;
    unfold recent_transaction_log, get_block_details; appends_auto.
Qed.

Lemma extract_trade_volume_data_appends E event_name event_logs md from_block :
  appends builder_effect
    (extract_trade_volume_data E event_name event_logs md from_block).
Proof.
  unfold extract_trade_volume_data.
  pose proof (extract_recent_transaction_logs_appends E event_name).
  appends_auto.
Qed.

Lemma fill_rets_appends E md from_block : ∀ logs_ret,
  appends builder_effect (fill_rets E logs_ret md from_block).
Proof.
  pose proof (extract_trade_volume_data_appends E).
  induction logs_ret as [|[name logs] rest IH]; simpl; appends_auto.
Qed.

Lemma get_pair_contract_trades_appends E pair from_block to_block fetch_timestamp :
  appends builder_effect
    (get_pair_contract_trades_async E pair from_block to_block fetch_timestamp).
Proof.
  unfold get_pair_contract_trades_async.
  pose proof (rate_limit_gate_appends E redis_errors false "eth_logs").
  pose proof (fill_rets_appends E).
  appends_auto.
Qed.

Lemma construct_trade_volume_appends E msg_obj enqueue_on_failure :
  appends builder_effect
    (_construct_trade_volume_epoch_snapshot_data E msg_obj enqueue_on_failure).
Proof.
  unfold _construct_trade_volume_epoch_snapshot_data, redis_rpush.
  pose proof (get_pair_contract_trades_appends E).
  appends_auto.
Qed.

Lemma log_update_appends (P : effect → Prop) W msg_obj action info :
  (∀ k s m, P (Zadd k s m)) →
  appends P (log_update W msg_obj action info).
Proof. intros HP. unfold log_update. appends_auto. Qed.

(** ** The trade-volume commit without a reserves snapshot *)




(** ** The contract of the trade-volume commit *)



Lemma commit_and_log_appends (P : effect → Prop) W msg_obj action stream
    contract_arg payload :
  (∀ k s m, P (Zadd k s m)) →
  (∀ m, P (LogError m)) →
  (∀ m, P (LogDebug m)) →
  (∀ c, contract_arg = Ok c → P (CommitPayload c stream payload)) →
  appends P (commit_and_log W msg_obj action stream contract_arg payload).
Proof.
  intros Hzadd Herr Hdebug Hcommit. unfold commit_and_log.
  pose proof (log_update_appends P W msg_obj action) as Hlog.
  apply appends_bind.
  - apply appends_attempt, appends_bind; [appends_auto|].
    intros c (w & w1 & Hc). unfold lift in Hc.
    assert (contract_arg = Ok c) by congruence.
    appends_auto.
  - intros r _. appends_auto.
Qed.








(** The run of the witness: an epoch without blocks has a reserves
    snapshot, an empty one, and both snapshots are committed, the second
    with the contract of the first. *)
Example inverted_run_commits :
  Scenario.inverted_run.1 = Ok tt ∧
  commits_on "trade_volume" (trace Scenario.inverted_run.2) = ["0xP"] ∧
  processing_log (trace Scenario.inverted_run.2)
  = [("PairReserves.SnapshotBuild", "Success");
     ("PairReserves.SnapshotCommit", "Success");
     ("TradeVolume.SnapshotBuild", "Success");
     ("TradeVolume.SnapshotCommit", "Success")].
Proof. vm_compute. done. Qed.

(** The work unit [100, 109], one Swap in its logs, the node and the audit
    protocol answering every call: the reserves build fails at its first
    block, the trade-volume snapshot is built, its commit finds no reserves
    snapshot to take the contract from, and the handler ends with
    TypeError. *)
Example happy_run_commits_nothing :
  Scenario.happy_run.1 = Raise TypeError ∧
  commits_on "pair_total_reserves" (trace Scenario.happy_run.2) = [] ∧
  commits_on "trade_volume" (trace Scenario.happy_run.2) = [] ∧
  processing_log (trace Scenario.happy_run.2)
  = [("PairReserves.SnapshotBuild", "Failed");
     ("TradeVolume.SnapshotBuild", "Success")].
Proof. vm_compute. done. Qed.

(** C10.  The handler on a work unit whose reserves cannot be fetched while
    its logs can: the reserves build fails and is logged, the trade-volume
    build succeeds and is logged, no commit is made on [trade_volume], and
    the handler ends by raising TypeError without an entry
    [TradeVolume.SnapshotCommit] in the processing log. *)
Theorem trade_commit_failure_is_not_logged :
  Scenario.reserves_fail_run.1 = Raise TypeError ∧
  commits_on "trade_volume" (trace Scenario.reserves_fail_run.2) = [] ∧
  processing_log (trace Scenario.reserves_fail_run.2)
  = [("PairReserves.SnapshotBuild", "Failed");
     ("TradeVolume.SnapshotBuild", "Success")].
Proof. vm_compute. done. Qed.

(** ** The order of the events of a trade-volume snapshot *)

Lemma dict_get_set_eq k v d : dict_get k (dict_set k v d) = Some v.
Proof.
  induction d as [|[k' v'] d IH]; simpl.
  - by rewrite decide_True.
  - destruct (decide (k' = k)) as [->|Hne]; simpl.
    + by rewrite decide_True.
    + by rewrite decide_False.
Qed.

Lemma dict_get_set_ne k k' v d :
  k ≠ k' → dict_get k' (dict_set k v d) = dict_get k' d.
Proof.
  intros Hne. induction d as [|[k0 v0] d IH]; simpl.
  - by rewrite decide_False.
  - destruct (decide (k0 = k)) as [->|Hne0]; simpl.
    + by rewrite !decide_False.
    + destruct (decide (k0 = k')); [done|apply IH].
Qed.

(** A decoded record carries the block number and the log index of its
    log, whatever the arguments of the event are called. *)
Lemma record_position_decoded k :
  record_position (decoded_log k) = Some (blockNumber k, logIndex k).
Proof.
  unfold record_position, decoded_log.
  rewrite (dict_get_set_ne "event" "blockNumber") by done.
  rewrite dict_get_set_eq.
  rewrite (dict_get_set_ne "event" "logIndex") by done.
  rewrite (dict_get_set_ne "blockNumber" "logIndex") by done.
  by rewrite dict_get_set_eq.
Qed.

Lemma events_ordered_decoded l :
  logs_ordered l → events_ordered (decoded_log <$> l).
Proof.
  intros Hl i e1 e2 H1 H2.
  rewrite list_lookup_fmap in H1, H2.
  destruct (l !! i) as [k1|] eqn:E1; [|done].
  destruct (l !! S i) as [k2|] eqn:E2; [|done].
  simpl in *. simplify_eq.
  eexists _, _. rewrite !record_position_decoded.
  split; [done|]. split; [done|]. by apply (Hl i).
Qed.

Lemma fill_rets_cons E name logs rest md from_block :
  fill_rets E ((name, logs) :: rest) md from_block =
  (t ← extract_trade_volume_data E name logs md from_block;
   rets ← fill_rets E rest md from_block;
   mret ((name, EventEntry (decoded_log <$> logs) t) :: rets)).
Proof. reflexivity. Qed.

Lemma fill_rets_three E swaps mints burns md from_block w rets w' :
  fill_rets E [("Swap", swaps); ("Mint", mints); ("Burn", burns)] md from_block w
    = (Ok rets, w') →
  ∃ t1 t2 t3,
    rets = [("Swap", EventEntry (decoded_log <$> swaps) t1);
            ("Mint", EventEntry (decoded_log <$> mints) t2);
            ("Burn", EventEntry (decoded_log <$> burns) t3)].
Proof.
  rewrite !fill_rets_cons. simpl fill_rets. unmonad.
  repeat (case_match; simplify_eq/=; try done); intros; simplify_eq; eauto.
Qed.

(** The dictionary that [get_pair_contract_trades_async] returns. *)
Lemma get_pair_contract_trades_rets E pair from_block to_block fetch w rets w' :
  get_pair_contract_trades_async E pair from_block to_block fetch w
    = (Ok rets, w') →
  ∃ swaps mints burns t1 t2 t3 ts,
    get_events_logs E "Swap" pair from_block to_block = Ok swaps ∧
    get_events_logs E "Mint" pair from_block to_block = Ok mints ∧
    get_events_logs E "Burn" pair from_block to_block = Ok burns ∧
    rets = [("Swap", EventEntry (decoded_log <$> swaps) t1);
            ("Mint", EventEntry (decoded_log <$> mints) t2);
            ("Burn", EventEntry (decoded_log <$> burns) t3);
            ("timestamp", TimestampEntry ts)].
Proof.
  unfold get_pair_contract_trades_async.
  pose proof (fill_rets_three E) as Hthree. revert Hthree.
  generalize (fill_rets E). intros fr Hthree. unmonad. intros H.
  destruct (script_load E); [done|].
  destruct (rate_limit_gate _ _ _ _ _ _ _ _ _) as [[[]|] w0]; try done.
  destruct (get_events_logs E "Swap" _ _ _) as [swaps|]; [|by repeat case_match].
  destruct (get_events_logs E "Mint" _ _ _) as [mints|]; [|by repeat case_match].
  destruct (get_events_logs E "Burn" _ _ _) as [burns|]; [|by repeat case_match].
  exists swaps, mints, burns.
  repeat (case_match; simplify_eq/=; try done).
  all: match goal with
       | Hf : _ = (Ok _, _) |- _ =>
           apply Hthree in Hf as (t1 & t2 & t3 & ->)
       end; simpl; eauto 10.
Qed.

(** The events of the snapshot are gathered kind by kind. *)
Lemma sum_events_rets l1 l2 l3 t1 t2 t3 ts acc :
  ∃ t,
    sum_events [("Swap", EventEntry l1 t1); ("Mint", EventEntry l2 t2);
                ("Burn", EventEntry l3 t3); ("timestamp", TimestampEntry ts)] acc
      = Ok t ∧
    final_events_list t = final_events_list acc ++ l1 ++ l2 ++ l3.
Proof.
  eexists. split; [reflexivity|]. simpl. by rewrite <- !app_assoc.
Qed.

Lemma snapshot_timestamp_rets v1 v2 v3 ts :
  snapshot_timestamp [("Swap", v1); ("Mint", v2); ("Burn", v3);
                      ("timestamp", TimestampEntry ts)] = Ok ts.
Proof. reflexivity. Qed.

(** C4, as the code has it.  The [events] of a trade-volume snapshot are
    the decoded Swap logs, then the decoded Mint logs, then the decoded Burn
    logs, each group in the order in which the node returned it; every
    record keeps the block number and log index of its log, so that a group
    is in (block number, log index) order whenever its logs are. *)
Theorem trade_events_grouped_by_kind
    (E : env) (msg_obj : process_message) (enqueue_on_failure : bool)
    (w w' : world) (snapshot : trades_snapshot) :
  _construct_trade_volume_epoch_snapshot_data E msg_obj enqueue_on_failure w
    = (Ok (Some snapshot), w') →
  ∃ swaps mints burns,
    get_events_logs E "Swap" (msg_contract msg_obj) (msg_begin msg_obj)
      (msg_end msg_obj) = Ok swaps ∧
    get_events_logs E "Mint" (msg_contract msg_obj) (msg_begin msg_obj)
      (msg_end msg_obj) = Ok mints ∧
    get_events_logs E "Burn" (msg_contract msg_obj) (msg_begin msg_obj)
      (msg_end msg_obj) = Ok burns ∧
    events snapshot
      = (decoded_log <$> swaps) ++ (decoded_log <$> mints) ++ (decoded_log <$> burns) ∧
    ∀ group, group ∈ [swaps; mints; burns] →
      logs_ordered group → events_ordered (decoded_log <$> group).
Proof.
  unfold _construct_trade_volume_epoch_snapshot_data. unmonad. intros H.
  destruct (get_pair_contract_trades_async _ _ _ _ _ _) as [[rets|e] w1] eqn:Hrets.
  - apply get_pair_contract_trades_rets in Hrets
      as (swaps & mints & burns & t1 & t2 & t3 & ts & Hs & Hm & Hb & ->).
    exists swaps, mints, burns. repeat (split; [done|]).
    destruct (sum_events_rets (decoded_log <$> swaps) (decoded_log <$> mints)
                (decoded_log <$> burns) t1 t2 t3 ts (Totals 0%Qc 0%Qc 0%Qc 0%Qc []))
      as (t & Hsum & Hev).
    rewrite Hsum, snapshot_timestamp_rets in H.
    split; [|intros; by apply events_ordered_decoded].
    revert H. destruct (truthy_int ts); simpl; intros H; simplify_eq/=;
      exact Hev.
  - destruct enqueue_on_failure; [destruct (rpush E _ _)|]; simplify_eq/=.
Qed.

Lemma trade_events_grouped_by_kind_witness :
  ∃ swaps mints burns,
    get_events_logs (Scenario.happy [Scenario.swap_105] [Scenario.mint_101] [])
      "Swap" "0xP" 100 109 = Ok swaps ∧
    get_events_logs (Scenario.happy [Scenario.swap_105] [Scenario.mint_101] [])
      "Mint" "0xP" 100 109 = Ok mints ∧
    get_events_logs (Scenario.happy [Scenario.swap_105] [Scenario.mint_101] [])
      "Burn" "0xP" 100 109 = Ok burns ∧
    events Scenario.swap_mint_snapshot
      = (decoded_log <$> swaps) ++ (decoded_log <$> mints) ++ (decoded_log <$> burns) ∧
    ∀ group, group ∈ [swaps; mints; burns] →
      logs_ordered group → events_ordered (decoded_log <$> group).
Proof.
  apply (trade_events_grouped_by_kind
           (Scenario.happy [Scenario.swap_105] [Scenario.mint_101] [])
           Scenario.work_unit true Scenario.start Scenario.swap_mint_run.2
           Scenario.swap_mint_snapshot).
  vm_compute. reflexivity.
Defined.

(** The snapshot of a Mint at block 101 and a Swap at block 105 lists the
    Swap first: its events are not in (block number, log index) order. *)
Lemma trade_events_not_in_block_order :
  Scenario.swap_mint_run.1 = Ok (Some Scenario.swap_mint_snapshot) ∧
  (record_position <$> events Scenario.swap_mint_snapshot)
    = [Some (105, 3); Some (101, 0)] ∧
  ¬ events_ordered (events Scenario.swap_mint_snapshot).
Proof.
  split; [vm_compute; reflexivity|].
  split; [vm_compute; reflexivity|].
  intros Hord.
  destruct (Hord 0%nat (decoded_log Scenario.swap_105)
              (decoded_log Scenario.mint_101))
    as (p & q & Hp & Hq & Hle); [vm_compute; reflexivity..|].
  rewrite record_position_decoded in Hp, Hq. simplify_eq.
  destruct Hle as [Hlt|[Heq _]]; simpl in *; lia.
Qed.

(** ** The per-block reserve computation of the pricing engine *)

Lemma truediv_nonzero x y : y ≠ 0%Qc → truediv x y = Ok (x / y)%Qc.
Proof. intros. unfold truediv. by rewrite decide_False. Qed.

Section reserves_loop.
Context (E : price_env) (md : pair_metadata) (white_token : string)
  (l : list (Z * Z * Z)).

Lemma reserves_loop_spec : ∀ blocks index P R w,
  NoDup blocks →
  (index + length blocks ≤ length l)%nat →
  ∃ P' R' t,
    reserves_loop E md white_token l blocks index P R w
      = (Ok (P', R'), PriceWorld (zsets w) (price_trace w ++ t)) ∧
    (∀ b, b ∉ blocks → P' !! b = P !! b ∧ R' !! b = R !! b) ∧
    (∀ b, b ∈ blocks → is_Some (P' !! b) ∧ is_Some (R' !! b)) ∧
    (∀ i b rs, blocks !! i = Some b → l !! (index + i)%nat = Some rs →
       zero_reserve md rs → P' !! b = Some 0%Qc ∧ R' !! b = Some 0%Qc) ∧
    (∀ b x y, Divide b x y ∈ t →
       ∃ i rs, blocks !! i = Some b ∧ l !! (index + i)%nat = Some rs ∧
               ¬ zero_reserve md rs).
Proof.
  induction blocks as [|b blocks IH]; intros index P R w Hnd Hlen.
  - exists P, R, []. simpl. unmonad. rewrite app_nil_r. destruct w.
    split; [done|]. split; [done|].
    split; [by intros ? ?%elem_of_nil|].
    split; [done|]. by intros ? ? ? ?%elem_of_nil.
  - simpl in Hlen. apply NoDup_cons in Hnd as [Hb Hnd].
    destruct (l !! index) as [rs|] eqn:Hrs;
      [|apply lookup_ge_None in Hrs; lia].
    set (r0 := scale_by_decimals rs.1.1 (decimals (token0 md))).
    set (r1 := scale_by_decimals rs.1.2 (decimals (token1 md))).
    (* the outcome of the body of the loop at block [b] *)
    assert (∃ price reserve t0,
      (if bool_decide (r0 = 0%Qc) || bool_decide (r1 = 0%Qc)
       then mret (0%Qc, 0%Qc)
       else if bool_decide (toChecksumAddress E (address (token0 md)) = white_token)
            then p ← divide b r0 r1; mret (p, r0)
            else p ← divide b r1 r0; mret (p, r1)) w
      = (Ok (price, reserve), PriceWorld (zsets w) (price_trace w ++ t0)) ∧
      (zero_reserve md rs → price = 0%Qc ∧ reserve = 0%Qc ∧ t0 = []) ∧
      (∀ b' x y, Divide b' x y ∈ t0 → b' = b ∧ ¬ zero_reserve md rs))
      as (price & reserve & t0 & Hbody & Hzero & Hdiv).
    { unfold zero_reserve. fold r0 r1.
      destruct (bool_decide (r0 = 0%Qc)) eqn:H0;
        [|destruct (bool_decide (r1 = 0%Qc)) eqn:H1]; simpl.
      - exists 0%Qc, 0%Qc, []. unmonad. rewrite app_nil_r. destruct w.
        split; [done|]. split; [done|]. by intros ? ? ? ?%elem_of_nil.
      - exists 0%Qc, 0%Qc, []. unmonad. rewrite app_nil_r. destruct w.
        split; [done|]. split; [done|]. by intros ? ? ? ?%elem_of_nil.
      - apply bool_decide_eq_false in H0, H1.
        destruct (bool_decide (_ = white_token)).
        + exists (r0 / r1)%Qc, r0, [Divide b r0 r1].
          unfold divide, price_emit. unmonad. simpl.
          rewrite (truediv_nonzero _ _ H1). simpl.
          split; [done|]. split; [by intros [?|?]|].
          intros b' x y Hx%list_elem_of_singleton. simplify_eq.
          split; [done|]. by intros [?|?].
        + exists (r1 / r0)%Qc, r1, [Divide b r1 r0].
          unfold divide, price_emit. unmonad. simpl.
          rewrite (truediv_nonzero _ _ H0). simpl.
          split; [done|]. split; [by intros [?|?]|].
          intros b' x y Hx%list_elem_of_singleton. simplify_eq.
          split; [done|]. by intros [?|?]. }
    destruct (IH (S index) (<[b := price]> P) (<[b := reserve]> R)
                (PriceWorld (zsets w) (price_trace w ++ t0)) Hnd ltac:(lia))
      as (P' & R' & t & Hrun & Hout & Hin & Hz & Hd).
    exists P', R', (t0 ++ t).
    split.
    { simpl reserves_loop. unfold mbind at 1, M_bind at 1, bind at 1.
      unfold lift at 1. rewrite Hrs. fold r0 r1.
      unfold mbind at 1, M_bind at 1, bind at 1. rewrite Hbody.
      rewrite Hrun. simpl. by rewrite app_assoc. }
    split.
    { intros b' Hb'. apply not_elem_of_cons in Hb' as [Hne Hb'].
      destruct (Hout b' Hb') as [-> ->].
      by rewrite !lookup_insert_ne. }
    split.
    { intros b' [->|Hb']%elem_of_cons; [|by apply Hin].
      destruct (Hout b Hb) as [-> ->].
      rewrite !lookup_insert_eq. eauto. }
    split.
    { intros [|i] b' rs' Hi Hl Hzr; simpl in Hi.
      - simplify_eq. rewrite Nat.add_0_r in Hl. simplify_eq.
        destruct (Hzero Hzr) as (-> & -> & _).
        destruct (Hout b' Hb) as [-> ->]. by rewrite !lookup_insert_eq.
      - apply (Hz i b' rs'); [done| |done].
        by replace (S index + i)%nat with (index + S i)%nat by lia. }
    intros b' x y [Hx|Hx]%elem_of_app.
    + destruct (Hdiv _ _ _ Hx) as [-> Hnz].
      exists 0%nat, rs. rewrite Nat.add_0_r. done.
    + destruct (Hd _ _ _ Hx) as (i & rs' & Hi & Hl & Hnz).
      exists (S i), rs'. split; [done|]. split; [|done].
      by replace (index + S i)%nat with (S index + i)%nat by lia.
Qed.
End reserves_loop.

(** C8.  When the batch call returned a result for every block, the
    per-block computation returns, without raising, a price and a
    whitelist-token reserve for every block of the range; at a block where
    either scaled reserve is zero both are 0 and no quotient of the two
    reserves is computed (the scaling by a power of ten, whose divisor is
    never zero, is all that is divided there). *)
Theorem zero_reserve_block_priced_zero
    (E : price_env) (pair_address : string) (from_block to_block : Z)
    (md : pair_metadata) (white_token : string) (w : price_world)
    (pair_reserves_list : list (Z * Z * Z)) :
  batch_getReserves E pair_address from_block to_block = Ok pair_reserves_list →
  to_block - (from_block - 1) ≤ Z.of_nat (length pair_reserves_list) →
  ∃ token_price_dict white_token_reserves_dict t,
    get_token_pair_price_and_white_token_reserves E pair_address from_block
      to_block md white_token w
    = (Ok (token_price_dict, white_token_reserves_dict),
       PriceWorld (zsets w) (price_trace w ++ t)) ∧
    (∀ b, from_block ≤ b ≤ to_block →
       is_Some (token_price_dict !! b) ∧
       is_Some (white_token_reserves_dict !! b)) ∧
    (∀ b rs, from_block ≤ b ≤ to_block →
       pair_reserves_list !! Z.to_nat (b - from_block) = Some rs →
       zero_reserve md rs →
       token_price_dict !! b = Some 0%Qc ∧
       white_token_reserves_dict !! b = Some 0%Qc ∧
       ∀ x y, Divide b x y ∉ t).
Proof.
  intros Hbatch Hlen.
  unfold get_token_pair_price_and_white_token_reserves.
  unfold mbind at 1, M_bind at 1, bind at 1, lift at 1. rewrite Hbatch.
  rewrite bool_decide_eq_false_2 by lia.
  destruct (reserves_loop_spec E md white_token pair_reserves_list
              (block_range from_block to_block) 0 ∅ ∅ w)
    as (P & R & t & Hrun & _ & Hin & Hz & Hd).
  { apply NoDup_seqZ. }
  { unfold block_range. rewrite length_seqZ. lia. }
  exists P, R, t. split; [exact Hrun|].
  assert (Hpos : ∀ b, from_block ≤ b ≤ to_block →
            block_range from_block to_block !! Z.to_nat (b - from_block) = Some b).
  { intros b Hb. unfold block_range. apply lookup_seqZ. lia. }
  split.
  { intros b Hb. apply Hin. unfold block_range. apply elem_of_seqZ. lia. }
  intros b rs Hb Hrs Hzero.
  destruct (Hz _ _ _ (Hpos b Hb) Hrs Hzero) as [HP HR].
  split; [done|]. split; [done|].
  intros x y Hdiv.
  destruct (Hd _ _ _ Hdiv) as (i & rs' & Hi & Hl & Hnz).
  unfold block_range in Hi. apply lookup_seqZ in Hi as [Hi ?].
  simpl in Hl. replace i with (Z.to_nat (b - from_block)) in Hl by lia.
  by simplify_eq.
Qed.

Lemma zero_reserve_block_priced_zero_witness :
  ∃ token_price_dict white_token_reserves_dict t,
    get_token_pair_price_and_white_token_reserves Scenario.weth_chain "0xPAIR"
      5 7 Scenario.weth_pair "0xWETH" Scenario.cold
    = (Ok (token_price_dict, white_token_reserves_dict),
       PriceWorld (zsets Scenario.cold) (price_trace Scenario.cold ++ t)) ∧
    (∀ b, 5 ≤ b ≤ 7 →
       is_Some (token_price_dict !! b) ∧
       is_Some (white_token_reserves_dict !! b)) ∧
    (∀ b rs, 5 ≤ b ≤ 7 →
       (Scenario.reserves_at <$> block_range 5 7) !! Z.to_nat (b - 5) = Some rs →
       zero_reserve Scenario.weth_pair rs →
       token_price_dict !! b = Some 0%Qc ∧
       white_token_reserves_dict !! b = Some 0%Qc ∧
       ∀ x y, Divide b x y ∉ t).
Proof.
  apply (zero_reserve_block_priced_zero Scenario.weth_chain "0xPAIR" 5 7
           Scenario.weth_pair "0xWETH" Scenario.cold
           (Scenario.reserves_at <$> block_range 5 7)).
  - reflexivity.
  - vm_compute. discriminate.
Defined.

(** In that run block 7, where the pair holds no WETH, is priced 0 and only
    blocks 5 and 6 see a division. *)
Example zero_reserve_run :
  let run := get_token_pair_price_and_white_token_reserves Scenario.weth_chain
               "0xPAIR" 5 7 Scenario.weth_pair "0xWETH" Scenario.cold in
  ∃ P R,
    run.1 = Ok (P, R) ∧
    divided_blocks (price_trace run.2) = [5; 6] ∧
    P !! 7 = Some 0%Qc ∧ R !! 7 = Some 0%Qc ∧
    P !! 5 = Some (Scenario.q 2) ∧ R !! 6 = Some (Q2Qc (4 # 10)).
Proof.
  eexists _, _. split; [vm_compute; reflexivity|].
  split; [vm_compute; reflexivity|].
  vm_compute. repeat split; f_equal; apply Qc_is_canon; reflexivity.
Qed.

(** ** The domain of the price map *)

(** C7.  Three calls on a cold cache.  Over [5, 5] the whitelist pair is
    deep enough and block 5 is priced; over [5, 6] it is not, both blocks
    are priced 0, and the cache now holds two members of height 5, which
    differ in their price, and one of height 6.  The call over [4, 6] then
    finds 3 = 6 - (4 - 1) members, takes the cache for complete, and returns
    a map without block 4. *)
Theorem cached_prices_miss_a_block :
  (∃ m, Scenario.first_call.1 = Ok m ∧ dom m = {[5]} ∧
        m !! 5 = Some (Scenario.q 2000)) ∧
  (∃ m, Scenario.second_call.1 = Ok m ∧ dom m = {[5; 6]} ∧
        m !! 5 = Some 0%Qc ∧ m !! 6 = Some 0%Qc) ∧
  Scenario.cached_heights Scenario.second_call.2 4 6 = [5; 5; 6] ∧
  ∃ m, Scenario.third_call.1 = Ok m ∧
       dom m = {[5; 6]} ∧ m !! 4 = None ∧ 4 ≤ 4 ≤ 6.
Proof.
  split.
  { eexists. split; [vm_compute; reflexivity|].
    split; [vm_compute; reflexivity|].
    vm_compute; f_equal; try (apply Qc_is_canon; reflexivity). }
  split.
  { eexists. split; [vm_compute; reflexivity|].
    split; [vm_compute; reflexivity|].
    split; vm_compute; f_equal; try (apply Qc_is_canon; reflexivity). }
  split; [vm_compute; reflexivity|].
  eexists. split; [vm_compute; reflexivity|].
  split; [vm_compute; reflexivity|].
  split; [vm_compute; reflexivity|lia].
Qed.

(** ** The whitelist cascade *)

(** A dictionary filled by a loop over the blocks. *)
Lemma lookup_foldl_insert (f : Z → Qc) (blocks : list Z) : ∀ (d : gmap Z Qc) b,
  foldl (λ d block_num, <[block_num := f block_num]> d) d blocks !! b
  = if decide (b ∈ blocks) then Some (f b) else d !! b.
Proof.
  induction blocks as [|b0 blocks IH]; intros d b.
  - destruct (decide (b ∈ [])) as [H|_]; [by apply elem_of_nil in H|done].
  - cbn [foldl]. rewrite IH. destruct (decide (b ∈ blocks)) as [Hin|Hnin].
    + rewrite decide_True; [done|]. by right.
    + destruct (decide (b = b0)) as [->|Hne].
      * rewrite decide_True by (by left). by rewrite lookup_insert_eq.
      * rewrite decide_False; [by rewrite lookup_insert_ne|].
        by intros [?|?]%elem_of_cons.
Qed.

Lemma elem_of_block_range (a b k : Z) : k ∈ block_range a b ↔ a ≤ k ≤ b.
Proof. unfold block_range. rewrite elem_of_seqZ. lia. Qed.

Lemma liquidity_scan_cons (p r d : gmap Z Qc) b blocks acc :
  liquidity_scan (b :: blocks) p r d acc =
  match r !! b, d !! b with
  | Some rb, Some db =>
      if bool_decide (rb * db < 1)%Qc then Ok (true, acc)
      else match p !! b with
           | Some pb => liquidity_scan blocks p r d (<[b := (pb * db)%Qc]> acc)
           | None => Raise TypeError
           end
  | _, _ => Raise TypeError
  end.
Proof.
  simpl. unfold operand.
  destruct (r !! b); [|reflexivity]. destruct (d !! b); [|reflexivity]. simpl.
  destruct (bool_decide _); [reflexivity|]. by destruct (p !! b).
Qed.

(** The scan stops with the flag set at the first block whose reserve, in
    ETH, is below 1, whatever had been stored before. *)
Lemma liquidity_scan_below (p r d : gmap Z Qc) : ∀ blocks acc,
  (∀ b, b ∈ blocks → is_Some (p !! b) ∧ is_Some (r !! b) ∧ is_Some (d !! b)) →
  (∃ b rb db, b ∈ blocks ∧ r !! b = Some rb ∧ d !! b = Some db ∧
              (rb * db < 1)%Qc) →
  ∃ acc', liquidity_scan blocks p r d acc = Ok (true, acc').
Proof.
  induction blocks as [|b0 blocks IH]; intros acc Hdef (b & rb & db & Hb & Hr & Hd & Hlt).
  - by apply elem_of_nil in Hb.
  - destruct (Hdef b0 ltac:(left)) as ([p0 Hp0] & [r0 Hr0] & [d0 Hd0]).
    rewrite liquidity_scan_cons, Hr0, Hd0, Hp0.
    destruct (bool_decide (r0 * d0 < 1)%Qc) eqn:Hcmp; [by eexists|].
    apply IH.
    + intros b' Hb'. apply Hdef. by right.
    + apply elem_of_cons in Hb as [->|Hb].
      * simplify_eq. by apply bool_decide_eq_false in Hcmp.
      * eauto 10.
Qed.

(** The three series of a whitelist token have an entry for every block. *)
Lemma pair_price_defined E pair from_block to_block md white_token w P R w' :
  get_token_pair_price_and_white_token_reserves E pair from_block to_block md
    white_token w = (Ok (P, R), w') →
  ∀ b, from_block ≤ b ≤ to_block → is_Some (P !! b) ∧ is_Some (R !! b).
Proof.
  unfold get_token_pair_price_and_white_token_reserves.
  unfold mbind at 1, M_bind at 1, bind at 1, lift at 1.
  destruct (batch_getReserves E pair from_block to_block) as [l|]; [|done].
  destruct (bool_decide _) eqn:Hlen.
  { unfold price_emit. unmonad. done. }
  apply bool_decide_eq_false in Hlen.
  destruct (reserves_loop_spec E md white_token l
              (block_range from_block to_block) 0 ∅ ∅ w)
    as (P' & R' & t & Hrun & _ & Hin & _).
  { apply NoDup_seqZ. }
  { unfold block_range. rewrite length_seqZ. lia. }
  rewrite Hrun. intros ? b Hb. simplify_eq.
  apply Hin. by apply elem_of_block_range.
Qed.

Lemma derived_eth_loop_defined l : ∀ blocks index acc d,
  derived_eth_loop l blocks index acc = Ok d →
  ∀ b, b ∈ blocks ∨ is_Some (acc !! b) → is_Some (d !! b).
Proof.
  induction blocks as [|b0 blocks IH]; intros index acc d Hrun b Hb.
  - simpl in Hrun. simplify_eq. destruct Hb as [?%elem_of_nil|?]; done.
  - simpl in Hrun. unmonad.
    destruct (l !! index) as [o|]; [|done]. simpl in Hrun.
    destruct (unpack_second o) as [e|]; [|done]. simpl in Hrun.
    apply (IH _ _ _ Hrun).
    destruct Hb as [[->|Hb]%elem_of_cons|Hb]; [right|by left|right].
    + rewrite lookup_insert_eq. eauto.
    + destruct (decide (b = b0)) as [->|Hne].
      * rewrite lookup_insert_eq. eauto.
      * by rewrite lookup_insert_ne.
Qed.

Lemma derived_eth_defined E from_block to_block wm w d w' :
  get_token_derived_eth E from_block to_block wm w = (Ok d, w') →
  ∀ b, from_block ≤ b ≤ to_block → is_Some (d !! b).
Proof.
  unfold get_token_derived_eth. intros Hrun b Hb.
  apply elem_of_block_range in Hb.
  destruct (bool_decide _).
  - unmonad. simplify_eq.
    rewrite (lookup_foldl_insert (λ _, 1%Qc)). rewrite decide_True by done. eauto.
  - revert Hrun. unfold mbind at 1, M_bind at 1, bind at 1, lift at 1.
    destruct (batch_getAmountsOut _ _ _ _ _) as [l|]; [|done].
    destruct (bool_decide _); [unfold price_emit; unmonad; done|].
    unfold lift.
    destruct (derived_eth_loop _ _ _ _) as [d'|] eqn:Hloop; [|done].
    intros ?. simplify_eq.
    eapply derived_eth_loop_defined; [exact Hloop|by left].
Qed.

Lemma white_token_series_defined E tm from_block to_block white_token w p r d w' :
  white_token_series E tm from_block to_block white_token w
    = (Ok (Some (p, r, d)), w') →
  ∀ b, from_block ≤ b ≤ to_block →
    is_Some (p !! b) ∧ is_Some (r !! b) ∧ is_Some (d !! b).
Proof.
  unfold white_token_series.
  unfold mbind at 1, M_bind at 1, bind at 1, lift at 1.
  destruct (get_pair E white_token (address tm)) as [pairAddress|]; [|done].
  destruct (bool_decide (pairAddress ≠ zero_address)); [|by unmonad].
  unfold mbind at 1, M_bind at 1, bind at 1, lift at 1.
  destruct (get_pair_metadata E pairAddress) as [md|]; [|done].
  unfold mbind at 1, M_bind at 1, bind at 1.
  destruct (get_token_pair_price_and_white_token_reserves _ _ _ _ _ _ _)
    as [[[P R]|] w1] eqn:Hpr; [|done].
  unfold mbind at 1, M_bind at 1, bind at 1.
  destruct (get_token_derived_eth _ _ _ _ _) as [[d'|] w2] eqn:Hd; [|done].
  unmonad. intros ? b Hb. simplify_eq/=.
  destruct (pair_price_defined _ _ _ _ _ _ _ _ _ _ Hpr b Hb).
  pose proof (derived_eth_defined _ _ _ _ _ _ _ Hd b Hb). done.
Qed.

Section cascade.
Context (E : price_env) (tm : token_metadata) (from_block to_block : Z).

Lemma whitelist_cascade_cons white_token rest acc w :
  whitelist_cascade E tm from_block to_block (white_token :: rest) acc w =
  match white_token_series E tm from_block to_block
          (toChecksumAddress E white_token) w with
  | (Ok None, w1) => whitelist_cascade E tm from_block to_block rest acc w1
  | (Ok (Some (p, r, d)), w1) =>
      match liquidity_scan (block_range from_block to_block) p r d acc with
      | Ok (true, _) => whitelist_cascade E tm from_block to_block rest ∅ w1
      | Ok (false, acc') => (Ok acc', w1)
      | Raise e => (Raise e, w1)
      end
  | (Raise e, w1) => (Raise e, w1)
  end.
Proof.
  simpl. unmonad.
  destruct (white_token_series _ _ _ _ _ _) as [[[[[p r] d]|]|] w1]; try done.
  by destruct (liquidity_scan _ _ _ _ _) as [[[] ?]|].
Qed.

Lemma whitelist_cascade_abandon white_token rest acc w p r d w1 :
  white_token_series E tm from_block to_block
    (toChecksumAddress E white_token) w = (Ok (Some (p, r, d)), w1) →
  below_threshold r d from_block to_block →
  whitelist_cascade E tm from_block to_block (white_token :: rest) acc w
  = whitelist_cascade E tm from_block to_block rest ∅ w1.
Proof.
  intros Hseries (b & rb & db & Hb & Hr & Hd & Hlt).
  rewrite whitelist_cascade_cons, Hseries.
  destruct (liquidity_scan_below p r d (block_range from_block to_block) acc)
    as [acc' ->]; [| |done].
  - intros b' Hb'%elem_of_block_range.
    by apply (white_token_series_defined _ _ _ _ _ _ _ _ _ _ Hseries).
  - exists b, rb, db. by rewrite elem_of_block_range.
Qed.

Lemma whitelist_cascade_none_deep_enough : ∀ whitelist w,
  (∀ white_token, white_token ∈ whitelist →
     never_deep_enough E tm from_block to_block white_token) →
  ∃ w', whitelist_cascade E tm from_block to_block whitelist ∅ w = (Ok ∅, w').
Proof.
  induction whitelist as [|white_token rest IH]; intros w Hall.
  - by eexists.
  - assert (Hrest : ∀ wt, wt ∈ rest → never_deep_enough E tm from_block to_block wt)
      by (intros; apply Hall; by right).
    destruct (Hall white_token ltac:(left) w)
      as (w1 & [Hnone|(p & r & d & Hseries & Hbelow)]).
    + rewrite whitelist_cascade_cons, Hnone. by apply IH.
    + rewrite (whitelist_cascade_abandon _ _ _ _ _ _ _ _ Hseries Hbelow).
      by apply IH.
Qed.
End cascade.

(** C2.  In the cascade of [get_token_price_in_block_range]: a whitelist
    token whose reserve, in ETH, is below 1 at some block of the range
    leaves nothing in [token_eth_price_dict], whatever was stored before the
    bad block, and the cascade goes on with the next whitelist token from an
    empty dictionary; and when no whitelist token meets the threshold at
    every block, the price map that is computed for a token that is not
    WETH has exactly the blocks of the range, each priced 0. *)
Theorem whitelist_below_threshold_abandoned
    (E : price_env) (tm : token_metadata) (from_block to_block : Z) :
  (∀ white_token rest acc w p r d w1,
     white_token_series E tm from_block to_block
       (toChecksumAddress E white_token) w = (Ok (Some (p, r, d)), w1) →
     below_threshold r d from_block to_block →
     whitelist_cascade E tm from_block to_block (white_token :: rest) acc w
     = whitelist_cascade E tm from_block to_block rest ∅ w1) ∧
  (∀ debug_log w,
     toChecksumAddress E (address tm) ≠ toChecksumAddress E (WETH E) →
     cache_miss E tm from_block to_block w →
     (∀ white_token, white_token ∈ uniswap_v2_whitelist E →
        never_deep_enough E tm from_block to_block white_token) →
     ∃ token_price_dict w',
       get_token_price_in_block_range E tm from_block to_block debug_log w
         = (Ok token_price_dict, w') ∧
       ∀ b, (is_Some (token_price_dict !! b) ↔ from_block ≤ b ≤ to_block) ∧
            (from_block ≤ b ≤ to_block → token_price_dict !! b = Some 0%Qc)).
Proof.
  split; [apply whitelist_cascade_abandon|].
  intros debug_log w Hweth (cached & w0 & Hcache & Hmiss) Hall.
  unfold get_token_price_in_block_range, try_catch.
  unfold mbind at 1, M_bind at 1, bind at 1. rewrite Hcache.
  assert (negb (bool_decide (cached = []))
          && bool_decide (Z.of_nat (length cached) = to_block - (from_block - 1))
          = false) as ->.
  { destruct Hmiss as [->|Hne]; [done|].
    rewrite (bool_decide_eq_false_2 _ Hne). apply andb_false_r. }
  rewrite (bool_decide_eq_false_2 _ Hweth).
  destruct (whitelist_cascade_none_deep_enough E tm from_block to_block
              (uniswap_v2_whitelist E) w0 Hall) as [w1 Hcascade].
  unfold mbind at 1, M_bind at 1, bind at 1.
  unfold mbind at 1, M_bind at 1, bind at 1.
  rewrite Hcascade. rewrite map_size_empty.
  rewrite (bool_decide_eq_false_2 (0 < 0)%nat) by lia.
  set (zeros := foldl (λ d block_num, <[block_num := 0%Qc]> d) ∅
                  (block_range from_block to_block)).
  assert (Hlook : ∀ b, zeros !! b
                       = if decide (b ∈ block_range from_block to_block)
                         then Some 0%Qc else None).
  { intros b. unfold zeros. by rewrite (lookup_foldl_insert (λ _, 0%Qc)). }
  assert (Hspec : ∀ b, (is_Some (zeros !! b) ↔ from_block ≤ b ≤ to_block) ∧
                       (from_block ≤ b ≤ to_block → zeros !! b = Some 0%Qc)).
  { intros b. rewrite Hlook, <- elem_of_block_range.
    destruct (decide _) as [Hin|Hnin]; split; try done.
    all: split; [|by eauto]; try done; by intros []. }
  clearbody zeros.
  unfold price_emit, zadd. unmonad.
  destruct debug_log, (bool_decide (0 < size zeros)%nat); simpl;
    eexists _, _; (split; [reflexivity|exact Hspec]).
Qed.

(** Over [5, 6] the WETH pair of the scenario holds 2 WETH at block 5 and
    0.4 WETH at block 6: it is fetched and then abandoned. *)
Lemma weth_never_deep_enough :
  never_deep_enough Scenario.weth_chain Scenario.priced_token 5 6 "0xWETH".
Proof.
  intros w. eexists. right. eexists _, _, _. split; [lazy; reflexivity|].
  exists 6. eexists _, _. split; [lia|].
  split; [lazy; reflexivity|]. split; [lazy; reflexivity|].
  vm_compute. reflexivity.
Qed.

Lemma whitelist_below_threshold_abandoned_witness :
  (∃ w1,
     whitelist_cascade Scenario.weth_chain Scenario.priced_token 5 6
       ["0xWETH"] ∅ Scenario.cold
     = whitelist_cascade Scenario.weth_chain Scenario.priced_token 5 6 [] ∅ w1) ∧
  ∃ token_price_dict w',
    get_token_price_in_block_range Scenario.weth_chain Scenario.priced_token
      5 6 true Scenario.cold = (Ok token_price_dict, w') ∧
    ∀ b, (is_Some (token_price_dict !! b) ↔ 5 ≤ b ≤ 6) ∧
         (5 ≤ b ≤ 6 → token_price_dict !! b = Some 0%Qc).
Proof.
  pose proof (whitelist_below_threshold_abandoned Scenario.weth_chain
                Scenario.priced_token 5 6) as [Habandon Hzero].
  split.
  - destruct (weth_never_deep_enough Scenario.cold)
      as (w1 & [Hnone|(p & r & d & Hseries & Hbelow)]).
    + vm_compute in Hnone. discriminate.
    + exists w1. exact (Habandon "0xWETH" [] ∅ Scenario.cold p r d w1 Hseries Hbelow).
  - apply (Hzero true Scenario.cold).
    + discriminate.
    + eexists _, _. split; [reflexivity|]. by left.
    + intros wt ->%list_elem_of_singleton. exact weth_never_deep_enough.
Defined.

(** On the path that recomputes, the price map of a token that is not WETH
    has exactly the blocks of the range: the loop that fills it runs over
    [range(from_block, to_block + 1)] whichever branch is taken. *)
Lemma recomputed_prices_cover_the_range
    (E : price_env) (tm : token_metadata) (from_block to_block : Z)
    (debug_log : bool) (w w' : price_world) (token_price_dict : gmap Z Qc) :
  toChecksumAddress E (address tm) ≠ toChecksumAddress E (WETH E) →
  cache_miss E tm from_block to_block w →
  get_token_price_in_block_range E tm from_block to_block debug_log w
    = (Ok token_price_dict, w') →
  ∀ b, is_Some (token_price_dict !! b) ↔ from_block ≤ b ≤ to_block.
Proof.
  intros Hweth (cached & w0 & Hcache & Hmiss).
  unfold get_token_price_in_block_range, try_catch.
  unfold mbind at 1, M_bind at 1, bind at 1. rewrite Hcache.
  assert (negb (bool_decide (cached = []))
          && bool_decide (Z.of_nat (length cached) = to_block - (from_block - 1))
          = false) as ->.
  { destruct Hmiss as [->|Hne]; [done|].
    rewrite (bool_decide_eq_false_2 _ Hne). apply andb_false_r. }
  rewrite (bool_decide_eq_false_2 _ Hweth).
  unfold mbind at 1, M_bind at 1, bind at 1.
  unfold mbind at 1, M_bind at 1, bind at 1.
  destruct (whitelist_cascade _ _ _ _ _ _ _) as [[acc|e] w1];
    [|unfold price_emit; unmonad; done].
  assert (Hfill : ∀ (f : Z → Qc) b,
            is_Some (foldl (λ d block_num, <[block_num := f block_num]> d)
                       (∅ : gmap Z Qc) (block_range from_block to_block) !! b)
            ↔ from_block ≤ b ≤ to_block).
  { intros f b. rewrite lookup_foldl_insert, <- elem_of_block_range.
    destruct (decide _); split; try done; eauto; by intros []. }
  destruct (bool_decide (0 < size acc)%nat).
  - unfold mbind at 1, M_bind at 1, bind at 1.
    unfold mbind at 1, M_bind at 1, bind at 1, lift at 1.
    destruct (get_eth_price_usd E from_block to_block) as [usd|];
      [|unfold price_emit; unmonad; done].
    unfold price_emit, zadd. unmonad.
    intros Hrun b. rewrite <- (Hfill (λ block_num,
      (default 0%Qc (acc !! block_num) * default 0%Qc (usd !! block_num))%Qc) b).
    revert Hrun. destruct debug_log; simpl;
      destruct (bool_decide _); simpl; intros; by simplify_eq.
  - unfold price_emit, zadd. unmonad.
    intros Hrun b. rewrite <- (Hfill (λ _, 0%Qc) b).
    revert Hrun. destruct debug_log; simpl;
      destruct (bool_decide _); simpl; intros; by simplify_eq.
Qed.

(** * Further properties *)

(** ** The rate-limit gate *)

(** X1.  The gate ends with [can_request] true exactly when every limit
    check either admitted the hit or raised an exception that the [except]
    clause names, and, unless [can_request] was true on entry, at least one
    check admitted it. *)
Theorem rate_limit_gate_admits_iff
    (E : env) (bypassed : exn → bool) (log_other : bool) (key_bits : string)
    (incr block : Z) (limits : list string) (can_request : bool) (w : world) :
  (∃ w', rate_limit_gate E bypassed log_other key_bits incr block limits
           can_request w = (Ok true, w'))
  ↔ (∀ lim, lim ∈ limits →
       passes bypassed (limiter_hit E lim incr key_bits block) = true) ∧
    (can_request = true ∨
     ∃ lim, lim ∈ limits ∧ limiter_hit E lim incr key_bits block = HitTrue).
Proof.
  revert can_request w.
  induction limits as [|lim limits IH]; intros can_request w; simpl.
  - unmonad. split.
    + intros [w' H]. simplify_eq. split; [by intros ? ?%elem_of_nil|by left].
    + intros [_ [->|(lim & Hin & _)]]; [by eexists|by apply elem_of_nil in Hin].
  - destruct (limiter_hit E lim incr key_bits block) as [|reset|e|e] eqn:Hhit.
    + rewrite IH. split.
      * intros [Hall _]. split.
        -- intros l [->|Hl]%elem_of_cons; [by rewrite Hhit|by apply Hall].
        -- right. exists lim. split; [by left|done].
      * intros [Hall _]. split; [|by left].
        intros l Hl. apply Hall. by right.
    + unmonad. split.
      * intros [w' H]. simplify_eq.
      * intros [Hall _]. specialize (Hall lim ltac:(left)).
        by rewrite Hhit in Hall.
    + destruct (bypassed e) eqn:Hb.
      * unmonad. simpl. rewrite IH. split.
        -- intros [Hall Hsome]. split.
           ++ intros l [->|Hl]%elem_of_cons; [by rewrite Hhit|by apply Hall].
           ++ destruct Hsome as [?|(l & Hl & Hl')]; [by left|].
              right. exists l. split; [by right|done].
        -- intros [Hall Hsome]. split.
           ++ intros l Hl. apply Hall. by right.
           ++ destruct Hsome as [?|(l & Hl & Hl')]; [by left|].
              apply elem_of_cons in Hl as [->|Hl]; [congruence|].
              right. by exists l.
      * split.
        -- intros [w' H]. destruct log_other; unmonad; simplify_eq.
        -- intros [Hall _]. specialize (Hall lim ltac:(left)).
           rewrite Hhit in Hall. simpl in Hall. congruence.
    + destruct (bypassed e) eqn:Hb.
      * unmonad. simpl. rewrite IH. split.
        -- intros [Hall Hsome]. split.
           ++ intros l [->|Hl]%elem_of_cons; [by rewrite Hhit|by apply Hall].
           ++ destruct Hsome as [?|(l & Hl & Hl')]; [by left|].
              right. exists l. split; [by right|done].
        -- intros [Hall Hsome]. split.
           ++ intros l Hl. apply Hall. by right.
           ++ destruct Hsome as [?|(l & Hl & Hl')]; [by left|].
              apply elem_of_cons in Hl as [->|Hl]; [congruence|].
              right. by exists l.
      * split.
        -- intros [w' H]. destruct log_other; unmonad; simplify_eq.
        -- intros [Hall _]. specialize (Hall lim ltac:(left)).
           rewrite Hhit in Hall. simpl in Hall. congruence.
Qed.

(** ** The reserve fetch *)

(** X2.  A reserve fetch that returns has read the reserves and the
    metadata of the pair: each amount is the reserve divided by ten to the
    decimals of its token, each USD value is the amount times the cached
    price of the token's symbol, or 0 when no price is cached, and the
    timestamp is that of the block header when it was asked for and
    obtained. *)
Theorem reserve_fetch_values
    (E : env) (pair_address : string) (block : Z) (fetch_timestamp : bool)
    (w w' : world) (r : reserve_total) :
  get_liquidity_of_each_token_reserve_async E pair_address block
    fetch_timestamp w = (Ok r, w') →
  ∃ reserves md,
    getReserves E pair_address block = Ok reserves ∧
    pair_per_token_metadata E pair_address = Some md ∧
    rt_token0 r = scale_by_decimals reserves.1 (decimals (token0 md)) ∧
    rt_token1 r = scale_by_decimals reserves.2 (decimals (token1 md)) ∧
    rt_token0USD r
      = match cached_token_price E (symbol (token0 md)) with
        | Some p => (rt_token0 r * p)%Qc
        | None => 0%Qc
        end ∧
    rt_token1USD r
      = match cached_token_price E (symbol (token1 md)) with
        | Some p => (rt_token1 r * p)%Qc
        | None => 0%Qc
        end ∧
    rt_timestamp r
      = if fetch_timestamp then
          match get_block E block with
          | Ok (Some d) => Some (block_timestamp d)
          | _ => None
          end
        else None.
Proof.
  intros Hrun.
  pose proof (get_liquidity_timestamp _ _ _ _ _ _ _ Hrun) as Hts.
  revert Hrun.
  unfold get_liquidity_of_each_token_reserve_async, usd_of. unmonad.
  intros Hrun.
  destruct (script_load E); [done|].
  destruct (rate_limit_gate _ _ _ _ _ _ _ _ _) as [[[]|] w0]; try done.
  destruct (getReserves E pair_address block) as [reserves|]; [|done].
  destruct (pair_per_token_metadata E pair_address) as [md|]; [|done].
  exists reserves, md. split; [done|]. split; [done|].
  destruct (cached_token_price E (symbol (token0 md))),
           (cached_token_price E (symbol (token1 md)));
    simplify_eq/=; repeat split; done.
Qed.

Lemma reserve_fetch_values_witness :
  ∃ reserves md,
    getReserves (Scenario.happy [] [] []) "0xP" 109 = Ok reserves ∧
    pair_per_token_metadata (Scenario.happy [] [] []) "0xP" = Some md ∧
    rt_token0 Scenario.happy_reserve
      = scale_by_decimals reserves.1 (decimals (token0 md)) ∧
    rt_token1 Scenario.happy_reserve
      = scale_by_decimals reserves.2 (decimals (token1 md)) ∧
    rt_token0USD Scenario.happy_reserve
      = match cached_token_price (Scenario.happy [] [] []) (symbol (token0 md)) with
        | Some p => (rt_token0 Scenario.happy_reserve * p)%Qc
        | None => 0%Qc
        end ∧
    rt_token1USD Scenario.happy_reserve
      = match cached_token_price (Scenario.happy [] [] []) (symbol (token1 md)) with
        | Some p => (rt_token1 Scenario.happy_reserve * p)%Qc
        | None => 0%Qc
        end ∧
    rt_timestamp Scenario.happy_reserve
      = match get_block (Scenario.happy [] [] []) 109 with
        | Ok (Some d) => Some (block_timestamp d)
        | _ => None
        end.
Proof.
  apply (reserve_fetch_values (Scenario.happy [] [] []) "0xP" 109 true
           Scenario.start Scenario.happy_fetch.2 Scenario.happy_reserve).
  vm_compute. reflexivity.
Defined.

(** ** The trades fetch *)




(** X4.  In the trades fetch too, when every limit check raises one of the
    exceptions that its [except] clause names, nothing admits the request:
    no log is fetched and the function raises, the rate-limit-exhausted
    exception when the script load went through. *)
Theorem trades_fetch_bypassed_errors_denied
    (E : env) (pair_address : string) (from_block to_block : Z)
    (fetch_timestamp : bool) (w : world) :
  (∀ lim, lim ∈ PARSED_LIMITS E →
     check_raises redis_errors (limiter_hit E lim 3 "eth_logs" to_block) = true) →
  ∃ e w',
    get_pair_contract_trades_async E pair_address from_block to_block
      fetch_timestamp w = (Raise e, w') ∧
    (script_load E = None → e = exhausted_api_key_rate_limit).
Proof.
  intros Hall. unfold get_pair_contract_trades_async.
  destruct (script_load E) as [e0|] eqn:Hload.
  - unmonad; simpl. eexists _, _; split; [reflexivity | discriminate].
  - destruct (rate_limit_gate_all_raise E redis_errors false "eth_logs" 3
                to_block (PARSED_LIMITS E) false w Hall) as [w1 Hgate].
    unmonad; simpl. rewrite Hgate. simpl.
    eexists _, _; split; [reflexivity | done].
Qed.

Lemma trades_fetch_bypassed_errors_denied_witness :
  ∃ e w',
    get_pair_contract_trades_async Scenario.pool_closed "0xP" 100 109 true
      Scenario.start = (Raise e, w') ∧
    (script_load Scenario.pool_closed = None → e = exhausted_api_key_rate_limit).
Proof.
  apply (trades_fetch_bypassed_errors_denied Scenario.pool_closed "0xP" 100 109
           true Scenario.start).
  intros lim _. reflexivity.
Defined.

(** X5.  The dictionary that the trades fetch returns has the keys [Swap],
    [Mint], [Burn] and [timestamp], in this order; under each event name
    are the decoded logs that the node returned for it, one record per log
    and in the same order, and under [timestamp] is the timestamp of the
    header of [to_block], or [None] when the header was not asked for or
    could not be fetched. *)
Theorem trades_fetch_shape
    (E : env) (pair_address : string) (from_block to_block : Z)
    (fetch_timestamp : bool) (w w' : world) (rets : list (string * rets_value)) :
  get_pair_contract_trades_async E pair_address from_block to_block
    fetch_timestamp w = (Ok rets, w') →
  ∃ swaps mints burns t1 t2 t3,
    get_events_logs E "Swap" pair_address from_block to_block = Ok swaps ∧
    get_events_logs E "Mint" pair_address from_block to_block = Ok mints ∧
    get_events_logs E "Burn" pair_address from_block to_block = Ok burns ∧
    rets = [("Swap", EventEntry (decoded_log <$> swaps) t1);
            ("Mint", EventEntry (decoded_log <$> mints) t2);
            ("Burn", EventEntry (decoded_log <$> burns) t3);
            ("timestamp",
             TimestampEntry
               (if fetch_timestamp then
                  match get_block E to_block with
                  | Ok (Some d) => Some (block_timestamp d)
                  | _ => None
                  end
                else None))].
Proof.
  unfold get_pair_contract_trades_async.
  pose proof (fill_rets_three E) as Hthree. revert Hthree.
  generalize (fill_rets E). intros fr Hthree. unmonad. intros H.
  destruct (script_load E); [done|].
  destruct (rate_limit_gate _ _ _ _ _ _ _ _ _) as [[[]|] w0]; try done.
  destruct (get_events_logs E "Swap" _ _ _) as [swaps|]; [|by repeat case_match].
  destruct (get_events_logs E "Mint" _ _ _) as [mints|]; [|by repeat case_match].
  destruct (get_events_logs E "Burn" _ _ _) as [burns|]; [|by repeat case_match].
  exists swaps, mints, burns.
  destruct fetch_timestamp; [destruct (get_block E to_block) as [[d|]|]|];
    simpl in H;
    (destruct (fr _ _ _ _) as [[rets0|?] w2] eqn:Hfr; [|done]);
    apply Hthree in Hfr as (t1 & t2 & t3 & ->);
    simplify_eq/=; eauto 10.
Qed.

Lemma trades_fetch_shape_witness :
  ∃ swaps mints burns t1 t2 t3,
    get_events_logs (Scenario.happy [Scenario.swap_105] [Scenario.mint_101] [])
      "Swap" "0xP" 100 109 = Ok swaps ∧
    get_events_logs (Scenario.happy [Scenario.swap_105] [Scenario.mint_101] [])
      "Mint" "0xP" 100 109 = Ok mints ∧
    get_events_logs (Scenario.happy [Scenario.swap_105] [Scenario.mint_101] [])
      "Burn" "0xP" 100 109 = Ok burns ∧
    Scenario.swap_mint_rets
    = [("Swap", EventEntry (decoded_log <$> swaps) t1);
       ("Mint", EventEntry (decoded_log <$> mints) t2);
       ("Burn", EventEntry (decoded_log <$> burns) t3);
       ("timestamp",
        TimestampEntry
          match get_block
                  (Scenario.happy [Scenario.swap_105] [Scenario.mint_101] []) 109
          with
          | Ok (Some d) => Some (block_timestamp d)
          | _ => None
          end)].
Proof.
  apply (trades_fetch_shape
           (Scenario.happy [Scenario.swap_105] [Scenario.mint_101] [])
           "0xP" 100 109 true Scenario.start Scenario.swap_mint_fetch.2
           Scenario.swap_mint_rets).
  vm_compute. reflexivity.
Defined.

(** ** Decoded records *)

(** X6.  A decoded record answers the four attributes of its log under
    [event], [blockNumber], [logIndex] and [transactionHash], also when an
    argument of the event has one of these names, and answers every other
    key as the arguments of the event do. *)
Theorem decoded_log_lookup (k : event_log) (key : string) :
  record_get key (decoded_log k)
  = if decide (key = "event") then Some (VStr (event k))
    else if decide (key = "blockNumber") then Some (VInt (blockNumber k))
    else if decide (key = "logIndex") then Some (VInt (logIndex k))
    else if decide (key = "transactionHash") then Some (VStr (transactionHash k))
    else dict_get key (args k).
Proof.
  unfold record_get, decoded_log.
  destruct (decide (key = "event")) as [->|H1]; [by rewrite dict_get_set_eq|].
  rewrite dict_get_set_ne by done.
  destruct (decide (key = "blockNumber")) as [->|H2]; [by rewrite dict_get_set_eq|].
  rewrite dict_get_set_ne by done.
  destruct (decide (key = "logIndex")) as [->|H3]; [by rewrite dict_get_set_eq|].
  rewrite dict_get_set_ne by done.
  destruct (decide (key = "transactionHash")) as [->|H4]; [by rewrite dict_get_set_eq|].
  by rewrite dict_get_set_ne.
Qed.

(** ** Trade volumes *)

(** What a call of [extract_trade_volume_data] that returns has computed:
    the running totals of its second loop, the metadata, and the two
    normalised volumes. *)
Lemma extract_trade_volume_data_totals E event_name event_logs md from_block
    w t w' :
  extract_trade_volume_data E event_name event_logs md from_block w = (Ok t, w') →
  ∃ values acc md',
    log_topic_values event_name event_logs = Ok values ∧
    accumulate_logs event_name (Swapped 0 0 None None) values = Ok acc ∧
    md = Some md' ∧
    token0TradeVolume t = scale_by_decimals (token0_swapped acc) (decimals (token0 md')) ∧
    token1TradeVolume t = scale_by_decimals (token1_swapped acc) (decimals (token1 md')) ∧
    (event_name = "Swap" →
       totalFeeUSD t
       = Some (match fee_usd (token0_fee acc)
                       (cached_token_price E (symbol (token0 md')))
                       (decimals (token0 md')) with
               | Some fee => fee
               | None =>
                   default 0%Qc
                     (fee_usd (token1_fee acc)
                        (cached_token_price E (symbol (token1 md')))
                        (decimals (token1 md')))
               end) ∧
       totalTradesUSD t
       = match cached_token_price E (symbol (token0 md')),
               cached_token_price E (symbol (token1 md')) with
         | Some p0, _ => (token0TradeVolume t * p0)%Qc
         | None, Some p1 => (token1TradeVolume t * p1)%Qc
         | None, None => 0%Qc
         end) ∧
    (event_name ≠ "Swap" →
       totalFeeUSD t = None ∧
       totalTradesUSD t
       = let usd := (default 0%Qc ((λ p, token0TradeVolume t * p)%Qc
                                     <$> cached_token_price E (symbol (token0 md')))
                     + default 0%Qc ((λ p, token1TradeVolume t * p)%Qc
                                       <$> cached_token_price E (symbol (token1 md'))))%Qc in
         if falsy_price (cached_token_price E (symbol (token0 md')))
            || falsy_price (cached_token_price E (symbol (token1 md')))
         then (usd * 2)%Qc else usd).
Proof.
  unfold extract_trade_volume_data.
  fold (log_topic_values event_name event_logs).
  generalize (extract_recent_transaction_logs E event_name event_logs md).
  intros recent. unmonad. intros H.
  destruct (log_topic_values event_name event_logs) as [values|]; [|done].
  destruct (accumulate_logs _ _ values) as [acc|] eqn:Hacc; [|done].
  destruct md as [md'|]; [|done]. simpl in H.
  exists values, acc, md'. split; [done|]. split; [exact Hacc|]. split; [done|].
  destruct (recent _ _ _) as [[rl|] w1]; [|done].
  destruct (bool_decide (event_name = "Swap")) eqn:Hswap.
  - apply bool_decide_eq_true in Hswap. simplify_eq/=.
    repeat split; try done; f_equal; by repeat case_match.
  - apply bool_decide_eq_false in Hswap.
    destruct (cached_token_price E (symbol (token0 md'))) as [p0|],
             (cached_token_price E (symbol (token1 md'))) as [p1|];
      simplify_eq/=; repeat split; try done; by repeat case_match.
Qed.

Lemma topics_get inputs log key :
  key ∈ inputs →
  dict_get key (topics_of inputs log)
  = Some (default VNone (dict_get key (args log))).
Proof.
  unfold topics_of. induction inputs as [|f inputs IH]; intros Hin.
  - by apply elem_of_nil in Hin.
  - simpl. destruct (decide (f = key)) as [->|Hne]; [done|].
    apply elem_of_cons in Hin as [->|Hin]; [done|by apply IH].
Qed.

Lemma as_int_topic key log a :
  as_int (Some (default VNone (dict_get key (args log)))) = Ok a →
  int_arg key log = a.
Proof.
  unfold int_arg. destruct (dict_get key (args log)) as [[]|]; simpl; congruence.
Qed.

Lemma is_zero_topic (o : option pyval) :
  is_zero (Some (default VNone o)) = is_zero o.
Proof. by destruct o as [[]|]. Qed.

Lemma mint_or_burn_not_swap event_name :
  is_mint_or_burn event_name = true → bool_decide (event_name = "Swap") = false.
Proof.
  unfold is_mint_or_burn. intros H. apply bool_decide_eq_false. intros ->.
  by vm_compute in H.
Qed.

(** The second loop, on Mint or Burn logs, adds up the two amounts and
    leaves the fees alone. *)
Lemma accumulate_logs_mint_burn event_name inputs :
  is_mint_or_burn event_name = true →
  "amount0" ∈ inputs → "amount1" ∈ inputs →
  ∀ logs acc acc',
    accumulate_logs event_name acc (topics_of inputs <$> logs) = Ok acc' →
    token0_swapped acc' = token0_swapped acc + sum_over (int_arg "amount0") logs ∧
    token1_swapped acc' = token1_swapped acc + sum_over (int_arg "amount1") logs ∧
    token0_fee acc' = token0_fee acc ∧ token1_fee acc' = token1_fee acc.
Proof.
  intros Hmb H0 H1. pose proof (mint_or_burn_not_swap _ Hmb) as Hns.
  induction logs as [|log logs IH]; intros acc acc' Hrun.
  - simpl in *. simplify_eq. rewrite !Z.add_0_r. done.
  - simpl in Hrun. unfold accumulate_log at 1 in Hrun.
    rewrite Hns, Hmb, !topics_get in Hrun by done.
    unmonad.
    destruct (as_int _) as [a0|] eqn:Ha0; [|done].
    destruct (as_int (Some (default VNone (dict_get "amount1" _)))) as [a1|] eqn:Ha1;
      [|done].
    simpl in Hrun. apply as_int_topic in Ha0, Ha1.
    apply IH in Hrun as (-> & -> & -> & ->). simpl. rewrite Ha0, Ha1.
    repeat split; lia.
Qed.

(** On Swap logs it adds up the input of one side and the output of the
    other. *)
Lemma accumulate_logs_swap inputs :
  "amount0In" ∈ inputs → "amount1In" ∈ inputs →
  "amount0Out" ∈ inputs → "amount1Out" ∈ inputs →
  ∀ logs acc acc',
    accumulate_logs "Swap" acc (topics_of inputs <$> logs) = Ok acc' →
    token0_swapped acc' = token0_swapped acc + sum_over (λ l, (swap_amounts l).1) logs ∧
    token1_swapped acc' = token1_swapped acc + sum_over (λ l, (swap_amounts l).2) logs.
Proof.
  intros H0i H1i H0o H1o.
  induction logs as [|log logs IH]; intros acc acc' Hrun.
  - simpl in *. simplify_eq. rewrite !Z.add_0_r. done.
  - simpl in Hrun. unfold accumulate_log at 1 in Hrun.
    rewrite bool_decide_eq_true_2, !topics_get, !is_zero_topic in Hrun by done.
    unmonad. simpl sum_over. unfold swap_amounts at 1 3.
    destruct (is_zero (dict_get "amount1In" (args log))).
    + destruct (as_int _) as [a0|] eqn:Ha0; [|done].
      destruct (as_int (Some (default VNone (dict_get "amount1Out" _))))
        as [a1|] eqn:Ha1; [|done].
      simpl in Hrun. apply as_int_topic in Ha0, Ha1.
      apply IH in Hrun as (-> & ->). simpl. rewrite Ha0, Ha1. split; lia.
    + destruct (is_zero (dict_get "amount0In" (args log))).
      * destruct (as_int _) as [a0|] eqn:Ha0; [|done].
        destruct (as_int (Some (default VNone (dict_get "amount1In" _))))
          as [a1|] eqn:Ha1; [|done].
        simpl in Hrun. apply as_int_topic in Ha0, Ha1.
        apply IH in Hrun as (-> & ->). simpl. rewrite Ha0, Ha1. split; lia.
      * simpl in Hrun. apply IH in Hrun as (-> & ->). simpl. split; lia.
Qed.

Lemma log_topic_values_mint_burn event_name logs values :
  is_mint_or_burn event_name = true →
  log_topic_values event_name logs = Ok values →
  ∃ inputs, values = topics_of inputs <$> logs ∧
            "amount0" ∈ inputs ∧ "amount1" ∈ inputs.
Proof.
  intros Hmb Hv. destruct logs as [|log logs].
  - simpl in Hv. simplify_eq. exists ["amount0"; "amount1"]. set_solver.
  - unfold log_topic_values in Hv.
    unfold is_mint_or_burn in Hmb. apply orb_true_iff in Hmb.
    destruct (uniswap_trade_events_abi_inputs event_name) as [inputs|] eqn:Habi;
      [|done].
    injection Hv as <-. exists inputs. split; [done|].
    destruct Hmb as [->%bool_decide_eq_true| ->%bool_decide_eq_true];
      vm_compute in Habi; injection Habi as <-; set_solver.
Qed.

(** X7.  For the Mint and for the Burn stream, a call of
    [extract_trade_volume_data] that returns gives, as the volume of each
    token, the sum of its amount over the logs divided by ten to the
    decimals of the token, and no fee; the USD volume adds what the two
    cached prices give and is doubled when a price is missing, or is 0. *)
Theorem mint_burn_volumes
    (E : env) (event_name : string) (event_logs : list event_log)
    (md : option pair_metadata) (from_block : Z) (w w' : world) (t : trades) :
  is_mint_or_burn event_name = true →
  extract_trade_volume_data E event_name event_logs md from_block w = (Ok t, w') →
  ∃ md', md = Some md' ∧
    token0TradeVolume t
      = scale_by_decimals (sum_over (int_arg "amount0") event_logs)
          (decimals (token0 md')) ∧
    token1TradeVolume t
      = scale_by_decimals (sum_over (int_arg "amount1") event_logs)
          (decimals (token1 md')) ∧
    totalFeeUSD t = None ∧
    totalTradesUSD t
      = let usd := (default 0%Qc ((λ p, token0TradeVolume t * p)%Qc
                                    <$> cached_token_price E (symbol (token0 md')))
                    + default 0%Qc ((λ p, token1TradeVolume t * p)%Qc
                                      <$> cached_token_price E (symbol (token1 md'))))%Qc in
        if falsy_price (cached_token_price E (symbol (token0 md')))
           || falsy_price (cached_token_price E (symbol (token1 md')))
        then (usd * 2)%Qc else usd.
Proof.
  intros Hmb Hrun.
  apply extract_trade_volume_data_totals in Hrun
    as (values & acc & md' & Hv & Hacc & -> & H0 & H1 & _ & Hother).
  destruct (log_topic_values_mint_burn _ _ _ Hmb Hv) as (inputs & -> & Hi0 & Hi1).
  apply (accumulate_logs_mint_burn _ _ Hmb Hi0 Hi1) in Hacc as (Ha0 & Ha1 & _).
  cbn [token0_swapped token1_swapped] in Ha0, Ha1.
  rewrite Z.add_0_l in Ha0, Ha1. rewrite Ha0 in H0. rewrite Ha1 in H1.
  destruct Hother as [Hfee Husd].
  { intros ->. by vm_compute in Hmb. }
  by exists md'.
Qed.

Lemma mint_burn_volumes_witness :
  ∃ md', Some Scenario.metadata = Some md' ∧
    token0TradeVolume Scenario.mint_trades
      = scale_by_decimals (sum_over (int_arg "amount0") [Scenario.mint_101])
          (decimals (token0 md')) ∧
    token1TradeVolume Scenario.mint_trades
      = scale_by_decimals (sum_over (int_arg "amount1") [Scenario.mint_101])
          (decimals (token1 md')) ∧
    totalFeeUSD Scenario.mint_trades = None ∧
    totalTradesUSD Scenario.mint_trades
      = let usd := (default 0%Qc ((λ p, token0TradeVolume Scenario.mint_trades * p)%Qc
                                    <$> cached_token_price (Scenario.happy [] [] [])
                                          (symbol (token0 md')))
                    + default 0%Qc ((λ p, token1TradeVolume Scenario.mint_trades * p)%Qc
                                      <$> cached_token_price (Scenario.happy [] [] [])
                                            (symbol (token1 md'))))%Qc in
        if falsy_price (cached_token_price (Scenario.happy [] [] []) (symbol (token0 md')))
           || falsy_price (cached_token_price (Scenario.happy [] [] []) (symbol (token1 md')))
        then (usd * 2)%Qc else usd.
Proof.
  apply (mint_burn_volumes (Scenario.happy [] [] []) "Mint" [Scenario.mint_101]
           (Some Scenario.metadata) 100 Scenario.start Scenario.mint_extract.2
           Scenario.mint_trades).
  - reflexivity.
  - vm_compute. reflexivity.
Defined.

Lemma swap_inputs :
  ∃ inputs, uniswap_trade_events_abi_inputs "Swap" = Some inputs ∧
    "amount0In" ∈ inputs ∧ "amount1In" ∈ inputs ∧
    "amount0Out" ∈ inputs ∧ "amount1Out" ∈ inputs.
Proof. eexists. split; [vm_compute; reflexivity|set_solver]. Qed.

Lemma log_topic_values_swap logs values :
  log_topic_values "Swap" logs = Ok values →
  ∃ inputs, values = topics_of inputs <$> logs ∧
    "amount0In" ∈ inputs ∧ "amount1In" ∈ inputs ∧
    "amount0Out" ∈ inputs ∧ "amount1Out" ∈ inputs.
Proof.
  destruct swap_inputs as (inputs & Habi & Hin). intros Hv.
  exists inputs. split; [|done].
  destruct logs; [simpl in Hv; by simplify_eq|].
  unfold log_topic_values in Hv. rewrite Habi in Hv. by simplify_eq.
Qed.

(** X8.  For the Swap stream, a call of [extract_trade_volume_data] that
    returns gives, as the volume of each token, the sum over the logs of
    what came in on the one side and went out on the other (nothing for a
    log with input on both sides), divided by ten to the decimals of the
    token; the USD volume is that of token0 at its cached price when there
    is one, else that of token1, else 0: one side only, never both. *)
Theorem swap_volumes
    (E : env) (event_logs : list event_log) (md : option pair_metadata)
    (from_block : Z) (w w' : world) (t : trades) :
  extract_trade_volume_data E "Swap" event_logs md from_block w = (Ok t, w') →
  ∃ md', md = Some md' ∧
    token0TradeVolume t
      = scale_by_decimals (sum_over (λ l, (swap_amounts l).1) event_logs)
          (decimals (token0 md')) ∧
    token1TradeVolume t
      = scale_by_decimals (sum_over (λ l, (swap_amounts l).2) event_logs)
          (decimals (token1 md')) ∧
    totalTradesUSD t
      = match cached_token_price E (symbol (token0 md')),
              cached_token_price E (symbol (token1 md')) with
        | Some p0, _ => (token0TradeVolume t * p0)%Qc
        | None, Some p1 => (token1TradeVolume t * p1)%Qc
        | None, None => 0%Qc
        end.
Proof.
  intros Hrun.
  apply extract_trade_volume_data_totals in Hrun
    as (values & acc & md' & Hv & Hacc & -> & H0 & H1 & Hswap & _).
  destruct (log_topic_values_swap _ _ Hv) as (inputs & -> & H0i & H1i & H0o & H1o).
  apply (accumulate_logs_swap _ H0i H1i H0o H1o) in Hacc as (Ha0 & Ha1).
  cbn [token0_swapped token1_swapped] in Ha0, Ha1.
  rewrite Z.add_0_l in Ha0, Ha1. rewrite Ha0 in H0. rewrite Ha1 in H1.
  destruct Hswap as [_ Husd]; [done|]. by exists md'.
Qed.

Lemma swap_volumes_witness :
  ∃ md', Some Scenario.metadata = Some md' ∧
    token0TradeVolume Scenario.swaps_trades
      = scale_by_decimals
          (sum_over (λ l, (swap_amounts l).1) [Scenario.swap_105; Scenario.swap_107])
          (decimals (token0 md')) ∧
    token1TradeVolume Scenario.swaps_trades
      = scale_by_decimals
          (sum_over (λ l, (swap_amounts l).2) [Scenario.swap_105; Scenario.swap_107])
          (decimals (token1 md')) ∧
    totalTradesUSD Scenario.swaps_trades
      = match cached_token_price (Scenario.happy [] [] []) (symbol (token0 md')),
              cached_token_price (Scenario.happy [] [] []) (symbol (token1 md')) with
        | Some p0, _ => (token0TradeVolume Scenario.swaps_trades * p0)%Qc
        | None, Some p1 => (token1TradeVolume Scenario.swaps_trades * p1)%Qc
        | None, None => 0%Qc
        end.
Proof.
  apply (swap_volumes (Scenario.happy [] [] []) [Scenario.swap_105; Scenario.swap_107]
           (Some Scenario.metadata) 100 Scenario.start Scenario.swaps_extract.2
           Scenario.swaps_trades).
  vm_compute. reflexivity.
Defined.

Lemma accumulate_logs_app event_name acc l1 l2 :
  accumulate_logs event_name acc (l1 ++ l2)
  = rbind (accumulate_logs event_name acc l1)
      (λ acc1, accumulate_logs event_name acc1 l2).
Proof.
  revert acc. induction l1 as [|x l1 IH]; intros acc; [done|].
  simpl. unmonad. destruct (accumulate_log event_name acc x); [|done].
  apply IH.
Qed.

(** Swap logs none of which has input on the token0 side only leave the
    token0 fee as it was. *)
Lemma accumulate_logs_keeps_fee0 inputs :
  "amount0In" ∈ inputs → "amount1In" ∈ inputs →
  "amount0Out" ∈ inputs → "amount1Out" ∈ inputs →
  ∀ logs acc acc',
    Forall (λ l, is_zero (dict_get "amount1In" (args l)) = false) logs →
    accumulate_logs "Swap" acc (topics_of inputs <$> logs) = Ok acc' →
    token0_fee acc' = token0_fee acc.
Proof.
  intros H0i H1i H0o H1o.
  induction logs as [|log logs IH]; intros acc acc' Hall Hrun.
  - simpl in Hrun. by simplify_eq.
  - apply Forall_cons in Hall as [Hlog Hall].
    simpl in Hrun. unfold accumulate_log at 1 in Hrun.
    rewrite bool_decide_eq_true_2, !topics_get, !is_zero_topic, Hlog in Hrun
      by done.
    unmonad. destruct (is_zero (dict_get "amount0In" (args log))).
    + destruct (as_int _) as [a0|]; [|done].
      destruct (as_int (Some (default VNone (dict_get "amount1In" _))))
        as [a1|]; [|done].
      simpl in Hrun. by apply IH in Hrun as ->.
    + simpl in Hrun. by apply IH in Hrun as ->.
Qed.

(** X9.  The Swap fee is not added up over the logs: when token0 has a
    cached price, it is 0.3 times the token0 input of the LAST log with
    input on the token0 side only (provided that input is not 0), at that
    price, whatever the logs before it brought in. *)
Theorem swap_fee_of_last_token0_input
    (E : env) (before after : list event_log) (log : event_log)
    (md : pair_metadata) (from_block : Z) (w w' : world) (t : trades) (p : Qc) :
  extract_trade_volume_data E "Swap" (before ++ log :: after) (Some md)
    from_block w = (Ok t, w') →
  is_zero (dict_get "amount1In" (args log)) = true →
  Forall (λ l, is_zero (dict_get "amount1In" (args l)) = false) after →
  int_arg "amount0In" log ≠ 0 →
  cached_token_price E (symbol (token0 md)) = Some p →
  totalFeeUSD t
  = Some (scale_by_decimals (int_arg "amount0In" log) (decimals (token0 md))
          * uniswap_LP_fee_rate * p)%Qc.
Proof.
  intros Hrun Hlog Hafter Hne Hp.
  apply extract_trade_volume_data_totals in Hrun
    as (values & acc & md' & Hv & Hacc & [= <-] & _ & _ & Hswap & _).
  destruct (log_topic_values_swap _ _ Hv) as (inputs & -> & H0i & H1i & H0o & H1o).
  destruct Hswap as [Hfee _]; [done|]. rewrite Hfee, Hp. clear Hfee.
  rewrite fmap_app, fmap_cons, accumulate_logs_app in Hacc.
  destruct (accumulate_logs "Swap" _ (topics_of inputs <$> before)) as [acc1|];
    [|done].
  simpl in Hacc. unfold accumulate_log at 1 in Hacc.
  rewrite bool_decide_eq_true_2, !topics_get, !is_zero_topic, Hlog in Hacc by done.
  unmonad.
  destruct (as_int _) as [a0|] eqn:Ha0; [|done].
  destruct (as_int (Some (default VNone (dict_get "amount1Out" _)))) as [a1|];
    [|done].
  simpl in Hacc. apply as_int_topic in Ha0. subst a0.
  apply (accumulate_logs_keeps_fee0 _ H0i H1i H0o H1o _ _ _ Hafter) in Hacc.
  rewrite Hacc. simpl. by rewrite (proj2 (Z.eqb_neq _ _) Hne).
Qed.

Lemma swap_fee_of_last_token0_input_witness :
  totalFeeUSD Scenario.swaps_trades
  = Some (scale_by_decimals (int_arg "amount0In" Scenario.swap_107)
            (decimals (token0 Scenario.metadata))
          * uniswap_LP_fee_rate * Scenario.q 2)%Qc.
Proof.
  apply (swap_fee_of_last_token0_input (Scenario.happy [] [] [])
           [Scenario.swap_105] [] Scenario.swap_107 Scenario.metadata 100
           Scenario.start Scenario.swaps_extract.2).
  - vm_compute. reflexivity.
  - reflexivity.
  - constructor.
  - vm_compute. discriminate.
  - reflexivity.
Defined.

(** ** The snapshot builders *)

(** What a builder that gives up does to the queue of failed epochs: the
    exception that the push raises, if it is asked for and raises. *)
Lemma dead_letter_outcome E msg_obj (enqueue_on_failure : bool) why {A} w :
  ((if enqueue_on_failure then
      redis_rpush E (uniswap_failed_pair_total_reserves_epochs_redis_q_f
                       (msg_contract msg_obj)) (msg_dict msg_obj);;
      emit (LogDebug why)
    else mret tt);; mret (@None A)) w
  = match (if enqueue_on_failure
           then rpush E (uniswap_failed_pair_total_reserves_epochs_redis_q_f
                           (msg_contract msg_obj)) (msg_dict msg_obj)
           else None) with
    | None =>
        (Ok None,
         World (trace w ++ dead_letter msg_obj enqueue_on_failure why) (ticks w))
    | Some e =>
        (Raise e,
         World (trace w ++
                [Rpush (uniswap_failed_pair_total_reserves_epochs_redis_q_f
                          (msg_contract msg_obj)) (msg_dict msg_obj)])
               (ticks w))
    end.
Proof.
  unfold dead_letter. unmonad. destruct enqueue_on_failure; simpl.
  - destruct (rpush E _ _); simpl; by rewrite <- ?app_assoc.
  - rewrite app_nil_r. by destruct w.
Qed.

(** X10.  The reserves build of an epoch that holds a block gives up
    before it has fetched anything: it returns [None], no partial snapshot,
    and its only effects are, when [enqueue_on_failure] is set, the push of
    the message onto the queue of failed epochs of the pair and then a line
    of the log.  Nothing catches what the push raises: the build then ends
    with that exception, and the line is not logged. *)
Theorem reserves_build_dead_letters
    (E : env) (msg_obj : process_message) (enqueue_on_failure : bool)
    (w : world) :
  msg_begin msg_obj ≤ msg_end msg_obj →
  ∃ r w',
    _construct_pair_reserves_epoch_snapshot_data E msg_obj enqueue_on_failure w
      = (r, w') ∧
    ticks w' = S (ticks w) ∧
    match (if enqueue_on_failure
           then rpush E (uniswap_failed_pair_total_reserves_epochs_redis_q_f
                           (msg_contract msg_obj)) (msg_dict msg_obj)
           else None) with
    | None =>
        r = Ok None ∧
        trace w' = trace w
                   ++ dead_letter msg_obj enqueue_on_failure
                        "Enqueued epoch broadcast ID because reserve query failed"
    | Some e =>
        r = Raise e ∧
        trace w' = trace w
                   ++ [Rpush (uniswap_failed_pair_total_reserves_epochs_redis_q_f
                                (msg_contract msg_obj)) (msg_dict msg_obj)]
    end.
Proof.
  intros Hle. rewrite (construct_pair_reserves_nonempty _ _ _ _ Hle).
  cbv zeta. unfold dead_letter. destruct enqueue_on_failure.
  - destruct (rpush E _ _) as [e|]; eexists _, _; by repeat split.
  - eexists _, _. repeat split. simpl. by rewrite app_nil_r.
Qed.

Lemma reserves_build_dead_letters_witness :
  ∃ r w',
    _construct_pair_reserves_epoch_snapshot_data Scenario.queue_down
      Scenario.work_unit true Scenario.start = (r, w') ∧
    ticks w' = S (ticks Scenario.start) ∧
    match (if true
           then rpush Scenario.queue_down
                  (uniswap_failed_pair_total_reserves_epochs_redis_q_f
                     (msg_contract Scenario.work_unit))
                  (msg_dict Scenario.work_unit)
           else None) with
    | None =>
        r = Ok None ∧
        trace w' = trace Scenario.start
                   ++ dead_letter Scenario.work_unit true
                        "Enqueued epoch broadcast ID because reserve query failed"
    | Some e =>
        r = Raise e ∧
        trace w' = trace Scenario.start
                   ++ [Rpush (uniswap_failed_pair_total_reserves_epochs_redis_q_f
                                (msg_contract Scenario.work_unit))
                         (msg_dict Scenario.work_unit)]
    end.
Proof.
  apply (reserves_build_dead_letters Scenario.queue_down Scenario.work_unit
           true Scenario.start).
  simpl. lia.
Defined.

(** The build of the witness, evaluated: the exception of the push leaves
    the build. *)
Example reserves_build_queue_down :
  _construct_pair_reserves_epoch_snapshot_data Scenario.queue_down
    Scenario.work_unit true Scenario.start
  = (Raise RedisConnectionError,
     World [Rpush "uniswap:failed_pair_total_reserves_epochs:0xP"
              (msg_dict Scenario.work_unit)] 1).
Proof. vm_compute. reflexivity. Qed.

(** X11.  A trades fetch that raises, whatever it raises, makes the
    trade-volume build give up: the exception is caught, and the build
    returns [None] after the push of the message onto the queue of failed
    epochs of the pair and a line of the log, both made only when
    [enqueue_on_failure] is set.  Nothing catches what the push raises: the
    build then ends with that exception, and the line is not logged. *)
Theorem trade_build_failed_fetch
    (E : env) (msg_obj : process_message) (enqueue_on_failure : bool)
    (w w1 : world) (e : exn) :
  get_pair_contract_trades_async E (msg_contract msg_obj)
    (msg_begin msg_obj) (msg_end msg_obj) true (after_clock w)
    = (Raise e, w1) →
  ∃ r w',
    _construct_trade_volume_epoch_snapshot_data E msg_obj enqueue_on_failure w
      = (r, w') ∧
    ticks w' = ticks w1 ∧
    match (if enqueue_on_failure
           then rpush E (uniswap_failed_pair_total_reserves_epochs_redis_q_f
                           (msg_contract msg_obj)) (msg_dict msg_obj)
           else None) with
    | None =>
        r = Ok None ∧
        trace w' = trace w1
                   ++ dead_letter msg_obj enqueue_on_failure
                        "Enqueued epoch broadcast ID because trade volume query failed"
    | Some e' =>
        r = Raise e' ∧
        trace w' = trace w1
                   ++ [Rpush (uniswap_failed_pair_total_reserves_epochs_redis_q_f
                                (msg_contract msg_obj)) (msg_dict msg_obj)]
    end.
Proof.
  intros Hfetch. unfold _construct_trade_volume_epoch_snapshot_data.
  unfold after_clock in Hfetch.
  unfold time_time, attempt. unfold mbind at 1 2, M_bind at 1 2, bind at 1 2.
  rewrite Hfetch. cbv beta iota.
  rewrite dead_letter_outcome.
  destruct (if enqueue_on_failure then _ else _); eexists _, _; by repeat split.
Qed.

Lemma trade_build_failed_fetch_witness :
  ∃ r w',
    _construct_trade_volume_epoch_snapshot_data Scenario.no_logs
      Scenario.work_unit true Scenario.start = (r, w') ∧
    ticks w' = ticks Scenario.no_logs_fetch.2 ∧
    match (if true
           then rpush Scenario.no_logs
                  (uniswap_failed_pair_total_reserves_epochs_redis_q_f
                     (msg_contract Scenario.work_unit))
                  (msg_dict Scenario.work_unit)
           else None) with
    | None =>
        r = Ok None ∧
        trace w' = trace Scenario.no_logs_fetch.2
                   ++ dead_letter Scenario.work_unit true
                        "Enqueued epoch broadcast ID because trade volume query failed"
    | Some e' =>
        r = Raise e' ∧
        trace w' = trace Scenario.no_logs_fetch.2
                   ++ [Rpush (uniswap_failed_pair_total_reserves_epochs_redis_q_f
                                (msg_contract Scenario.work_unit))
                         (msg_dict Scenario.work_unit)]
    end.
Proof.
  apply (trade_build_failed_fetch Scenario.no_logs Scenario.work_unit true
           Scenario.start Scenario.no_logs_fetch.2 RPCError).
  vm_compute. reflexivity.
Defined.

Lemma fill_rets_three_runs E swaps mints burns md from_block w rets w' :
  fill_rets E [("Swap", swaps); ("Mint", mints); ("Burn", burns)] md from_block w
    = (Ok rets, w') →
  ∃ t1 t2 t3 w1 w2,
    extract_trade_volume_data E "Swap" swaps md from_block w = (Ok t1, w1) ∧
    extract_trade_volume_data E "Mint" mints md from_block w1 = (Ok t2, w2) ∧
    extract_trade_volume_data E "Burn" burns md from_block w2 = (Ok t3, w') ∧
    rets = [("Swap", EventEntry (decoded_log <$> swaps) t1);
            ("Mint", EventEntry (decoded_log <$> mints) t2);
            ("Burn", EventEntry (decoded_log <$> burns) t3)].
Proof.
  rewrite !fill_rets_cons. simpl fill_rets.
  generalize (extract_trade_volume_data E). intros ex. unmonad. intros H.
  destruct (ex "Swap" swaps md from_block w) as [[t1|] w1] eqn:H1; [|done].
  destruct (ex "Mint" mints md from_block w1) as [[t2|] w2] eqn:H2; [|done].
  destruct (ex "Burn" burns md from_block w2) as [[t3|] w3] eqn:H3; [|done].
  simpl in H. injection H as <- <-. by exists t1, t2, t3, w1, w2.
Qed.

(** The three extractions behind the dictionary that
    [get_pair_contract_trades_async] returns. *)
Lemma get_pair_contract_trades_runs E pair from_block to_block fetch w rets w' :
  get_pair_contract_trades_async E pair from_block to_block fetch w
    = (Ok rets, w') →
  ∃ swaps mints burns t1 t2 t3 ts w0 w1 w2,
    get_events_logs E "Swap" pair from_block to_block = Ok swaps ∧
    get_events_logs E "Mint" pair from_block to_block = Ok mints ∧
    get_events_logs E "Burn" pair from_block to_block = Ok burns ∧
    extract_trade_volume_data E "Swap" swaps (pair_per_token_metadata E pair)
      from_block w0 = (Ok t1, w1) ∧
    extract_trade_volume_data E "Mint" mints (pair_per_token_metadata E pair)
      from_block w1 = (Ok t2, w2) ∧
    extract_trade_volume_data E "Burn" burns (pair_per_token_metadata E pair)
      from_block w2 = (Ok t3, w') ∧
    rets = [("Swap", EventEntry (decoded_log <$> swaps) t1);
            ("Mint", EventEntry (decoded_log <$> mints) t2);
            ("Burn", EventEntry (decoded_log <$> burns) t3);
            ("timestamp", TimestampEntry ts)].
Proof.
  unfold get_pair_contract_trades_async.
  pose proof (fill_rets_three_runs E) as Hthree. revert Hthree.
  generalize (fill_rets E). intros fr Hthree. unmonad. intros H.
  destruct (script_load E); [done|].
  destruct (rate_limit_gate _ _ _ _ _ _ _ _ _) as [[[]|] w0]; try done.
  destruct (get_events_logs E "Swap" _ _ _) as [swaps|]; [|by repeat case_match].
  destruct (get_events_logs E "Mint" _ _ _) as [mints|]; [|by repeat case_match].
  destruct (get_events_logs E "Burn" _ _ _) as [burns|]; [|by repeat case_match].
  exists swaps, mints, burns.
  repeat (case_match; simplify_eq/=; try done).
  all: match goal with
       | Hf : _ = (Ok _, _) |- _ =>
           apply Hthree in Hf as (t1 & t2 & t3 & wa & wb & Ha & Hb & Hc & ->)
       end; simpl; eexists t1, t2, t3, _, _, wa, wb; by repeat split.
Qed.

(** X12.  The totals of a trade-volume snapshot are, each rounded to six
    decimals, the sums over the Swap, Mint and Burn streams of what
    [extract_trade_volume_data] gave for the stream, the three extractions
    running one after the other on the metadata of the pair; the fee is
    that of the Swap stream alone, and the contract, the broadcast id and the
    range are those of the message. *)
Theorem trade_snapshot_totals
    (E : env) (msg_obj : process_message) (enqueue_on_failure : bool)
    (w w' : world) (snapshot : trades_snapshot) :
  _construct_trade_volume_epoch_snapshot_data E msg_obj enqueue_on_failure w
    = (Ok (Some snapshot), w') →
  ∃ swaps mints burns t1 t2 t3 w0 w1 w2 w3,
    let md := pair_per_token_metadata E (msg_contract msg_obj) in
    get_events_logs E "Swap" (msg_contract msg_obj) (msg_begin msg_obj)
      (msg_end msg_obj) = Ok swaps ∧
    get_events_logs E "Mint" (msg_contract msg_obj) (msg_begin msg_obj)
      (msg_end msg_obj) = Ok mints ∧
    get_events_logs E "Burn" (msg_contract msg_obj) (msg_begin msg_obj)
      (msg_end msg_obj) = Ok burns ∧
    extract_trade_volume_data E "Swap" swaps md (msg_begin msg_obj) w0 = (Ok t1, w1) ∧
    extract_trade_volume_data E "Mint" mints md (msg_begin msg_obj) w1 = (Ok t2, w2) ∧
    extract_trade_volume_data E "Burn" burns md (msg_begin msg_obj) w2 = (Ok t3, w3) ∧
    totalTrade snapshot
      = round6 (totalTradesUSD t1 + totalTradesUSD t2 + totalTradesUSD t3)%Qc ∧
    totalFee snapshot = round6 (default 0%Qc (totalFeeUSD t1)) ∧
    tv_token0TradeVolume snapshot
      = round6 (token0TradeVolume t1 + token0TradeVolume t2 + token0TradeVolume t3)%Qc ∧
    tv_token1TradeVolume snapshot
      = round6 (token1TradeVolume t1 + token1TradeVolume t2 + token1TradeVolume t3)%Qc ∧
    tv_contract snapshot = msg_contract msg_obj ∧
    tv_broadcast_id snapshot = msg_broadcast_id msg_obj ∧
    tv_chainHeightRange snapshot = EpochBase (msg_begin msg_obj) (msg_end msg_obj).
Proof.
  unfold _construct_trade_volume_epoch_snapshot_data. unmonad. intros H.
  destruct (get_pair_contract_trades_async _ _ _ _ _ _) as [[rets|e] wf] eqn:Hrets;
    [|destruct enqueue_on_failure; [destruct (rpush E _ _)|]; simplify_eq/=].
  apply get_pair_contract_trades_runs in Hrets
    as (swaps & mints & burns & t1 & t2 & t3 & ts & w0 & w1 & w2
        & Hs & Hm & Hb & H1 & H2 & H3 & ->).
  exists swaps, mints, burns, t1, t2, t3, w0, w1, w2, wf. cbv zeta.
  repeat (split; [done|]).
  pose proof (extract_trade_volume_data_totals _ _ _ _ _ _ _ _ H2)
    as (? & ? & ? & _ & _ & _ & _ & _ & _ & Hmint).
  pose proof (extract_trade_volume_data_totals _ _ _ _ _ _ _ _ H3)
    as (? & ? & ? & _ & _ & _ & _ & _ & _ & Hburn).
  destruct Hmint as [Hf2 _]; [done|]. destruct Hburn as [Hf3 _]; [done|].
  simpl in H. rewrite Hf2, Hf3 in H. simpl in H.
  assert (Hfee : ∀ x : Qc, (0 + x + 0 + 0 = x)%Qc) by (intros; ring).
  assert (Hsum : ∀ x y z : Qc, (0 + x + y + z = x + y + z)%Qc) by (intros; ring).
  rewrite Hfee, !Hsum in H.
  revert H. destruct (truthy_int ts); simpl; intros H; by simplify_eq/=.
Qed.

Lemma trade_snapshot_totals_witness :
  ∃ swaps mints burns t1 t2 t3 w0 w1 w2 w3,
    let E := Scenario.happy [Scenario.swap_105] [Scenario.mint_101] [] in
    let msg_obj := Scenario.work_unit in
    let snapshot := Scenario.swap_mint_snapshot in
    let md := pair_per_token_metadata E (msg_contract msg_obj) in
    get_events_logs E "Swap" (msg_contract msg_obj) (msg_begin msg_obj)
      (msg_end msg_obj) = Ok swaps ∧
    get_events_logs E "Mint" (msg_contract msg_obj) (msg_begin msg_obj)
      (msg_end msg_obj) = Ok mints ∧
    get_events_logs E "Burn" (msg_contract msg_obj) (msg_begin msg_obj)
      (msg_end msg_obj) = Ok burns ∧
    extract_trade_volume_data E "Swap" swaps md (msg_begin msg_obj) w0 = (Ok t1, w1) ∧
    extract_trade_volume_data E "Mint" mints md (msg_begin msg_obj) w1 = (Ok t2, w2) ∧
    extract_trade_volume_data E "Burn" burns md (msg_begin msg_obj) w2 = (Ok t3, w3) ∧
    totalTrade snapshot
      = round6 (totalTradesUSD t1 + totalTradesUSD t2 + totalTradesUSD t3)%Qc ∧
    totalFee snapshot = round6 (default 0%Qc (totalFeeUSD t1)) ∧
    tv_token0TradeVolume snapshot
      = round6 (token0TradeVolume t1 + token0TradeVolume t2 + token0TradeVolume t3)%Qc ∧
    tv_token1TradeVolume snapshot
      = round6 (token1TradeVolume t1 + token1TradeVolume t2 + token1TradeVolume t3)%Qc ∧
    tv_contract snapshot = msg_contract msg_obj ∧
    tv_broadcast_id snapshot = msg_broadcast_id msg_obj ∧
    tv_chainHeightRange snapshot = EpochBase (msg_begin msg_obj) (msg_end msg_obj).
Proof.
  apply (trade_snapshot_totals
           (Scenario.happy [Scenario.swap_105] [Scenario.mint_101] [])
           Scenario.work_unit true Scenario.start Scenario.swap_mint_run.2
           Scenario.swap_mint_snapshot).
  vm_compute. reflexivity.
Defined.

(** ** The handler *)

Lemma reserves_dict_serializable (m : gmap string Qc) :
  json_serializable (reserves_dict m) = true.
Proof.
  unfold reserves_dict. simpl. induction (map_to_list m) as [|kv l IH]; [done|].
  exact IH.
Qed.

(** An entry that [json.dumps] accepts is written with the reading of the
    clock as its score. *)
Lemma log_update_ok W msg_obj action info w :
  json_serializable (VDict info) = true →
  log_update W msg_obj action info w
  = (Ok tt,
     World (trace w ++
            [Zadd (uniswap_cb_broadcast_processing_logs_zset (msg_broadcast_id msg_obj))
               (wall_clock (chain W) (ticks w))
               (VDict [("worker", VStr (unique_id W));
                       ("update", VDict [("action", VStr action);
                                         ("info", VDict info)])])])
           (S (ticks w))).
Proof.
  intros Hinfo. unfold log_update, json_dumps.
  cbn [json_serializable forallb snd] in *. rewrite Hinfo.
  unfold emit, time_time. unmonad. reflexivity.
Qed.

(** Whatever [commit_payload] raises, the handler of the exception puts
    the exception object into the entry, [json.dumps] raises TypeError on it,
    and nothing is written. *)
Lemma commit_and_log_exception W msg_obj action stream c payload e w :
  commit_payload W c stream payload = Raise e →
  commit_and_log W msg_obj action stream (Ok c) payload w
  = (Raise TypeError,
     World (trace w ++
            [CommitPayload c stream payload;
             LogError "Exception committing snapshot to audit protocol"])
           (S (ticks w))).
Proof.
  intros He. unfold commit_and_log, log_update, json_dumps.
  unfold emit, time_time. unmonad. rewrite He. simpl.
  rewrite <- app_assoc. by destruct (json_serializable payload).
Qed.

(** The reserves build of an epoch that holds no block: the loop has
    nothing to call, and the snapshot is built, with empty maps. *)
Lemma construct_pair_reserves_empty E msg_obj enqueue_on_failure w :
  msg_end msg_obj < msg_begin msg_obj →
  _construct_pair_reserves_epoch_snapshot_data E msg_obj enqueue_on_failure w
  = (Ok (Some {| token0Reserves := ∅;
                 token1Reserves := ∅;
                 chainHeightRange :=
                   EpochBase (msg_begin msg_obj) (msg_end msg_obj);
                 timestamp := wall_clock E (ticks w);
                 contract := msg_contract msg_obj;
                 broadcast_id := msg_broadcast_id msg_obj |}),
     World (trace w) (S (ticks w))).
Proof.
  intros Hlt. unfold _construct_pair_reserves_epoch_snapshot_data, block_range.
  assert (seqZ (msg_begin msg_obj) (msg_end msg_obj - msg_begin msg_obj + 1) = [])
    as -> by (apply seqZ_nil; lia).
  reflexivity.
Qed.

(** X14.  An exception of the commit of the reserves snapshot ends the
    handler.  When the message parses, its epoch holds no block, so that a
    reserves snapshot is built, and [commit_payload] raises on the stream
    [pair_total_reserves], the handler raises TypeError: after the
    acknowledgement and two lines of the log it wrote the entry of the
    successful build, set the diff rule and called the commit; the failure
    of the commit is not entered into the processing log, and the
    trade-volume snapshot is never attempted. *)
Theorem reserves_commit_exception_ends_handler
    (W : worker_env) (body : string) (msg_obj : process_message) (w : world) :
  parse_raw W body = Ok msg_obj →
  msg_end msg_obj < msg_begin msg_obj →
  set_diff_rule W (msg_contract msg_obj) "pair_total_reserves" = None →
  (∀ payload, ∃ e,
     commit_payload W (msg_contract msg_obj) "pair_total_reserves" payload
     = Raise e) →
  ∃ w' t entry payload,
    _on_rabbitmq_message W body w = (Raise TypeError, w') ∧
    Forall log_effect t ∧
    entry_of entry = Some ("PairReserves.SnapshotBuild", "Success") ∧
    trace w' = trace w ++ Ack :: t
               ++ [entry;
                   SetDiffRule (msg_contract msg_obj) "pair_total_reserves";
                   CommitPayload (msg_contract msg_obj) "pair_total_reserves" payload;
                   LogError "Exception committing snapshot to audit protocol"].
Proof.
  intros Hparse Hempty Hrule Hcommit.
  unfold _on_rabbitmq_message. rewrite Hparse.
  unfold call_set_diff_rule, emit. unmonad.
  rewrite construct_pair_reserves_empty by done.
  rewrite log_update_ok
    by (cbv [json_serializable forallb snd reserves_snapshot_dict
             token0Reserves token1Reserves];
        by rewrite !reserves_dict_serializable).
  cbn [contract]. rewrite Hrule.
  match goal with
  | |- context [commit_and_log W msg_obj _ _ _ ?p] =>
      destruct (Hcommit p) as (e & He)
  end.
  rewrite (commit_and_log_exception _ _ _ _ _ _ e) by done.
  eexists _,
    [LogDebug "Got epoch to process for calculating total reserves for pair";
     LogDebug "Got aiohttp session cache. Attempting to snapshot total reserves data in epoch"],
    _, _.
  split; [reflexivity|].
  split; [by repeat constructor|]. split; cycle 1.
  - simpl. by rewrite <- !app_assoc.
  - reflexivity.
Qed.

Lemma reserves_commit_exception_ends_handler_witness :
  ∃ w' t entry payload,
    _on_rabbitmq_message
      (Scenario.inverted_worker (Scenario.audit_down (Scenario.happy [] [] [])))
      "inverted_unit" Scenario.start = (Raise TypeError, w') ∧
    Forall log_effect t ∧
    entry_of entry = Some ("PairReserves.SnapshotBuild", "Success") ∧
    trace w' = trace Scenario.start ++ Ack :: t
               ++ [entry;
                   SetDiffRule (msg_contract Scenario.inverted_unit)
                     "pair_total_reserves";
                   CommitPayload (msg_contract Scenario.inverted_unit)
                     "pair_total_reserves" payload;
                   LogError "Exception committing snapshot to audit protocol"].
Proof.
  apply (reserves_commit_exception_ends_handler
           (Scenario.inverted_worker
              (Scenario.audit_down (Scenario.happy [] [] [])))
           "inverted_unit" Scenario.inverted_unit Scenario.start).
  - reflexivity.
  - simpl. lia.
  - reflexivity.
  - intros payload. by exists HTTPError.
Defined.

(** The run of the witness, evaluated. *)
Example inverted_audit_down :
  Scenario.inverted_audit_down_run.1 = Raise TypeError ∧
  commits_on "pair_total_reserves" (trace Scenario.inverted_audit_down_run.2)
  = ["0xP"] ∧
  commits_on "trade_volume" (trace Scenario.inverted_audit_down_run.2) = [] ∧
  processing_log (trace Scenario.inverted_audit_down_run.2)
  = [("PairReserves.SnapshotBuild", "Success")].
Proof. vm_compute. done. Qed.

Lemma builder_effect_not_ack e : builder_effect e → not_ack e.
Proof. by destruct e. Qed.

Lemma on_rabbitmq_message_acks_once W body :
  ∀ w r w', _on_rabbitmq_message W body w = (r, w') →
    ∃ t, trace w' = trace w ++ Ack :: t ∧ Forall not_ack t.
Proof.
  intros w r w' Hrun. unfold _on_rabbitmq_message in Hrun.
  change (_on_rabbitmq_message W body w = (r, w')) in Hrun.
  assert (Hrest : ∀ rest : M world unit, appends not_ack rest →
            ∀ r w', (emit Ack;; rest) w = (r, w') →
            ∃ t, trace w' = trace w ++ Ack :: t ∧ Forall not_ack t).
  { intros rest Hrest r0 w0 H. unfold emit in H. unmonad.
    destruct (Hrest _ _ _ H) as (t & Ht & HF). exists t. simpl in Ht.
    by rewrite Ht, <- app_assoc. }
  eapply Hrest; [|exact Hrun]. clear.
  destruct (parse_raw W body) as [msg_obj|e]; [|destruct e; by appends_auto].
  do 2 (apply appends_bind; [by appends_auto|intros _ _]).
  apply appends_bind.
  { eapply appends_mono; [apply builder_effect_not_ack|].
    apply construct_pair_reserves_appends. }
  intros reserves _.
  apply appends_bind.
  { destruct reserves as [snapshot|].
    - apply appends_bind; [by apply log_update_appends|intros _ _].
      apply appends_bind;
        [unfold call_set_diff_rule; by appends_auto|intros _ _].
      by apply commit_and_log_appends.
    - apply appends_bind; [by appends_auto|intros _ _].
      by apply log_update_appends. }
  intros _ _.
  apply appends_bind.
  { eapply appends_mono; [apply builder_effect_not_ack|].
    apply construct_trade_volume_appends. }
  intros [tv|] _.
  - apply appends_bind; [by apply log_update_appends|intros _ _].
    apply appends_bind;
      [unfold call_set_diff_rule; by appends_auto|intros _ _].
    by apply commit_and_log_appends.
  - apply appends_bind; [by appends_auto|intros _ _].
    by apply log_update_appends.
Qed.

(** X15.  The handler acknowledges every message, as its first effect and
    once only, before it parses it: whatever the message holds and however
    the handler ends, normally or with an exception, the message is not
    left on the queue. *)
Theorem handler_acks_first_and_once
    (W : worker_env) (body : string) (w w' : world) (r : result unit) :
  _on_rabbitmq_message W body w = (r, w') →
  ∃ t, trace w' = trace w ++ Ack :: t ∧ Ack ∉ t.
Proof.
  intros Hrun.
  destruct (on_rabbitmq_message_acks_once W body _ _ _ Hrun) as (t & Ht & HF).
  exists t. split; [done|]. intros Hin.
  rewrite Forall_forall in HF. by apply (HF _ Hin).
Qed.

Lemma handler_acks_first_and_once_witness :
  ∃ t, trace Scenario.audit_down_run.2 = trace Scenario.start ++ Ack :: t ∧ Ack ∉ t.
Proof.
  apply (handler_acks_first_and_once
           (Scenario.audit_down (Scenario.happy [Scenario.swap_105] [] []))
           "work_unit" Scenario.start Scenario.audit_down_run.2
           Scenario.audit_down_run.1).
  vm_compute. reflexivity.
Defined.

(** X16.  Nothing catches an exception of the call that sets the diff
    rule: when the message parses, its epoch holds no block, so that a
    reserves snapshot is built, and the call raises for the stream
    [pair_total_reserves], the handler ends with that exception, after the
    entry of the successful build; no commit is made on any stream. *)
Theorem diff_rule_exception_ends_handler
    (W : worker_env) (body : string) (msg_obj : process_message) (w : world)
    (e : exn) :
  parse_raw W body = Ok msg_obj →
  msg_end msg_obj < msg_begin msg_obj →
  set_diff_rule W (msg_contract msg_obj) "pair_total_reserves" = Some e →
  ∃ w' t entry,
    _on_rabbitmq_message W body w = (Raise e, w') ∧
    Forall log_effect t ∧
    entry_of entry = Some ("PairReserves.SnapshotBuild", "Success") ∧
    trace w' = trace w ++ Ack :: t
               ++ [entry;
                   SetDiffRule (msg_contract msg_obj) "pair_total_reserves"].
Proof.
  intros Hparse Hempty Hrule.
  unfold _on_rabbitmq_message. rewrite Hparse.
  unfold call_set_diff_rule, emit. unmonad.
  rewrite construct_pair_reserves_empty by done.
  rewrite log_update_ok
    by (cbv [json_serializable forallb snd reserves_snapshot_dict
             token0Reserves token1Reserves];
        by rewrite !reserves_dict_serializable).
  cbn [contract]. rewrite Hrule.
  eexists _,
    [LogDebug "Got epoch to process for calculating total reserves for pair";
     LogDebug "Got aiohttp session cache. Attempting to snapshot total reserves data in epoch"],
    _.
  split; [reflexivity|].
  split; [by repeat constructor|]. split; cycle 1.
  - simpl. by rewrite <- !app_assoc.
  - reflexivity.
Qed.

Lemma diff_rule_exception_ends_handler_witness :
  ∃ w' t entry,
    _on_rabbitmq_message
      (Scenario.inverted_worker (Scenario.no_diff_rule (Scenario.happy [] [] [])))
      "inverted_unit" Scenario.start = (Raise HTTPError, w') ∧
    Forall log_effect t ∧
    entry_of entry = Some ("PairReserves.SnapshotBuild", "Success") ∧
    trace w' = trace Scenario.start ++ Ack :: t
               ++ [entry;
                   SetDiffRule (msg_contract Scenario.inverted_unit)
                     "pair_total_reserves"].
Proof.
  apply (diff_rule_exception_ends_handler
           (Scenario.inverted_worker
              (Scenario.no_diff_rule (Scenario.happy [] [] [])))
           "inverted_unit" Scenario.inverted_unit Scenario.start HTTPError).
  - reflexivity.
  - simpl. lia.
  - reflexivity.
Defined.

(** The run of the witness, evaluated. *)
Example inverted_no_diff_rule :
  Scenario.inverted_no_diff_rule_run.1 = Raise HTTPError ∧
  commits_on "pair_total_reserves" (trace Scenario.inverted_no_diff_rule_run.2)
  = [] ∧
  commits_on "trade_volume" (trace Scenario.inverted_no_diff_rule_run.2) = [] ∧
  processing_log (trace Scenario.inverted_no_diff_rule_run.2)
  = [("PairReserves.SnapshotBuild", "Success")].
Proof. vm_compute. done. Qed.

(** ** The distributor *)

Section distributor.
Import Distributor.

Lemma split_head_prefix sep s :
  ∃ h t, split sep s = h :: t ∧ String.prefix h s = true.
Proof.
  induction s as [|c s IH]; simpl.
  - by exists EmptyString, [].
  - destruct (bool_decide (c = sep)); [by eexists _, _|].
    destruct IH as (h & t & -> & Hp). exists (String c h), t.
    split; [done|]. simpl. by destruct (ascii_dec c c).
Qed.

Lemma contains_prefix sub s : String.prefix sub s = true → contains sub s = true.
Proof. destruct s; simpl; [done|]. by intros ->. Qed.

Lemma contains_cons sub c s : contains sub s = true → contains sub (String c s) = true.
Proof. intros H. cbn [contains]. rewrite H. apply orb_true_r. Qed.

(** The second piece of a split string occurs in the string. *)
Lemma split_second_contains sep s x :
  split sep s !! 1%nat = Some x → contains x s = true.
Proof.
  induction s as [|c s IH]; cbn [split]; [done|].
  destruct (bool_decide (c = sep)).
  - destruct (split_head_prefix sep s) as (h & t & -> & Hp).
    intros [= ->]. by apply contains_cons, contains_prefix.
  - destruct (split sep s) as [|h t]; [done|].
    intros H. by apply contains_cons, IH.
Qed.

(** X17.  The routing check of the distributor is decided by the second
    dot-separated piece of the routing key alone: the message is for the
    distributor exactly when that piece is [pair_total_reserves], whatever
    pieces follow.  The test for the name anywhere in the key only matters
    for a key without a dot: such a key is skipped when it does not
    mention the name, and raises IndexError when it does. *)
Theorem routing_check_by_second_piece (routing_key : string) :
  not_for_distributor routing_key
  = match split "." routing_key !! 1%nat with
    | Some second => Ok (negb (bool_decide (second = "pair_total_reserves")))
    | None =>
        if contains "pair_total_reserves" routing_key then Raise IndexError
        else Ok true
    end.
Proof.
  unfold not_for_distributor, item.
  destruct (contains "pair_total_reserves" routing_key) eqn:Hc; simpl.
  - by destruct (split "." routing_key !! 1%nat).
  - destruct (split "." routing_key !! 1%nat) as [second|] eqn:Hs; [|done].
    apply split_second_contains in Hs.
    rewrite bool_decide_eq_false_2; [done|]. intros ->. congruence.
Qed.

Lemma second_piece_passes_check routing_key :
  split "." routing_key !! 1%nat = Some "pair_total_reserves" →
  not_for_distributor routing_key = Ok false.
Proof.
  intros Hs. unfold not_for_distributor, item.
  by rewrite (split_second_contains _ _ _ Hs), Hs.
Qed.

Lemma publish_units_run D msg_obj cs : ∀ s,
  publish_units D msg_obj cs s
  = (Ok tt, State (actions s ++ publish_actions D msg_obj cs) (clock_readings s)).
Proof.
  induction cs as [|c cs IH]; intros s.
  - simpl. unfold publish_actions. simpl. rewrite app_nil_r. by destruct s.
  - cbn [publish_units]. unfold act. unmonad. rewrite IH. simpl.
    unfold publish_actions. simpl. by rewrite <- !app_assoc.
Qed.

Lemma callback_epoch_dict_serializable msg_obj :
  json_serializable (callback_epoch_dict msg_obj) = true.
Proof.
  unfold callback_epoch_dict. cbn [json_serializable forallb snd].
  rewrite !andb_true_r. by induction (contracts msg_obj).
Qed.

Lemma publish_log_dumps D msg_obj :
  json_dumps
    (VDict [("worker", VStr (distributor_id D));
            ("update",
             VDict [("action", VStr "RabbitMQ.Publish");
                    ("info",
                     VDict [("routing_key", VStr (worker_routing_key D));
                            ("exchange", VStr (exchange_of D));
                            ("msg", callback_epoch_dict msg_obj)])])])
  = Ok (VDict [("worker", VStr (distributor_id D));
               ("update",
                VDict [("action", VStr "RabbitMQ.Publish");
                       ("info",
                        VDict [("routing_key", VStr (worker_routing_key D));
                               ("exchange", VStr (exchange_of D));
                               ("msg", callback_epoch_dict msg_obj)])])]).
Proof.
  unfold json_dumps. cbn [json_serializable forallb snd].
  by rewrite callback_epoch_dict_serializable.
Qed.

Lemma published_publish_actions D msg_obj cs :
  published (publish_actions D msg_obj cs)
  = (λ c, msg_dict (process_unit msg_obj c)) <$> cs.
Proof.
  unfold published, publish_actions.
  induction cs as [|c cs IH]; [done|]. simpl. by f_equal.
Qed.

Lemma lower_char_idempotent c : lower_char (lower_char c) = lower_char c.
Proof.
  destruct c as [[] [] [] [] [] [] [] []]; reflexivity.
Qed.

Lemma lower_idempotent s : lower (lower s) = lower s.
Proof.
  induction s as [|c s IH]; [done|]. simpl. by rewrite lower_char_idempotent, IH.
Qed.

(** X18.  An epoch that is for the distributor and parses is fanned out:
    after the acknowledgement, one work unit is published per contract of
    the epoch, in the order of the epoch and duplicates included, each with
    the bounds and the broadcast id of the epoch and the contract in lower
    case (lowering it again changes nothing); the entry of the processing
    log is written once, last, whatever the number of contracts, with the
    reading of the clock as its score. *)
Theorem epoch_fanned_out_per_contract
    (D : distributor_env) (routing_key body : string) (delivery_tag : Z)
    (msg_obj : callback_epoch) (s : state) :
  split "." routing_key !! 1%nat = Some "pair_total_reserves" →
  parse_epoch D body = Ok msg_obj →
  ∃ s' t member,
    _distribute_callbacks D routing_key delivery_tag body s = (Ok tt, s') ∧
    actions s' = actions s ++ BasicAck delivery_tag :: t
                 ++ [ZaddLog (uniswap_cb_broadcast_processing_logs_zset
                                (epoch_broadcast_id msg_obj))
                       member (clock D (clock_readings s))] ∧
    published t = (λ c, msg_dict (process_unit msg_obj c)) <$> contracts msg_obj ∧
    (∀ c, lower (msg_contract (process_unit msg_obj c))
          = msg_contract (process_unit msg_obj c)) ∧
    (∀ a, a ∈ t → ∀ k m sc, a ≠ ZaddLog k m sc).
Proof.
  intros Hkey Hparse. unfold _distribute_callbacks.
  rewrite second_piece_passes_check by done.
  rewrite Hparse. unfold act, now. unmonad.
  rewrite publish_units_run. cbv beta iota zeta. rewrite publish_log_dumps.
  cbn [actions clock_readings].
  eexists _,
    (Debug "Got processed epoch to distribute among processors for total reserves of a pair"
     :: publish_actions D msg_obj (contracts msg_obj)), _.
  split; [reflexivity|]. split; [simpl; by rewrite <- !app_assoc|].
  split; [apply published_publish_actions|].
  split; [intros c; apply lower_idempotent|].
  intros a [->|Ha]%elem_of_cons k m sc; [done|].
  unfold publish_actions in Ha. apply list_elem_of_bind in Ha as (c & Ha & _).
  set_solver.
Qed.

Lemma epoch_fanned_out_per_contract_witness :
  ∃ s' t member,
    _distribute_callbacks Scenario.distributor
      "powerloom-backend-callback.pair_total_reserves.seeder" 7 "epoch"
      Scenario.idle = (Ok tt, s') ∧
    actions s' = actions Scenario.idle ++ BasicAck 7 :: t
                 ++ [ZaddLog (uniswap_cb_broadcast_processing_logs_zset
                                (epoch_broadcast_id Scenario.two_pairs))
                       member (clock Scenario.distributor
                                 (clock_readings Scenario.idle))] ∧
    published t = (λ c, msg_dict (process_unit Scenario.two_pairs c))
                    <$> contracts Scenario.two_pairs ∧
    (∀ c, lower (msg_contract (process_unit Scenario.two_pairs c))
          = msg_contract (process_unit Scenario.two_pairs c)) ∧
    (∀ a, a ∈ t → ∀ k m sc, a ≠ ZaddLog k m sc).
Proof.
  apply (epoch_fanned_out_per_contract Scenario.distributor
           "powerloom-backend-callback.pair_total_reserves.seeder" "epoch" 7
           Scenario.two_pairs Scenario.idle).
  - vm_compute. reflexivity.
  - reflexivity.
Defined.

(** X19.  A message that fails the routing check is acknowledged and
    nothing else: when the second dot-separated piece of its routing key is
    not [pair_total_reserves], the callback publishes nothing, writes nothing
    and does not read the body.  After the acknowledgement it returns, but
    for a key that has no dot and mentions [pair_total_reserves]: the check
    then raises IndexError, which nothing catches. *)
Theorem unrouted_message_only_acknowledged
    (D : distributor_env) (routing_key body : string) (delivery_tag : Z)
    (s : state) :
  split "." routing_key !! 1%nat ≠ Some "pair_total_reserves" →
  _distribute_callbacks D routing_key delivery_tag body s
  = (match split "." routing_key !! 1%nat,
           contains "pair_total_reserves" routing_key with
     | None, true => Raise IndexError
     | _, _ => Ok tt
     end,
     State (actions s ++ [BasicAck delivery_tag]) (clock_readings s)).
Proof.
  intros Hkey. unfold _distribute_callbacks, not_for_distributor, item.
  unfold act, now. unmonad.
  destruct (split "." routing_key !! 1%nat) as [second|].
  - destruct (negb (contains _ _)); simpl; [done|].
    rewrite bool_decide_eq_false_2 by congruence. done.
  - by destruct (contains "pair_total_reserves" routing_key).
Qed.

Lemma unrouted_message_only_acknowledged_witness :
  _distribute_callbacks Scenario.distributor "pair_total_reserves" 7 "epoch"
    Scenario.idle
  = (match split "." "pair_total_reserves" !! 1%nat,
           contains "pair_total_reserves" "pair_total_reserves" with
     | None, true => Raise IndexError
     | _, _ => Ok tt
     end,
     State (actions Scenario.idle ++ [BasicAck 7])
       (clock_readings Scenario.idle)).
Proof.
  apply (unrouted_message_only_acknowledged Scenario.distributor
           "pair_total_reserves" "epoch" 7 Scenario.idle).
  vm_compute. discriminate.
Defined.

(** The run of the witness, evaluated: a key without a dot that is the
    name itself. *)
Example dotless_key_raises :
  _distribute_callbacks Scenario.distributor "pair_total_reserves" 7 "epoch"
    Scenario.idle
  = (Raise IndexError, State [BasicAck 7] 0).
Proof. vm_compute. reflexivity. Qed.
End distributor.

(** ** The pricing engine *)

(** The scan of a series that is deep enough at every block stores the
    price in ETH of every block and does not set the flag. *)
Lemma liquidity_scan_deep (p r d : gmap Z Qc) : ∀ blocks acc,
  (∀ b, b ∈ blocks →
     is_Some (p !! b) ∧
     ∃ rb db, r !! b = Some rb ∧ d !! b = Some db ∧ ¬ (rb * db < 1)%Qc) →
  ∃ acc',
    liquidity_scan blocks p r d acc = Ok (false, acc') ∧
    (∀ b, b ∈ blocks →
       ∃ pb db, p !! b = Some pb ∧ d !! b = Some db ∧
                acc' !! b = Some (pb * db)%Qc) ∧
    (∀ b, b ∉ blocks → acc' !! b = acc !! b).
Proof.
  induction blocks as [|b0 blocks IH]; intros acc Hdeep.
  - exists acc. split; [done|]. split; [|done]. by intros b ?%elem_of_nil.
  - destruct (Hdeep b0 ltac:(left)) as ([p0 Hp0] & r0 & d0 & Hr0 & Hd0 & Hge).
    rewrite liquidity_scan_cons, Hr0, Hd0, Hp0.
    rewrite (bool_decide_eq_false_2 _ Hge).
    destruct (IH (<[b0 := (p0 * d0)%Qc]> acc)) as (acc' & -> & Hin & Hout).
    { intros b Hb. apply Hdeep. by right. }
    exists acc'. split; [done|]. split.
    + intros b [->|Hb]%elem_of_cons; [|by apply Hin].
      destruct (decide (b0 ∈ blocks)) as [Hb0|Hb0]; [by apply Hin|].
      exists p0, d0. by rewrite (Hout b0 Hb0), lookup_insert_eq.
    + intros b [Hne Hb]%not_elem_of_cons.
      by rewrite (Hout b Hb), lookup_insert_ne.
Qed.

(** X20.  The first whitelist token that is deep enough prices the token:
    when the series of a whitelist token are fetched and its reserve, in
    ETH, is at least 1 at every block of the range, the cascade ends there
    with, at every block of the range, the price against the whitelist token
    times what that token is worth in ETH; the tokens that follow in the
    whitelist are not consulted. *)
Theorem first_deep_enough_token_prices
    (E : price_env) (tm : token_metadata) (from_block to_block : Z)
    (white_token : string) (rest : list string) (acc p r d : gmap Z Qc)
    (w w1 : price_world) :
  white_token_series E tm from_block to_block
    (toChecksumAddress E white_token) w = (Ok (Some (p, r, d)), w1) →
  deep_enough r d from_block to_block →
  ∃ token_eth_price_dict,
    whitelist_cascade E tm from_block to_block (white_token :: rest) acc w
      = (Ok token_eth_price_dict, w1) ∧
    (∀ b, from_block ≤ b ≤ to_block →
       ∃ pb db, p !! b = Some pb ∧ d !! b = Some db ∧
                token_eth_price_dict !! b = Some (pb * db)%Qc) ∧
    (∀ b, ¬ (from_block ≤ b ≤ to_block) →
       token_eth_price_dict !! b = acc !! b).
Proof.
  intros Hseries Hdeep.
  rewrite whitelist_cascade_cons, Hseries.
  destruct (liquidity_scan_deep p r d (block_range from_block to_block) acc)
    as (acc' & -> & Hin & Hout).
  { intros b Hb%elem_of_block_range. split; [|by apply Hdeep].
    by apply (white_token_series_defined _ _ _ _ _ _ _ _ _ _ Hseries). }
  exists acc'. split; [done|]. split.
  - intros b Hb. by apply Hin, elem_of_block_range.
  - intros b Hb. apply Hout. by rewrite elem_of_block_range.
Qed.

Lemma first_deep_enough_token_prices_witness :
  ∃ token_eth_price_dict,
    whitelist_cascade Scenario.weth_chain Scenario.priced_token 5 5
      ["0xWETH"; "0xUSDC"] ∅ Scenario.cold
      = (Ok token_eth_price_dict, Scenario.weth_series.2) ∧
    (∀ b, 5 ≤ b ≤ 5 →
       ∃ pb db, Scenario.weth_series_maps.1.1 !! b = Some pb ∧
                Scenario.weth_series_maps.2 !! b = Some db ∧
                token_eth_price_dict !! b = Some (pb * db)%Qc) ∧
    (∀ b, ¬ (5 ≤ b ≤ 5) → token_eth_price_dict !! b = (∅ : gmap Z Qc) !! b).
Proof.
  apply (first_deep_enough_token_prices Scenario.weth_chain Scenario.priced_token
           5 5 "0xWETH" ["0xUSDC"] ∅ Scenario.weth_series_maps.1.1
           Scenario.weth_series_maps.1.2 Scenario.weth_series_maps.2
           Scenario.cold Scenario.weth_series.2).
  - vm_compute. reflexivity.
  - intros b Hb. assert (b = 5) as -> by lia.
    eexists _, _. split; [vm_compute; reflexivity|].
    split; [vm_compute; reflexivity|].
    intros H. vm_compute in H. discriminate.
Defined.

(** *** What leaves the cache alone *)

Lemma keeps_cache_ret {A} (a : A) : keeps_cache (mret a).
Proof. intros w r w' H. unmonad. by simplify_eq. Qed.

Lemma keeps_cache_raise {A} (e : exn) : keeps_cache (raise (A := A) e).
Proof. intros w r w' H. unmonad. by simplify_eq. Qed.

Lemma keeps_cache_lift {A} (x : result A) : keeps_cache (lift x).
Proof. intros w r w' H. unmonad. by simplify_eq. Qed.

Lemma keeps_cache_emit (e : price_effect) : keeps_cache (price_emit e).
Proof. intros w r w' H. unfold price_emit in H. unmonad. by simplify_eq. Qed.

Lemma keeps_cache_bind {A B} (m : M price_world A) (k : A → M price_world B) :
  keeps_cache m → (∀ a, keeps_cache (k a)) → keeps_cache (m ≫= k).
Proof.
  intros Hm Hk w r w' H. unmonad.
  destruct (m w) as [[a|e] w1] eqn:Hmw.
  - rewrite (Hk a _ _ _ H). by apply (Hm _ _ _ Hmw).
  - simplify_eq. by apply (Hm _ _ _ Hmw).
Qed.

Ltac keeps_step :=
  match goal with
  | |- keeps_cache (mret _) => apply keeps_cache_ret
  | |- keeps_cache (raise _) => apply keeps_cache_raise
  | |- keeps_cache (lift _) => apply keeps_cache_lift
  | |- keeps_cache (price_emit _) => apply keeps_cache_emit
  | |- keeps_cache (_ ≫= _) => apply keeps_cache_bind; [|intros ?]
  | |- keeps_cache (match ?x with _ => _ end) => destruct x
  | |- keeps_cache (if ?x then _ else _) => destruct x
  | |- keeps_cache (let '(_, _) := ?x in _) => destruct x
  end.
Ltac keeps_auto := repeat keeps_step; eauto.

Lemma reserves_loop_keeps_cache E md white_token l : ∀ blocks index P R,
  keeps_cache (reserves_loop E md white_token l blocks index P R).
Proof.
  induction blocks as [|b blocks IH]; intros index P R; simpl;
    unfold divide; keeps_auto.
Qed.

Lemma pair_price_keeps_cache E pair from_block to_block md white_token :
  keeps_cache (get_token_pair_price_and_white_token_reserves E pair from_block
                 to_block md white_token).
Proof.
  unfold get_token_pair_price_and_white_token_reserves.
  pose proof (reserves_loop_keeps_cache E md white_token).
  keeps_auto.
Qed.

Lemma derived_eth_keeps_cache E from_block to_block wm :
  keeps_cache (get_token_derived_eth E from_block to_block wm).
Proof. unfold get_token_derived_eth. keeps_auto. Qed.

Lemma white_token_series_keeps_cache E tm from_block to_block white_token :
  keeps_cache (white_token_series E tm from_block to_block white_token).
Proof.
  unfold white_token_series.
  pose proof (pair_price_keeps_cache E).
  pose proof (derived_eth_keeps_cache E).
  keeps_auto.
Qed.

Lemma whitelist_cascade_keeps_cache E tm from_block to_block : ∀ whitelist acc,
  keeps_cache (whitelist_cascade E tm from_block to_block whitelist acc).
Proof.
  pose proof (white_token_series_keeps_cache E tm from_block to_block).
  induction whitelist as [|wt rest IH]; intros acc; simpl; keeps_auto.
Qed.

(** *** The price cache *)

Lemma zinsert_perm s m zs : zinsert s m zs ≡ₚ (s, m) :: zs.
Proof.
  induction zs as [|[s' m'] zs IH]; simpl; [done|].
  destruct (s' <=? s); [|done]. rewrite IH. apply Permutation_swap.
Qed.

Lemma member_eqb_eq (a b : member) : member_eqb a b = true ↔ a = b.
Proof.
  destruct a, b. unfold member_eqb. simpl.
  rewrite andb_true_iff, !bool_decide_eq_true.
  split; [by intros [-> ->]|by intros [= -> ->]].
Qed.

Lemma filter_other_members (m : member) (zs : list (Z * member)) :
  (∀ x, x ∈ zs → x.2 ≠ m) →
  filter (λ x, negb (member_eqb x.2 m) = true) zs = zs.
Proof.
  induction zs as [|x zs IH]; intros Hall; [done|].
  rewrite filter_cons_True.
  - f_equal. apply IH. intros y Hy. apply Hall. by right.
  - apply negb_true_iff. apply not_true_iff_false. rewrite member_eqb_eq.
    apply Hall. by left.
Qed.

Section round_trip.
Context (from_block to_block : Z).

Lemma zadd_fresh_range (l : list (Z * Qc)) : ∀ zs0,
  NoDup l.*1 →
  (∀ hp, hp ∈ l → from_block ≤ hp.1 ≤ to_block) →
  filter (λ x : Z * member, from_block ≤ x.1 ∧ x.1 ≤ to_block) zs0 = [] →
  filter (λ x : Z * member, from_block ≤ x.1 ∧ x.1 ≤ to_block)
    (foldl (λ zs (x : member * Z), zadd_one x.2 x.1 zs) zs0
       ((λ hp : Z * Qc, ((hp.1, hp.2), hp.1)) <$> l))
  ≡ₚ (λ hp : Z * Qc, (hp.1, hp)) <$> l.
Proof.
  intros zs0. induction l as [|[h p] l IH] using rev_ind; intros Hnd Hin Hzs0.
  - simpl. by rewrite Hzs0.
  - rewrite fmap_app in Hnd. apply NoDup_app in Hnd as (Hnd & Hfresh & _).
    rewrite !fmap_app, foldl_app. simpl.
    set (zs := foldl _ zs0 _) in *.
    assert (IH' : filter (λ x : Z * member, from_block ≤ x.1 ∧ x.1 ≤ to_block) zs
                  ≡ₚ (λ hp : Z * Qc, (hp.1, hp)) <$> l).
    { apply IH; [done| |done]. intros hp Hhp. apply Hin, elem_of_app. by left. }
    unfold zadd_one. rewrite zinsert_perm.
    rewrite filter_cons_True.
    2:{ simpl. specialize (Hin (h, p)). simpl in Hin. apply Hin.
        apply elem_of_app. right. by left. }
    rewrite <- Permutation_cons_append. apply Permutation_skip.
    rewrite list_filter_filter.
    rewrite (list_filter_iff _ (λ x : Z * member,
               negb (member_eqb x.2 (h, p)) = true
               ∧ (from_block ≤ x.1 ∧ x.1 ≤ to_block))) by (intros; tauto).
    rewrite <- list_filter_filter, IH'.
    rewrite filter_other_members; [done|].
    intros x (hp & -> & Hhp)%list_elem_of_fmap Heq. simpl in Heq. subst hp.
    apply (Hfresh h); [|by left].
    apply list_elem_of_fmap. by exists (h, p).
Qed.
End round_trip.

Lemma foldl_insert_notin (ms : list (Z * Qc)) : ∀ (d0 : gmap Z Qc) k,
  k ∉ ms.*1 → foldl (λ d price, <[price.1 := price.2]> d) d0 ms !! k = d0 !! k.
Proof.
  induction ms as [|[k' v'] ms IH]; intros d0 k Hk; [done|].
  simpl in *. apply not_elem_of_cons in Hk as [Hne Hk].
  rewrite IH by done. by rewrite lookup_insert_ne.
Qed.

Lemma foldl_insert_in (ms : list (Z * Qc)) : ∀ (d0 : gmap Z Qc) k v,
  NoDup ms.*1 → (k, v) ∈ ms →
  foldl (λ d price, <[price.1 := price.2]> d) d0 ms !! k = Some v.
Proof.
  induction ms as [|[k' v'] ms IH]; intros d0 k v Hnd Hin.
  - by apply elem_of_nil in Hin.
  - simpl in *. apply NoDup_cons in Hnd as [Hk' Hnd].
    apply elem_of_cons in Hin as [[= -> ->]|Hin].
    + rewrite foldl_insert_notin by done. by rewrite lookup_insert_eq.
    + by apply IH.
Qed.

(** Reading a price map back from its members, in any order. *)
Lemma price_dict_of_members (d : gmap Z Qc) (ms : list member) :
  ms ≡ₚ map_to_list d → price_dict_of ms = d.
Proof.
  intros Hperm. apply map_eq. intros k. unfold price_dict_of.
  assert (Hnd : NoDup ms.*1).
  { rewrite Hperm. apply NoDup_fst_map_to_list. }
  destruct (d !! k) as [v|] eqn:Hk.
  - apply foldl_insert_in; [done|]. rewrite Hperm. by apply elem_of_map_to_list.
  - rewrite foldl_insert_notin; [done|].
    intros ([k' v] & -> & Hin)%list_elem_of_fmap. rewrite Hperm in Hin.
    apply elem_of_map_to_list in Hin. simpl in *. congruence.
Qed.

Section price_run.
Context (E : price_env) (tm : token_metadata) (from_block to_block : Z)
        (debug_log : bool).

(** The computation of the prices on a cache miss leaves the cache alone. *)
Lemma price_computation_keeps_cache :
  keeps_cache
    (if bool_decide (toChecksumAddress E (address tm)
                     = toChecksumAddress E (WETH E)) then
       lift (get_eth_price_usd E from_block to_block)
     else
       token_eth_price_dict ←
         whitelist_cascade E tm from_block to_block (uniswap_v2_whitelist E) ∅;
       token_price_dict ←
         (if bool_decide (0 < size token_eth_price_dict)%nat then
            eth_usd_price_dict ← lift (get_eth_price_usd E from_block to_block);
            mret (foldl (λ d block_num,
                     <[block_num :=
                         (default 0%Qc (token_eth_price_dict !! block_num)
                          * default 0%Qc (eth_usd_price_dict !! block_num))%Qc]> d)
                   ∅ (block_range from_block to_block))
          else
            mret (foldl (λ d block_num, <[block_num := 0%Qc]> d) ∅
                    (block_range from_block to_block)));
       (if debug_log then price_emit (Debug "price is | its eth price is")
        else mret tt);;
       mret token_price_dict).
Proof.
  pose proof (whitelist_cascade_keeps_cache E tm from_block to_block).
  keeps_auto.
Qed.

Lemma price_run_outcome w r w' :
  get_token_price_in_block_range E tm from_block to_block debug_log w = (r, w') →
  match r with
  | Raise _ =>
      zsets w' = zsets w ∧
      last (price_trace w') = Some (Trace "Error while calculating price of token")
  | Ok d =>
      cache_miss E tm from_block to_block w →
      zsets w'
      = if bool_decide (0 < size d)%nat then
          <[price_cache_key E tm :=
              foldl (λ zs (x : member * Z), zadd_one x.2 x.1 zs)
                (default [] (zsets w !! price_cache_key E tm))
                (redis_cache_mapping d)]> (zsets w)
        else zsets w
  end.
Proof.
  unfold get_token_price_in_block_range, try_catch.
  pose proof price_computation_keeps_cache as Hkeep. revert Hkeep.
  match goal with
  | |- keeps_cache ?c → _ => generalize c
  end.
  intros compute Hkeep.
  unfold mbind at 1, M_bind at 1, bind at 1.
  unfold zrangebyscore at 1, gets at 1.
  fold (price_cache_key E tm).
  destruct (negb _ && _) eqn:Hhit.
  - unmonad. intros [= <- <-] (cached & w0 & Hcache & Hmiss).
    unfold zrangebyscore, gets in Hcache. fold (price_cache_key E tm) in Hcache.
    injection Hcache as <- <-.
    apply andb_true_iff in Hhit as [H1 H2].
    apply negb_true_iff, bool_decide_eq_false in H1.
    apply bool_decide_eq_true in H2. by destruct Hmiss.
  - unfold mbind at 1, M_bind at 1, bind at 1.
    destruct (compute w) as [[d|e] w1] eqn:Hc.
    + apply Hkeep in Hc. unfold zadd, modify. unmonad.
      destruct (bool_decide (0 < size d)%nat) eqn:Hsz; simpl;
        intros [= <- <-] _; simpl; by rewrite Hsz, Hc.
    + apply Hkeep in Hc. unfold price_emit. unmonad.
      intros [= <- <-]. simpl. split; [done|]. apply last_snoc.
Qed.
End price_run.

Lemma size_covering_range (d : gmap Z Qc) (from_block to_block : Z) :
  (∀ b, is_Some (d !! b) ↔ from_block ≤ b ≤ to_block) →
  Z.of_nat (size d) = Z.max 0 (to_block - (from_block - 1)).
Proof.
  intros Hcover.
  assert (Hdom : dom d = list_to_set (block_range from_block to_block)).
  { apply set_eq. intros b.
    by rewrite elem_of_dom, Hcover, elem_of_list_to_set, elem_of_block_range. }
  rewrite <- size_dom, Hdom, size_list_to_set by apply NoDup_seqZ.
  unfold block_range. rewrite length_seqZ. lia.
Qed.

(** X21.  A call of [get_token_price_in_block_range] that raises has
    written nothing to the price cache: the [zadd] is the last step of the
    computation and nothing after it can fail.  The error is traced last,
    and the exception is raised again. *)
Theorem failed_pricing_leaves_cache
    (E : price_env) (tm : token_metadata) (from_block to_block : Z)
    (debug_log : bool) (w w' : price_world) (e : exn) :
  get_token_price_in_block_range E tm from_block to_block debug_log w
    = (Raise e, w') →
  zsets w' = zsets w ∧
  last (price_trace w') = Some (Trace "Error while calculating price of token").
Proof. intros Hrun. exact (price_run_outcome _ _ _ _ _ _ _ _ Hrun). Qed.


Lemma failed_pricing_leaves_cache_witness :
  zsets Scenario.failed_call.2 = zsets Scenario.first_call.2 ∧
  last (price_trace Scenario.failed_call.2)
  = Some (Trace "Error while calculating price of token").
Proof.
  apply (failed_pricing_leaves_cache Scenario.no_factory Scenario.priced_token
           5 6 true Scenario.first_call.2 Scenario.failed_call.2 RPCError).
  vm_compute. reflexivity.
Defined.


(** X22.  The price cache gives back what was stored.  When the cache
    holds no member for the range and the prices of a token that is not WETH
    are computed over a range that is not empty, the same call made again
    finds one member per block of the range, returns the same price map
    from the cache alone and changes nothing: no pair is fetched, nothing is
    written. *)
Theorem price_cache_round_trip
    (E : price_env) (tm : token_metadata) (from_block to_block : Z)
    (debug_log debug_log' : bool) (w w' : price_world)
    (token_price_dict : gmap Z Qc) :
  toChecksumAddress E (address tm) ≠ toChecksumAddress E (WETH E) →
  from_block ≤ to_block →
  zrangebyscore (price_cache_key E tm) from_block to_block w = (Ok [], w) →
  get_token_price_in_block_range E tm from_block to_block debug_log w
    = (Ok token_price_dict, w') →
  get_token_price_in_block_range E tm from_block to_block debug_log' w'
    = (Ok token_price_dict, w').
Proof.
  intros Hweth Hle Hempty Hrun.
  assert (Hmiss : cache_miss E tm from_block to_block w).
  { exists [], w. split; [exact Hempty|by left]. }
  pose proof (recomputed_prices_cover_the_range _ _ _ _ _ _ _ _ Hweth Hmiss Hrun)
    as Hcover.
  pose proof (size_covering_range _ _ _ Hcover) as Hsize.
  pose proof (price_run_outcome _ _ _ _ _ _ _ _ Hrun Hmiss) as Hzsets.
  rewrite bool_decide_eq_true_2 in Hzsets by lia.
  unfold zrangebyscore, gets in Hempty. injection Hempty as Hempty.
  apply fmap_nil_inv in Hempty.
  pose proof (zadd_fresh_range from_block to_block (map_to_list token_price_dict)
                (default [] (zsets w !! price_cache_key E tm))
                (NoDup_fst_map_to_list _)) as Hperm.
  fold (redis_cache_mapping token_price_dict) in Hperm.
  specialize (Hperm
    ltac:(intros [h p] Hhp%elem_of_map_to_list; simpl; apply Hcover; eauto)
    Hempty).
  assert (Hcached :
    (filter (λ x : Z * member, from_block ≤ x.1 ∧ x.1 ≤ to_block)
       (default [] (zsets w' !! price_cache_key E tm))).*2
    ≡ₚ map_to_list token_price_dict).
  { rewrite Hzsets, lookup_insert_eq. simpl. rewrite Hperm.
    rewrite <- list_fmap_compose. by rewrite list_fmap_id. }
  unfold get_token_price_in_block_range, try_catch.
  unfold mbind at 1, M_bind at 1, bind at 1.
  unfold zrangebyscore at 1, gets at 1. fold (price_cache_key E tm).
  set (cached := (filter _ _).*2) in *.
  assert (Hlen : Z.of_nat (length cached) = to_block - (from_block - 1)).
  { rewrite Hcached, length_map_to_list. lia. }
  rewrite (bool_decide_eq_true_2 _ Hlen).
  rewrite bool_decide_eq_false_2.
  2:{ intros Hnil. rewrite Hnil in Hlen. simpl in Hlen. lia. }
  unmonad. simpl. by rewrite (price_dict_of_members _ _ Hcached).
Qed.

Lemma price_cache_round_trip_witness :
  get_token_price_in_block_range Scenario.weth_chain Scenario.priced_token 5 5
    false Scenario.first_call.2
  = (Ok Scenario.first_prices, Scenario.first_call.2).
Proof.
  apply (price_cache_round_trip Scenario.weth_chain Scenario.priced_token 5 5
           true false Scenario.cold Scenario.first_call.2 Scenario.first_prices).
  - discriminate.
  - lia.
  - vm_compute. reflexivity.
  - vm_compute. reflexivity.
Defined.

(** *** Derived ETH *)

Lemma derived_eth_loop_empty_output l : ∀ blocks index acc i,
  (i < length blocks)%nat → l !! (index + i)%nat = Some [] →
  ∃ e, derived_eth_loop l blocks index acc = Raise e.
Proof.
  induction blocks as [|b blocks IH]; intros index acc i Hi Hl; simpl in Hi.
  - lia.
  - simpl. unmonad.
    destruct i as [|i].
    + rewrite Nat.add_0_r in Hl. rewrite Hl. simpl. by eexists.
    + destruct (l !! index) as [o|]; [|by eexists]. simpl.
      destruct (unpack_second o) as [x|]; [|by eexists]. simpl.
      apply (IH _ _ i); [lia|].
      by replace (S index + i)%nat with (index + S i)%nat by lia.
Qed.

(** X23.  An empty result of the router at a block of the range makes
    [get_token_derived_eth] raise: the branch that stores 0 for such a
    block is followed, with no [continue], by the unpacking of the first
    output of the same result, and the 0 is never returned. *)
Theorem derived_eth_empty_output_raises
    (E : price_env) (from_block to_block : Z) (wm : token_metadata)
    (w : price_world) (l : list (list (list Z))) (b : Z) :
  toChecksumAddress E (address wm) ≠ toChecksumAddress E (WETH E) →
  batch_getAmountsOut E (10 ^ Z.of_N (decimals wm))
    [toChecksumAddress E (address wm); toChecksumAddress E (WETH E)]
    from_block to_block = Ok l →
  from_block ≤ b ≤ to_block →
  l !! Z.to_nat (b - from_block) = Some [] →
  ∃ e w', get_token_derived_eth E from_block to_block wm w = (Raise e, w').
Proof.
  intros Hweth Hbatch Hb Hl. unfold get_token_derived_eth.
  rewrite (bool_decide_eq_false_2 _ Hweth), Hbatch.
  unfold price_emit. unmonad.
  destruct (bool_decide _); [by eexists _, _|].
  destruct (derived_eth_loop_empty_output l (block_range from_block to_block)
              0 ∅ (Z.to_nat (b - from_block))) as [e ->]; [|done|by eexists _, _].
  unfold block_range. rewrite length_seqZ. lia.
Qed.

Lemma derived_eth_empty_output_raises_witness :
  ∃ e w',
    get_token_derived_eth Scenario.empty_quotes 5 6 Scenario.priced_token
      Scenario.cold = (Raise e, w').
Proof.
  apply (derived_eth_empty_output_raises Scenario.empty_quotes 5 6
           Scenario.priced_token Scenario.cold [[]; []] 6).
  - discriminate.
  - vm_compute. reflexivity.
  - lia.
  - reflexivity.
Defined.

(** *** Pair prices *)

Section pair_prices.
Context (E : price_env) (md : pair_metadata) (white_token : string)
        (l : list (Z * Z * Z)).

(** The loop enters, for the i-th block it is given, what goes with the
    i-th result that follows [index]. *)
Lemma reserves_loop_values : ∀ blocks index P R w P' R' w',
  NoDup blocks →
  reserves_loop E md white_token l blocks index P R w = (Ok (P', R'), w') →
  (∀ b, b ∉ blocks → P' !! b = P !! b ∧ R' !! b = R !! b) ∧
  (∀ i b, blocks !! i = Some b →
     ∃ rs, l !! (index + i)%nat = Some rs ∧
           P' !! b = Some (price_and_reserve E md white_token rs).1 ∧
           R' !! b = Some (price_and_reserve E md white_token rs).2).
Proof.
  induction blocks as [|b blocks IH]; intros index P R w P' R' w' Hnd Hrun.
  - simpl in Hrun. unmonad. simplify_eq. split; [done|]. intros i b Hi. done.
  - apply NoDup_cons in Hnd as [Hb Hnd].
    simpl in Hrun. unfold mbind at 1, M_bind at 1, bind at 1, lift at 1 in Hrun.
    destruct (l !! index) as [rs|] eqn:Hrs; [|done].
    unfold mbind at 1, M_bind at 1, bind at 1 in Hrun.
    set (r0 := scale_by_decimals rs.1.1 (decimals (token0 md))) in *.
    set (r1 := scale_by_decimals rs.1.2 (decimals (token1 md))) in *.
    assert (Hbody : ∃ w1,
      (if bool_decide (r0 = 0%Qc) || bool_decide (r1 = 0%Qc)
       then mret (0%Qc, 0%Qc)
       else if bool_decide (toChecksumAddress E (address (token0 md)) = white_token)
            then p ← divide b r0 r1; mret (p, r0)
            else p ← divide b r1 r0; mret (p, r1)) w
      = (Ok (price_and_reserve E md white_token rs), w1)).
    { unfold price_and_reserve, white_and_other. fold r0 r1.
      destruct (bool_decide (toChecksumAddress E (address (token0 md)) = white_token));
        cbn [fst snd].
      - destruct (bool_decide (r0 = 0%Qc)) eqn:H0,
                 (bool_decide (r1 = 0%Qc)) eqn:H1; simpl; try by eexists.
        apply bool_decide_eq_false in H1.
        unfold divide, price_emit. unmonad. simpl.
        rewrite (truediv_nonzero _ _ H1). by eexists.
      - destruct (bool_decide (r0 = 0%Qc)) eqn:H0,
                 (bool_decide (r1 = 0%Qc)) eqn:H1; simpl; try by eexists.
        apply bool_decide_eq_false in H0.
        unfold divide, price_emit. unmonad. simpl.
        rewrite (truediv_nonzero _ _ H0). by eexists. }
    destruct Hbody as [w1 Hbody]. rewrite Hbody in Hrun.
    destruct (price_and_reserve E md white_token rs) as [price reserve] eqn:Hpr.
    apply IH in Hrun as [Hout Hin]; [|done].
    split.
    + intros b' [Hne Hb']%not_elem_of_cons.
      destruct (Hout b' Hb') as [-> ->]. by rewrite !lookup_insert_ne.
    + intros [|i] b' Hi; simpl in Hi.
      * simplify_eq. exists rs. rewrite Nat.add_0_r. split; [done|].
        destruct (Hout b' Hb) as [-> ->]. by rewrite !lookup_insert_eq, Hpr.
      * destruct (Hin i b' Hi) as (rs' & Hl & HP & HR).
        exists rs'. by replace (index + S i)%nat with (S index + i)%nat by lia.
Qed.
End pair_prices.

(** X24.  What [get_token_pair_price_and_white_token_reserves] returns
    for a block of the range goes with the result of the batch call at the
    offset of the block.  Of the two reserves of that result, each divided
    by ten to the decimals of its token, the one of the whitelist token is
    that of token0 when the checksummed address of token0 is the whitelist
    token, and that of token1 otherwise, without a check that token1 is.
    When either reserve is 0 the price and the reserve entered are 0; else
    the price is the reserve of the whitelist token divided by the other
    one, and the reserve entered is that of the whitelist token.  Results
    of the batch call beyond the range are ignored. *)
Theorem pair_price_is_white_over_other_reserve
    (E : price_env) (pair_address : string) (from_block to_block : Z)
    (md : pair_metadata) (white_token : string) (w w' : price_world)
    (token_price_dict white_token_reserves_dict : gmap Z Qc) (b : Z) :
  get_token_pair_price_and_white_token_reserves E pair_address from_block
    to_block md white_token w
    = (Ok (token_price_dict, white_token_reserves_dict), w') →
  from_block ≤ b ≤ to_block →
  ∃ pair_reserves_list rs,
    batch_getReserves E pair_address from_block to_block = Ok pair_reserves_list ∧
    pair_reserves_list !! Z.to_nat (b - from_block) = Some rs ∧
    let white := (white_and_other E md white_token rs).1 in
    let other := (white_and_other E md white_token rs).2 in
    if bool_decide (white = 0%Qc) || bool_decide (other = 0%Qc) then
      token_price_dict !! b = Some 0%Qc ∧
      white_token_reserves_dict !! b = Some 0%Qc
    else
      token_price_dict !! b = Some (white / other)%Qc ∧
      white_token_reserves_dict !! b = Some white.
Proof.
  unfold get_token_pair_price_and_white_token_reserves.
  unfold mbind at 1, M_bind at 1, bind at 1, lift at 1.
  destruct (batch_getReserves E pair_address from_block to_block) as [l|];
    [|done].
  destruct (bool_decide _); [unfold price_emit; unmonad; done|].
  intros Hrun Hb.
  apply reserves_loop_values in Hrun as [_ Hin]; [|apply NoDup_seqZ].
  destruct (Hin (Z.to_nat (b - from_block)) b) as (rs & Hl & HP & HR).
  { unfold block_range. apply lookup_seqZ. lia. }
  exists l, rs. split; [done|]. split; [exact Hl|]. cbv zeta.
  unfold price_and_reserve in HP, HR.
  by destruct (_ || _).
Qed.

Lemma pair_price_is_white_over_other_reserve_witness :
  ∃ pair_reserves_list rs,
    batch_getReserves Scenario.weth_chain "0xPAIR" 5 5 = Ok pair_reserves_list ∧
    pair_reserves_list !! Z.to_nat (5 - 5) = Some rs ∧
    let white :=
      (white_and_other Scenario.weth_chain Scenario.weth_pair "0xWETH" rs).1 in
    let other :=
      (white_and_other Scenario.weth_chain Scenario.weth_pair "0xWETH" rs).2 in
    if bool_decide (white = 0%Qc) || bool_decide (other = 0%Qc) then
      Scenario.weth_pair_maps.1 !! 5 = Some 0%Qc ∧
      Scenario.weth_pair_maps.2 !! 5 = Some 0%Qc
    else
      Scenario.weth_pair_maps.1 !! 5 = Some (white / other)%Qc ∧
      Scenario.weth_pair_maps.2 !! 5 = Some white.
Proof.
  apply (pair_price_is_white_over_other_reserve Scenario.weth_chain "0xPAIR"
           5 5 Scenario.weth_pair "0xWETH" Scenario.cold
           Scenario.weth_pair_prices.2
           Scenario.weth_pair_maps.1 Scenario.weth_pair_maps.2 5).
  - vm_compute. reflexivity.
  - lia.
Defined.

(** *** From the whitelist to the price in USD *)

(** X25.  The price of a token that is not WETH, computed on a cache
    miss through the first token of the whitelist when that token is deep
    enough: at every block of the range it is the price against the whitelist
    token, times what the whitelist token is worth in ETH, times the price of
    ETH in USD at the block, the latter taken for 0 where the ETH price map
    has no entry. *)
Theorem token_price_through_first_whitelist_token
    (E : price_env) (tm : token_metadata) (from_block to_block : Z)
    (debug_log : bool) (w w1 : price_world) (white_token : string)
    (rest : list string) (p r d usd : gmap Z Qc) :
  toChecksumAddress E (address tm) ≠ toChecksumAddress E (WETH E) →
  cache_miss E tm from_block to_block w →
  uniswap_v2_whitelist E = white_token :: rest →
  white_token_series E tm from_block to_block
    (toChecksumAddress E white_token) w = (Ok (Some (p, r, d)), w1) →
  deep_enough r d from_block to_block →
  from_block ≤ to_block →
  get_eth_price_usd E from_block to_block = Ok usd →
  ∃ token_price_dict w',
    get_token_price_in_block_range E tm from_block to_block debug_log w
      = (Ok token_price_dict, w') ∧
    ∀ b, from_block ≤ b ≤ to_block →
      ∃ pb db, p !! b = Some pb ∧ d !! b = Some db ∧
               token_price_dict !! b
               = Some (pb * db * default 0%Qc (usd !! b))%Qc.
Proof.
  intros Hweth (cached & w0 & Hcache & Hmiss) Hwl Hseries Hdeep Hle Husd.
  unfold get_token_price_in_block_range, try_catch.
  unfold mbind at 1, M_bind at 1, bind at 1. rewrite Hcache.
  unfold zrangebyscore, gets in Hcache. injection Hcache as _ <-.
  assert (negb (bool_decide (cached = []))
          && bool_decide (Z.of_nat (length cached) = to_block - (from_block - 1))
          = false) as ->.
  { destruct Hmiss as [->|Hne]; [done|].
    rewrite (bool_decide_eq_false_2 _ Hne). apply andb_false_r. }
  rewrite (bool_decide_eq_false_2 _ Hweth), Hwl.
  unfold mbind at 1, M_bind at 1, bind at 1.
  unfold mbind at 1, M_bind at 1, bind at 1.
  rewrite whitelist_cascade_cons, Hseries.
  destruct (liquidity_scan_deep p r d (block_range from_block to_block) ∅)
    as (acc & -> & Hin & _).
  { intros b Hb%elem_of_block_range. split; [|by apply Hdeep].
    by apply (white_token_series_defined _ _ _ _ _ _ _ _ _ _ Hseries). }
  assert (Hsize : (0 < size acc)%nat).
  { destruct (Hin from_block) as (pb & db & _ & _ & Hacc).
    { apply elem_of_block_range. lia. }
    apply Nat.neq_0_lt_0. intros ->%map_size_empty_iff. done. }
  rewrite (bool_decide_eq_true_2 _ Hsize).
  unfold mbind at 1, M_bind at 1, bind at 1.
  unfold mbind at 1, M_bind at 1, bind at 1, lift at 1. rewrite Husd.
  set (prices := foldl _ ∅ (block_range from_block to_block)).
  assert (Hprices : ∀ b, from_block ≤ b ≤ to_block →
            ∃ pb db, p !! b = Some pb ∧ d !! b = Some db ∧
                     prices !! b = Some (pb * db * default 0%Qc (usd !! b))%Qc).
  { intros b Hb%elem_of_block_range.
    destruct (Hin b Hb) as (pb & db & Hp & Hd & Hacc).
    exists pb, db. split; [done|]. split; [done|]. unfold prices.
    rewrite (lookup_foldl_insert (λ block_num,
      (default 0%Qc (acc !! block_num) * default 0%Qc (usd !! block_num))%Qc)).
    rewrite decide_True by done. by rewrite Hacc. }
  clearbody prices.
  unfold price_emit, zadd. unmonad.
  destruct debug_log, (bool_decide (0 < size prices)%nat); simpl;
    eexists _, _; (split; [reflexivity|exact Hprices]).
Qed.

Lemma token_price_through_first_whitelist_token_witness :
  ∃ token_price_dict w',
    get_token_price_in_block_range Scenario.weth_chain Scenario.priced_token
      5 5 true Scenario.cold = (Ok token_price_dict, w') ∧
    ∀ b, 5 ≤ b ≤ 5 →
      ∃ pb db, Scenario.weth_series_maps.1.1 !! b = Some pb ∧
               Scenario.weth_series_maps.2 !! b = Some db ∧
               token_price_dict !! b
               = Some (pb * db * default 0%Qc (Scenario.eth_usd_5 !! b))%Qc.
Proof.
  apply (token_price_through_first_whitelist_token Scenario.weth_chain
           Scenario.priced_token 5 5 true Scenario.cold Scenario.weth_series.2
           "0xWETH" [] Scenario.weth_series_maps.1.1
           Scenario.weth_series_maps.1.2 Scenario.weth_series_maps.2
           Scenario.eth_usd_5).
  - discriminate.
  - eexists _, _. split; [reflexivity|]. by left.
  - reflexivity.
  - vm_compute. reflexivity.
  - intros b Hb. assert (b = 5) as -> by lia.
    eexists _, _. split; [vm_compute; reflexivity|].
    split; [vm_compute; reflexivity|].
    intros H. vm_compute in H. discriminate.
  - lia.
  - reflexivity.
Defined.

(** *** Edges of the builders *)

(** X26.  An epoch whose end is below its begin has no block: the
    reserves build fetches nothing, raises nothing and returns a snapshot
    with two empty maps, stamped with the reading of the clock, which the
    handler then takes for a successful build. *)
Theorem inverted_epoch_gives_empty_snapshot
    (E : env) (msg_obj : process_message) (enqueue_on_failure : bool)
    (w : world) :
  msg_end msg_obj < msg_begin msg_obj →
  _construct_pair_reserves_epoch_snapshot_data E msg_obj enqueue_on_failure w
  = (Ok (Some {| token0Reserves := ∅;
                 token1Reserves := ∅;
                 chainHeightRange :=
                   EpochBase (msg_begin msg_obj) (msg_end msg_obj);
                 timestamp := wall_clock E (ticks w);
                 contract := msg_contract msg_obj;
                 broadcast_id := msg_broadcast_id msg_obj |}),
     after_clock w).
Proof.
  intros Hlt. unfold _construct_pair_reserves_epoch_snapshot_data, block_range.
  assert (seqZ (msg_begin msg_obj) (msg_end msg_obj - msg_begin msg_obj + 1) = [])
    as -> by (apply seqZ_nil; lia).
  reflexivity.
Qed.

Lemma inverted_epoch_gives_empty_snapshot_witness :
  _construct_pair_reserves_epoch_snapshot_data (Scenario.happy [] [] [])
    Scenario.inverted_unit true Scenario.start
  = (Ok (Some {| token0Reserves := ∅;
                 token1Reserves := ∅;
                 chainHeightRange :=
                   EpochBase (msg_begin Scenario.inverted_unit)
                     (msg_end Scenario.inverted_unit);
                 timestamp := wall_clock (Scenario.happy [] [] [])
                                (ticks Scenario.start);
                 contract := msg_contract Scenario.inverted_unit;
                 broadcast_id := msg_broadcast_id Scenario.inverted_unit |}),
     after_clock Scenario.start).
Proof.
  apply (inverted_epoch_gives_empty_snapshot (Scenario.happy [] [] [])
           Scenario.inverted_unit true Scenario.start).
  simpl. lia.
Defined.

(** The entry [timestamp] of what the trades fetch returns. *)
Lemma get_pair_contract_trades_timestamp E pair from_block to_block w rets w' :
  get_pair_contract_trades_async E pair from_block to_block true w
    = (Ok rets, w') →
  snapshot_timestamp rets = Ok (header_timestamp E to_block).
Proof.
  unfold get_pair_contract_trades_async, header_timestamp.
  pose proof (fill_rets_three E) as Hthree. revert Hthree.
  generalize (fill_rets E). intros fr Hthree. unmonad. intros H.
  destruct (script_load E); [done|].
  destruct (rate_limit_gate _ _ _ _ _ _ _ _ _) as [[[]|] w0]; try done.
  destruct (get_events_logs E "Swap" _ _ _) as [swaps|]; [|by repeat case_match].
  destruct (get_events_logs E "Mint" _ _ _) as [mints|]; [|by repeat case_match].
  destruct (get_events_logs E "Burn" _ _ _) as [burns|]; [|by repeat case_match].
  destruct (get_block E to_block) as [[d|]|];
    simpl in H;
    (destruct (fr _ _ _ _) as [[rets0|?] w2] eqn:Hfr; [|done]);
    apply Hthree in Hfr as (t1 & t2 & t3 & ->);
    by simplify_eq/=.
Qed.

(** X27.  The timestamp of a trade-volume snapshot is that of the header
    of the end block of the epoch; when the header cannot be fetched, or
    its timestamp is 0, the snapshot is stamped with the reading of the clock
    made when the build started, and the error is logged last. *)
Theorem trade_snapshot_timestamp
    (E : env) (msg_obj : process_message) (enqueue_on_failure : bool)
    (w w' : world) (snapshot : trades_snapshot) :
  _construct_trade_volume_epoch_snapshot_data E msg_obj enqueue_on_failure w
    = (Ok (Some snapshot), w') →
  if truthy_int (header_timestamp E (msg_end msg_obj)) then
    Some (tv_timestamp snapshot) = header_timestamp E (msg_end msg_obj)
  else
    tv_timestamp snapshot = wall_clock E (ticks w) ∧
    last (trace w') = Some (LogError timestamp_error_trades).
Proof.
  unfold _construct_trade_volume_epoch_snapshot_data. unmonad. intros H.
  destruct (get_pair_contract_trades_async _ _ _ _ _ _) as [[rets|e] w1] eqn:Hrets;
    [|destruct enqueue_on_failure; [destruct (rpush E _ _)|]; simplify_eq/=].
  pose proof (get_pair_contract_trades_timestamp _ _ _ _ _ _ _ Hrets) as Hts.
  apply get_pair_contract_trades_rets in Hrets
    as (swaps & mints & burns & t1 & t2 & t3 & ts & _ & _ & _ & ->).
  destruct (sum_events_rets (decoded_log <$> swaps) (decoded_log <$> mints)
              (decoded_log <$> burns) t1 t2 t3 ts (Totals 0%Qc 0%Qc 0%Qc 0%Qc []))
    as (t & Hsum & _).
  rewrite Hsum, Hts in H. revert H.
  destruct (header_timestamp E (msg_end msg_obj)) as [z|] eqn:Hh; simpl.
  - destruct (negb (z =? 0)); simpl; intros H; simplify_eq/=; [done|].
    split; [done|]. apply last_snoc.
  - intros H. simplify_eq/=. split; [done|]. apply last_snoc.
Qed.

Lemma trade_snapshot_timestamp_witness :
  if truthy_int (header_timestamp Scenario.no_block_header
                   (msg_end Scenario.work_unit)) then
    Some (tv_timestamp Scenario.no_header_trades_snapshot)
    = header_timestamp Scenario.no_block_header (msg_end Scenario.work_unit)
  else
    tv_timestamp Scenario.no_header_trades_snapshot
    = wall_clock Scenario.no_block_header (ticks Scenario.start) ∧
    last (trace Scenario.no_header_trades_run.2)
    = Some (LogError timestamp_error_trades).
Proof.
  apply (trade_snapshot_timestamp Scenario.no_block_header Scenario.work_unit
           true Scenario.start Scenario.no_header_trades_run.2
           Scenario.no_header_trades_snapshot).
  vm_compute. reflexivity.
Defined.
